(** * YuanziWuli: knowledge ingestion and retrieval-augmented answering

    A shallow embedding of the chunker ([backend/app/kb/chunker.py]), the
    score conversion of the vector store adapter ([backend/app/kb/vectordb.py]),
    the confidence scorer and citation extractor
    ([backend/app/services/rag_service.py]) and the ingestion background job
    ([backend/app/services/kb_service.py]), with the properties the
    specification states about them.

    Conventions.  A Python [str] is a list of Unicode code points, a Python
    [int] is a [Z], a Python [float] is a rational number ([Q]): the
    arithmetic of the scorer is modelled exactly, without rounding. *)

From Stdlib Require Import String.
From Stdlib Require Import List ZArith NArith QArith Qminmax Bool Lia Lqa.
From Stdlib Require Import Sorted Permutation.
From Stdlib Require DecimalZ.
Import ListNotations.

Local Open Scope Z_scope.

(* ================================================================= *)
(** ** Python strings *)

Module PyStr.

Definition char := N.
Definition str := list char.

Definition len (t : str) : Z := Z.of_nat (length t).

(** Truthiness of a string: [if s:] holds for the non-empty ones. *)
Definition truthy (t : str) : bool :=
  match t with [] => false | _ :: _ => true end.

Definition char_eqb (a b : char) : bool := N.eqb a b.

Fixpoint str_eqb (a b : str) : bool :=
  match a, b with
  | [], [] => true
  | x :: a', y :: b' => char_eqb x y && str_eqb a' b'
  | _, _ => false
  end.

(** [str.isspace] on one code point: the characters [str.strip()] removes. *)
Definition isspace (c : char) : bool :=
  ((9 <=? c) && (c <=? 13) || (28 <=? c) && (c <=? 32)
   || (c =? 133) || (c =? 160) || (c =? 5760)
   || (8192 <=? c) && (c <=? 8202)
   || (c =? 8232) || (c =? 8233) || (c =? 8239) || (c =? 8287)
   || (c =? 12288))%N.

Fixpoint lstrip (t : str) : str :=
  match t with
  | [] => []
  | c :: t' => if isspace c then lstrip t' else t
  end.

Definition rstrip (t : str) : str := rev (lstrip (rev t)).

Definition strip (t : str) : str := rstrip (lstrip t).

(** Index adjustment of a slice bound: a negative bound counts from the end,
    and every bound is clamped to [0, len]. *)
Definition adjust (n i : Z) : Z :=
  if i <? 0 then Z.max 0 (i + n) else Z.min i n.

(** [t[i:j]] *)
Definition slice (t : str) (i j : Z) : str :=
  let lo := adjust (len t) i in
  let hi := adjust (len t) j in
  firstn (Z.to_nat (hi - lo)) (skipn (Z.to_nat lo) t).

(** [t[:j]] *)
Definition slice_to (t : str) (j : Z) : str := slice t 0 j.

Fixpoint startswith (sub t : str) : bool :=
  match sub, t with
  | [], _ => true
  | _ :: _, [] => false
  | a :: sub', b :: t' => char_eqb a b && startswith sub' t'
  end.

(** [sub in t] *)
Fixpoint contains (sub t : str) : bool :=
  startswith sub t
  || match t with
     | [] => false
     | _ :: t' => contains sub t'
     end.

Definition match_at (t sub : str) (i : Z) : bool :=
  startswith sub (skipn (Z.to_nat i) t).

(** Candidates [lo + k - 1], ..., [lo], highest first. *)
Fixpoint rfind_down (t sub : str) (lo : Z) (k : nat) : Z :=
  match k with
  | O => -1
  | S k' =>
      if match_at t sub (lo + Z.of_nat k') then lo + Z.of_nat k'
      else rfind_down t sub lo k'
  end.

(** [t.rfind(sub, start, end)]: the highest index in [start, end - len(sub)]
    where [sub] occurs, or -1. *)
Definition rfind (t sub : str) (start end_ : Z) : Z :=
  let n := len t in
  let hi := if end_ >? n then n
            else if end_ <? 0 then Z.max 0 (end_ + n) else end_ in
  let lo := if start <? 0 then Z.max 0 (start + n) else start in
  if hi - lo <? len sub then -1
  else rfind_down t sub lo (Z.to_nat (hi - len sub - lo + 1)).

(** The decimal digits of an integer and [str(n)]. *)
Fixpoint uint_digits (d : Decimal.uint) : str :=
  match d with
  | Decimal.Nil => []
  | Decimal.D0 d' => 48%N :: uint_digits d'
  | Decimal.D1 d' => 49%N :: uint_digits d'
  | Decimal.D2 d' => 50%N :: uint_digits d'
  | Decimal.D3 d' => 51%N :: uint_digits d'
  | Decimal.D4 d' => 52%N :: uint_digits d'
  | Decimal.D5 d' => 53%N :: uint_digits d'
  | Decimal.D6 d' => 54%N :: uint_digits d'
  | Decimal.D7 d' => 55%N :: uint_digits d'
  | Decimal.D8 d' => 56%N :: uint_digits d'
  | Decimal.D9 d' => 57%N :: uint_digits d'
  end.

Definition str_of_int (n : Z) : str :=
  match Z.to_int n with
  | Decimal.Pos d => uint_digits d
  | Decimal.Neg d => 45%N :: uint_digits d
  end.

End PyStr.

(* ================================================================= *)
(** ** Configuration defaults ([backend/app/core/config.py]) *)

Module settings.

Definition CHUNK_SIZE : Z := 800.
Definition CHUNK_OVERLAP : Z := 120.
Definition CONFIDENCE_THRESHOLD : Q := 45 # 100.
Definition TOP_K : Z := 12.
Definition RERANK_TOP_N : Z := 6.
Definition EMBEDDING_BATCH_SIZE : Z := 32.

End settings.

(* ================================================================= *)
(** ** The chunker ([backend/app/kb/chunker.py]) *)

Module Chunker.
Import PyStr.

(** Values stored in a chunk's metadata dictionary. *)
Inductive MetaValue : Type :=
| MText (s : str)
| MInt (n : Z)
| MTag (s : string).

(** A metadata dictionary, in insertion order. *)
Definition Metadata := list (string * MetaValue).

Record TextChunk : Type := mkTextChunk {
  index : Z;
  text : str;
  metadata : Metadata;
  start_offset : Z;
  end_offset : Z
}.

(** One entry of [parsed_doc["content"]] as the parser builds it.  The
    parser fills [text] and [section] for every document type, [page] for
    pdf, [slide] for pptx and [paragraph] for docx and txt; a key the
    chunker reads with [.get(key, default)] and the parser did not write
    holds the default. *)
Record Block : Type := mkBlock {
  b_text : str;
  b_section : str;
  b_page : Z;
  b_slide : Z;
  b_paragraph : Z
}.

Record ParsedDoc : Type := mkParsedDoc {
  content : list Block;
  doc_type : string;
  raw_text : str
}.

Record TextChunker : Type := mkTextChunker {
  chunk_size : Z;
  overlap : Z
}.

(** [x or default] on an optional integer argument: [None] and [0] are
    both falsy. *)
Definition int_or (x : option Z) (default : Z) : Z :=
  match x with
  | Some v => if v =? 0 then default else v
  | None => default
  end.

(** [TextChunker.__init__] *)
Definition init (chunk_size overlap : option Z) : TextChunker :=
  {| chunk_size := int_or chunk_size settings.CHUNK_SIZE;
     overlap := int_or overlap settings.CHUNK_OVERLAP |}.

(** [enumerate(l)] *)
Fixpoint enumerate_from {A : Type} (i : Z) (l : list A) : list (Z * A) :=
  match l with
  | [] => []
  | x :: l' => (i, x) :: enumerate_from (i + 1) l'
  end.

Definition enumerate {A : Type} (l : list A) : list (Z * A) :=
  enumerate_from 0 l.

(** The sentence endings, in the order the source tries them:
    the full-width full stop, exclamation mark and question mark, their
    half-width forms, and a blank line. *)
Definition sentence_endings : list str :=
  [ [12290%N]; [65281%N]; [65311%N]; [46%N]; [33%N]; [63%N]; [10%N; 10%N] ].

Section Methods.

Variable self : TextChunker.

(** [_find_sentence_boundary] *)
Definition _find_sentence_boundary (text : str) (start preferred_end : Z) : Z :=
  let search_start := Z.max start (preferred_end - 100) in
  let search_end := Z.min (len text) (preferred_end + 100) in
  fold_left
    (fun best_pos ending =>
       let pos := rfind text ending search_start search_end in
       if (pos >? start)
          && (Z.abs (pos - preferred_end) <? Z.abs (best_pos - preferred_end))
       then pos + len ending
       else best_pos)
    sentence_endings preferred_end.

(** The end of the cut that starts at [start]. *)
Definition cut_end (text : str) (start : Z) : Z :=
  let end_ := start + chunk_size self in
  if end_ <? len text then
    let sentence_end := _find_sentence_boundary text start end_ in
    if sentence_end >? start then sentence_end else end_
  else end_.

(** The [while start < len(text)] loop of [_split_text_with_overlap]; one
    unit of fuel is spent on each evaluation of the loop condition, and
    [None] means the fuel ran out. *)
Fixpoint split_loop (fuel : nat) (text : str) (chunks : list str) (start : Z)
  : option (list str) :=
  match fuel with
  | O => None
  | S fuel' =>
      if start <? len text then
        let end_ := cut_end text start in
        let chunk := strip (slice text start end_) in
        let chunks := if truthy chunk then chunks ++ [chunk] else chunks in
        if end_ >=? len text then Some chunks
        else split_loop fuel' text chunks
               (Z.max (start + 1) (end_ - overlap self))
      else Some chunks
  end.

(** The loop with its cursor recorded: the [(start, end)] of every
    iteration, in order. *)
Fixpoint split_cuts (fuel : nat) (text : str) (start : Z)
  : option (list (Z * Z)) :=
  match fuel with
  | O => None
  | S fuel' =>
      if start <? len text then
        let end_ := cut_end text start in
        if end_ >=? len text then Some [(start, end_)]
        else option_map (cons (start, end_))
               (split_cuts fuel' text
                  (Z.max (start + 1) (end_ - overlap self)))
      else Some []
  end.

(** [_split_text_with_overlap], with the fuel of the loop explicit. *)
Definition split_with_fuel (fuel : nat) (text : str) : option (list str) :=
  if len text <=? chunk_size self then Some [text]
  else split_loop fuel text [] 0.

(** [_split_text_with_overlap]: the cursor moves forward by at least one
    character per iteration, so [len(text) + 1] evaluations of the loop
    condition always suffice (lemma [split_with_fuel_total]). *)
Definition _split_text_with_overlap (text : str) : list str :=
  match split_with_fuel (S (length text)) text with
  | Some chunks => chunks
  | None => []
  end.

(** The number of iterations of the loop on [text]. *)
Definition split_iterations (text : str) : Z :=
  match split_cuts (S (length text)) text 0 with
  | Some cuts => Z.of_nat (length cuts)
  | None => 0
  end.

(** The parts of one oversized unit, appended with a running chunk index:
    [for i, chunk_text in enumerate(parts): chunks.append(...);
    chunk_index += 1].  [mk index i chunk_text] builds the chunk. *)
Definition append_parts (mk : Z -> Z -> str -> TextChunk)
    (parts : list str) (chunks : list TextChunk) (chunk_index : Z)
  : list TextChunk * Z :=
  fold_left
    (fun (st : list TextChunk * Z) (p : Z * str) =>
       let '(chunks, chunk_index) := st in
       let '(i, chunk_text) := p in
       (chunks ++ [mk chunk_index i chunk_text], chunk_index + 1))
    (enumerate parts) (chunks, chunk_index).

(** [_chunk_pdf_content] *)
Definition _chunk_pdf_content (content : list Block) : list TextChunk :=
  fst (fold_left
    (fun (st : list TextChunk * Z) (page_info : Block) =>
       let '(chunks, chunk_index) := st in
       let page_text := b_text page_info in
       let page_num := b_page page_info in
       let section := b_section page_info in
       if len page_text <=? chunk_size self then
         (chunks ++
            [ {| index := chunk_index;
                 text := page_text;
                 metadata := [ ("section", MText section);
                               ("page", MInt page_num);
                               ("chunk_type", MTag "page") ]%string;
                 start_offset := 0;
                 end_offset := len page_text |} ],
          chunk_index + 1)
       else
         append_parts
           (fun chunk_index i chunk_text =>
              {| index := chunk_index;
                 text := chunk_text;
                 metadata := [ ("section", MText section);
                               ("page", MInt page_num);
                               ("chunk_type", MTag "page_part");
                               ("part", MInt (i + 1)) ]%string;
                 start_offset := 0;
                 end_offset := len chunk_text |})
           (_split_text_with_overlap page_text) chunks chunk_index)
    content ([], 0)).

(** The loop state of [_chunk_paragraph_content]. *)
Record ParaState : Type := mkParaState {
  ps_chunks : list TextChunk;
  ps_chunk_index : Z;
  ps_current_chunk : str;
  ps_current_section : str;
  ps_current_metadata : Metadata
}.

Definition newline : str := [10%N].

(** [chunks.append(TextChunk(index=chunk_index, text=current_chunk.strip(),
    metadata=current_metadata, ...))] *)
Definition flushed (chunk_index : Z) (current_chunk : str)
    (current_metadata : Metadata) : TextChunk :=
  {| index := chunk_index;
     text := strip current_chunk;
     metadata := current_metadata;
     start_offset := 0;
     end_offset := len current_chunk |}.

(** One iteration of the loop over the paragraphs. *)
Definition para_step (st : ParaState) (para_info : Block) : ParaState :=
  let para_text := b_text para_info in
  let section := b_section para_info in
  (* a new section with a pending chunk: save the chunk first *)
  let st1 :=
    if negb (str_eqb section (ps_current_section st))
       && truthy (ps_current_chunk st)
    then {| ps_chunks := ps_chunks st ++
                           [flushed (ps_chunk_index st) (ps_current_chunk st)
                              (ps_current_metadata st)];
            ps_chunk_index := ps_chunk_index st + 1;
            ps_current_chunk := [];
            ps_current_section := ps_current_section st;
            ps_current_metadata := ps_current_metadata st |}
    else st in
  let current_metadata :=
    [ ("section", MText section);
      ("paragraph", MInt (b_paragraph para_info));
      ("chunk_type", MTag "paragraph") ]%string in
  let chunks := ps_chunks st1 in
  let chunk_index := ps_chunk_index st1 in
  let current_chunk := ps_current_chunk st1 in
  if len (current_chunk ++ newline ++ para_text) >? chunk_size self then
    let '(chunks, chunk_index) :=
      if truthy current_chunk
      then (chunks ++ [flushed chunk_index current_chunk current_metadata],
            chunk_index + 1)
      else (chunks, chunk_index) in
    if len para_text >? chunk_size self then
      let '(chunks, chunk_index) :=
        append_parts
          (fun chunk_index i chunk_text =>
             {| index := chunk_index;
                text := chunk_text;
                metadata := current_metadata ++ [("part"%string, MInt (i + 1))];
                start_offset := 0;
                end_offset := len chunk_text |})
          (_split_text_with_overlap para_text) chunks chunk_index in
      {| ps_chunks := chunks;
         ps_chunk_index := chunk_index;
         ps_current_chunk := [];
         ps_current_section := section;
         ps_current_metadata := current_metadata |}
    else
      {| ps_chunks := chunks;
         ps_chunk_index := chunk_index;
         ps_current_chunk := para_text;
         ps_current_section := section;
         ps_current_metadata := current_metadata |}
  else
    {| ps_chunks := chunks;
       ps_chunk_index := chunk_index;
       ps_current_chunk :=
         if truthy current_chunk
         then current_chunk ++ newline ++ para_text
         else para_text;
       ps_current_section := section;
       ps_current_metadata := current_metadata |}.

(** [_chunk_paragraph_content] *)
Definition _chunk_paragraph_content (content : list Block) : list TextChunk :=
  let st :=
    fold_left para_step content
      {| ps_chunks := [];
         ps_chunk_index := 0;
         ps_current_chunk := [];
         ps_current_section := [];
         ps_current_metadata := [] |} in
  if truthy (ps_current_chunk st)
  then ps_chunks st ++
         [flushed (ps_chunk_index st) (ps_current_chunk st)
            (ps_current_metadata st)]
  else ps_chunks st.

(** The parts of a long slide: each takes the number of chunks built so
    far as its index. *)
Definition slide_parts (section : str) (slide_num : Z)
    (parts : list (Z * str)) (chunks : list TextChunk) : list TextChunk :=
  fold_left
    (fun (chunks : list TextChunk) (q : Z * str) =>
       let '(j, chunk_text) := q in
       chunks ++
         [ {| index := Z.of_nat (length chunks);
              text := chunk_text;
              metadata := [ ("section", MText section);
                            ("slide", MInt slide_num);
                            ("chunk_type", MTag "slide_part");
                            ("part", MInt (j + 1)) ]%string;
              start_offset := 0;
              end_offset := len chunk_text |} ])
    parts chunks.

(** One iteration of [for i, slide_info in enumerate(content)]: a slide
    that fits takes its position [i] in the content as its index. *)
Definition slide_step (chunks : list TextChunk) (p : Z * Block)
  : list TextChunk :=
  let '(i, slide_info) := p in
  let slide_text := b_text slide_info in
  let slide_num := b_slide slide_info in
  let section := b_section slide_info in
  if len slide_text <=? chunk_size self then
    chunks ++
      [ {| index := i;
           text := slide_text;
           metadata := [ ("section", MText section);
                         ("slide", MInt slide_num);
                         ("chunk_type", MTag "slide") ]%string;
           start_offset := 0;
           end_offset := len slide_text |} ]
  else
    slide_parts section slide_num
      (enumerate (_split_text_with_overlap slide_text)) chunks.

(** [_chunk_slide_content] *)
Definition _chunk_slide_content (content : list Block) : list TextChunk :=
  fold_left slide_step (enumerate content) [].

(** [_chunk_markdown_content] *)
Definition _chunk_markdown_content (content : list Block) : list TextChunk :=
  fst (fold_left
    (fun (st : list TextChunk * Z) (section_info : Block) =>
       let '(chunks, chunk_index) := st in
       let section_text := b_text section_info in
       let section_name := b_section section_info in
       if len section_text <=? chunk_size self then
         (chunks ++
            [ {| index := chunk_index;
                 text := section_text;
                 metadata := [ ("section", MText section_name);
                               ("chunk_type", MTag "section") ]%string;
                 start_offset := 0;
                 end_offset := len section_text |} ],
          chunk_index + 1)
       else
         append_parts
           (fun chunk_index i chunk_text =>
              {| index := chunk_index;
                 text := chunk_text;
                 metadata := [ ("section", MText section_name);
                               ("chunk_type", MTag "section_part");
                               ("part", MInt (i + 1)) ]%string;
                 start_offset := 0;
                 end_offset := len chunk_text |})
           (_split_text_with_overlap section_text) chunks chunk_index)
    content ([], 0)).

(** The section label of a raw chunk: the three characters of "text block"
    in Chinese followed by the 1-based number of the chunk. *)
Definition raw_section (i : Z) : str :=
  [25991%N; 26412%N; 22359%N] ++ str_of_int (i + 1).

(** [_chunk_raw_text] *)
Definition _chunk_raw_text (text : str) : list TextChunk :=
  map
    (fun p : Z * str =>
       let '(i, chunk_text) := p in
       {| index := i;
          text := chunk_text;
          metadata :=
            [ ("section",
               MText (raw_section i));
              ("chunk_type", MTag "raw") ]%string;
          start_offset := 0;
          end_offset := len chunk_text |})
    (enumerate (_split_text_with_overlap text)).

(** [chunk_document]: dispatch on the document-type tag. *)
Definition chunk_document (parsed_doc : ParsedDoc) : list TextChunk :=
  let content := content parsed_doc in
  let doc_type := doc_type parsed_doc in
  if String.eqb doc_type "pdf" then _chunk_pdf_content content
  else if String.eqb doc_type "docx" || String.eqb doc_type "txt"
  then _chunk_paragraph_content content
  else if String.eqb doc_type "pptx" then _chunk_slide_content content
  else if String.eqb doc_type "markdown" then _chunk_markdown_content content
  else _chunk_raw_text (raw_text parsed_doc).

End Methods.

End Chunker.

(* ================================================================= *)
(** ** Numbers of the scorers *)

Module PyNum.

(** [a < b] on the rationals. *)
Definition Qltb (a b : Q) : bool := negb (Qle_bool b a).

(** [max(a, b)] and [min(a, b)] as Python evaluates them: the first
    argument stays unless the second is strictly better. *)
Definition py_max (a b : Q) : Q := if Qltb a b then b else a.
Definition py_min (a b : Q) : Q := if Qltb b a then b else a.

(** [sum(l)] *)
Definition Qsum (l : list Q) : Q := fold_left Qplus l 0%Q.

(** The specification's [clamp(x, lo, hi)]. *)
Definition clamp (x lo hi : Q) : Q := Qmax lo (Qmin hi x).

End PyNum.

(* ================================================================= *)
(** ** The vector store adapter ([backend/app/kb/vectordb.py]) *)

Module VectorDB.
Import PyStr PyNum.

Record VectorHit : Type := mkVectorHit {
  chunk_id : str;
  score : Q;
  metadata : list (string * str);
  chunk_text : str
}.

(** One hit of [collection.query]: the store returns the columns [ids],
    [distances], [metadatas] and [documents] of the single query as
    parallel lists of one length; a row is what they hold at one
    position. *)
Record QueryRow : Type := mkQueryRow {
  row_id : str;
  row_distance : Q;
  row_metadata : list (string * str);
  row_document : str
}.

(** [score = max(0, 1 - distance)] *)
Definition score_of_distance (distance : Q) : Q :=
  py_max 0 (1 - distance).

(** The conversion loop of [ChromaAdapter.query]. *)
Definition hits_of_results (rows : list QueryRow) : list VectorHit :=
  map
    (fun row =>
       {| chunk_id := row_id row;
          score := score_of_distance (row_distance row);
          metadata := row_metadata row;
          chunk_text := row_document row |})
    rows.

End VectorDB.

(* ================================================================= *)
(** ** Answering ([backend/app/services/rag_service.py]) *)

Module Rag.
Import PyStr PyNum.

(** *** The pattern [\[(\d+)\]] *)

(** The first code points of the runs of ten decimal digits of Unicode
    14.0 (general category Nd), the characters [\d] matches in a [str]
    pattern and [int] converts; the digit at offset [k] of a run has the
    value [k]. *)
Definition decimal_runs : list N :=
  [ 48; 1632; 1776; 1984; 2406; 2534; 2662; 2790; 2918; 3046; 3174; 3302;
    3430; 3558; 3664; 3792; 3872; 4160; 4240; 6112; 6160; 6470; 6608; 6784;
    6800; 6992; 7088; 7232; 7248; 42528; 43216; 43264; 43472; 43504; 43600;
    44016; 65296; 66720; 68912; 69734; 69872; 69942; 70096; 70384; 70736;
    70864; 71248; 71360; 71472; 71904; 72016; 72784; 73040; 73120; 92768;
    92864; 93008; 120782; 120792; 120802; 120812; 120822; 123200; 123632;
    125264; 130032 ]%N.

Definition in_run (c : char) (first : N) : bool :=
  ((first <=? c) && (c <? first + 10))%N.

Definition isdecimal (c : char) : bool := existsb (in_run c) decimal_runs.

Definition digit_value (c : char) : Z :=
  match find (in_run c) decimal_runs with
  | Some first => Z.of_N (c - first)
  | None => 0
  end.

(** [int(num_str)] on a string of decimal digits. *)
Definition int_of_digits (num_str : str) : Z :=
  fold_left (fun acc c => acc * 10 + digit_value c) num_str 0.

Definition lbracket : char := 91%N.
Definition rbracket : char := 93%N.

(** The state of a left-to-right scan for the pattern: outside a match, or
    after an opening bracket and the digits read since. *)
Inductive Scan : Type :=
| Outside
| Inside (digits : str).

(** The groups of the successive matches of the pattern from the state
    [st] on.  An attempt that fails cannot contain the start of another
    match before the character it fails at, since a match starts with the
    only opening bracket it holds. *)
Fixpoint scan_citations (st : Scan) (t : str) : list str :=
  match t with
  | [] => []
  | c :: t' =>
      match st with
      | Outside =>
          if char_eqb c lbracket then scan_citations (Inside []) t'
          else scan_citations Outside t'
      | Inside digits =>
          if isdecimal c then scan_citations (Inside (digits ++ [c])) t'
          else if char_eqb c rbracket && truthy digits
               then digits :: scan_citations Outside t'
          else if char_eqb c lbracket then scan_citations (Inside []) t'
          else scan_citations Outside t'
      end
  end.

(** [re.findall(r'\[(\d+)\]', answer)] *)
Definition findall_citations (answer : str) : list str :=
  scan_citations Outside answer.

Definition str_eq_dec (a b : str) : {a = b} + {a <> b} :=
  list_eq_dec N.eq_dec a b.

(** [set(l)], listed without repetition.  The order in which Python walks
    a set of strings is not fixed; the properties below do not depend on
    it. *)
Definition pyset (l : list str) : list str := nodup str_eq_dec l.

(** *** Evidence and citations *)

(** The [Chunk] and [Document] rows attached to an evidence item. *)
Record ChunkRow : Type := mkChunkRow {
  chunk_row_id : Z;
  chunk_row_text : str;
  chunk_row_section : option str
}.

Record DocumentRow : Type := mkDocumentRow {
  document_row_id : Z;
  document_row_file_name : str
}.

(** One element of [chunk_details]. *)
Record Detail : Type := mkDetail {
  d_score : Q;
  d_chunk : ChunkRow;
  d_document : DocumentRow
}.

Record Citation : Type := mkCitation {
  chunk_id : Z;
  document_id : Z;
  section : option str;
  snippet : str
}.

(** The refusal keywords: "insufficient evidence", "cannot determine",
    "cannot be sure", "not enough information", "need more". *)
Definition refusal_keywords : list str :=
  [ [35777; 25454; 19981; 36275]%N;
    [26080; 27861; 30830; 23450]%N;
    [19981; 33021; 30830; 23450]%N;
    [20449; 24687; 19981; 22815]%N;
    [38656; 35201; 26356; 22810]%N ].

Definition refusal_flag (answer : str) : bool :=
  existsb (fun keyword => contains keyword answer) refusal_keywords.

Definition cited_count (answer : str) : Z :=
  Z.of_nat (length (findall_citations answer)).

(** [_calculate_confidence] *)
Definition _calculate_confidence (chunk_details : list Detail) (answer : str)
  : Q :=
  match chunk_details with
  | [] => 0
  | _ :: _ =>
      let n := inject_Z (Z.of_nat (length chunk_details)) in
      let avg_score := Qsum (map d_score chunk_details) / n in
      let coverage := py_min (inject_Z (cited_count answer) / n) 1 in
      let confidence := (4 # 10) * avg_score + (4 # 10) * coverage + (2 # 10) in
      let confidence :=
        if refusal_flag answer then confidence * (5 # 10) else confidence in
      py_max 0 (py_min 1 confidence)
  end%Q.

(** [chunk_text[:200] + "..." if len(chunk_text) > 200 else chunk_text] *)
Definition snippet_of (chunk_text : str) : str :=
  if len chunk_text >? 200
  then slice_to chunk_text 200 ++ [46; 46; 46]%N
  else chunk_text.

(** What the body of the loop of [_extract_citations] does with one
    matched string. *)
Inductive Outcome : Type :=
| Appended (c : Citation)
| Ignored
| RaisedIndexError.

Definition cite (chunk_details : list Detail) (num_str : str) : Outcome :=
  let num := int_of_digits num_str in
  if (1 <=? num) && (num <=? Z.of_nat (length chunk_details)) then
    match nth_error chunk_details (Z.to_nat (num - 1)) with
    | Some detail =>
        let chunk := d_chunk detail in
        let document := d_document detail in
        Appended
          {| chunk_id := chunk_row_id chunk;
             document_id := document_row_id document;
             section := chunk_row_section chunk;
             snippet := snippet_of (chunk_row_text chunk) |}
    | None => RaisedIndexError
    end
  else Ignored.

(** [_extract_citations]: an [IndexError] is caught and the string
    skipped. *)
Definition _extract_citations (chunk_details : list Detail) (answer : str)
  : list Citation :=
  flat_map
    (fun num_str =>
       match cite chunk_details num_str with
       | Appended c => [c]
       | Ignored | RaisedIndexError => []
       end)
    (pyset (findall_citations answer)).

(** *** Follow-up questions *)

Definition kw_what_is : str := [20160; 20040; 26159]%N.
Definition kw_definition : str := [23450; 20041]%N.
Definition kw_how : str := [22914; 20309]%N.
Definition kw_in_what_way : str := [24590; 26679]%N.
Definition kw_why : str := [20026; 20160; 20040]%N.
Definition kw_experiment : str := [23454; 39564]%N.
Definition kw_formula : str := [20844; 24335]%N.
Definition kw_equation : str := [26041; 31243]%N.
Definition kw_application : str := [24212; 29992]%N.

Definition ask_applications_of_concept : str :=
  [36825; 20010; 27010; 24565; 26377; 21738; 20123; 24212; 29992; 65311]%N.
Definition ask_related_experiments : str :=
  [30456; 20851; 30340; 23454; 39564; 26377; 21738; 20123; 65311]%N.
Definition ask_principle_of_method : str :=
  [36825; 31181; 26041; 27861; 30340; 21407; 29702; 26159; 20160; 20040;
   65311]%N.
Definition ask_cautions : str :=
  [26377; 20160; 20040; 27880; 24847; 20107; 39033; 65311]%N.
Definition ask_applications_of_phenomenon : str :=
  [36825; 20010; 29616; 35937; 30340; 24212; 29992; 26377; 21738; 20123;
   65311]%N.
Definition ask_history : str :=
  [30456; 20851; 30340; 29702; 35770; 21457; 23637; 21382; 21490; 22914;
   20309; 65311]%N.
Definition ask_steps_of_experiment : str :=
  [36825; 20010; 23454; 39564; 30340; 20855; 20307; 27493; 39588; 26159;
   20160; 20040; 65311]%N.
Definition ask_derivation : str :=
  [36825; 20010; 20844; 24335; 22914; 20309; 25512; 23548; 65311]%N.
Definition ask_more_applications : str :=
  [36824; 26377; 21738; 20123; 23454; 38469; 24212; 29992; 65311]%N.

(** The clarifying prompts of a low-confidence response: "which related
    material should be consulted?", "what is the key concept of this
    question?". *)
Definition clarifying_prompts : list str :=
  [ [38656; 35201; 26597; 30475; 21738; 20123; 30456; 20851; 36164; 26009;
     65311]%N;
    [36825; 20010; 38382; 39064; 30340; 20851; 38190; 27010; 24565; 26159;
     20160; 20040; 65311]%N ].

(** [_generate_followups] *)
Definition _generate_followups (question answer : str) : list str :=
  let followups :=
    if contains kw_what_is question || contains kw_definition question
    then [ask_applications_of_concept; ask_related_experiments]
    else if contains kw_how question || contains kw_in_what_way question
    then [ask_principle_of_method; ask_cautions]
    else if contains kw_why question
    then [ask_applications_of_phenomenon; ask_history]
    else [] in
  let followups :=
    if contains kw_experiment answer
    then followups ++ [ask_steps_of_experiment] else followups in
  let followups :=
    if contains kw_formula answer || contains kw_equation answer
    then followups ++ [ask_derivation] else followups in
  let followups :=
    if contains kw_application answer
    then followups ++ [ask_more_applications] else followups in
  firstn 3 followups.

(** *** Responses and the QA log *)

Record Response : Type := mkResponse {
  r_qa_id : option Z;
  r_answer : str;
  r_confidence : Q;
  r_citations : list Citation;
  r_followups : list str
}.

Record QALog : Type := mkQALog {
  log_id : Z;
  log_user_id : Z;
  log_course_id : Z;
  log_question : str;
  log_answer : str;
  log_citations_json : list Citation;
  log_confidence : Q
}.

(** The QA-log state of the session: the committed rows and the key the
    next row gets. *)
Record Db : Type := mkDb {
  qa_logs : list QALog;
  next_id : Z
}.

(** [db.add(qa_log); db.commit(); db.refresh(qa_log)]: the row is stored
    under a fresh key, which is returned. *)
Definition add_qa_log (db : Db) (user_id course_id : Z) (question answer : str)
    (citations : list Citation) (confidence : Q) : Z * Db :=
  (next_id db,
   {| qa_logs := qa_logs db ++
                   [ {| log_id := next_id db;
                        log_user_id := user_id;
                        log_course_id := course_id;
                        log_question := question;
                        log_answer := answer;
                        log_citations_json := citations;
                        log_confidence := confidence |} ];
      next_id := next_id db + 1 |}).

(** [_create_low_confidence_response] *)
Definition _create_low_confidence_response (question answer : str)
    (confidence : Q) (citations : list Citation) : Response :=
  let warning_answer := answer in
  {| r_qa_id := None;
     r_answer := warning_answer;
     r_confidence := confidence;
     r_citations := citations;
     r_followups := clarifying_prompts |}.

Record RAGService : Type := mkRAGService {
  confidence_threshold : Q
}.

(** The outcome of a call of the generation client: the text, or the
    message of the exception it raised. *)
Inductive Completion : Type :=
| Completed (content : str)
| Failed (message : str).

Section Service.

Variable self : RAGService.

(** "answer generation failed: ", the prefix of the [LLMException] that
    [_generate_answer] raises. *)
Definition generation_failed : str :=
  [31572; 26696; 29983; 25104; 22833; 36133; 58; 32]%N.

(** [_generate_answer]; an exception of the client leaves as an
    [LLMException] ([inl], with its message), the session untouched. *)
Definition _generate_answer (db : Db) (user_id course_id : Z) (question : str)
    (llm : Completion) (chunk_details : list Detail)
  : (str + Response) * Db :=
  match llm with
  | Failed message => (inl (generation_failed ++ message), db)
  | Completed answer =>
      let confidence := _calculate_confidence chunk_details answer in
      let citations := _extract_citations chunk_details answer in
      let followups := _generate_followups question answer in
      if Qltb confidence (confidence_threshold self) then
        (inr (_create_low_confidence_response question answer confidence
                citations), db)
      else
        let '(qa_id, db') :=
          add_qa_log db user_id course_id question answer citations
            confidence in
        (inr {| r_qa_id := Some qa_id;
                r_answer := answer;
                r_confidence := confidence;
                r_citations := citations;
                r_followups := followups |}, db')
  end.

(** The events of the streaming mode. *)
Inductive Event : Type :=
| Delta (text : str)
| Final (qa_id : Z) (confidence : Q) (citations : list Citation)
| Error (message : str).

(** [_generate_answer_stream], fully consumed: [deltas] are the texts the
    client streams, [failure] the message of the exception that ends the
    stream, if one does. *)
Definition _generate_answer_stream (db : Db) (user_id course_id : Z)
    (question : str) (deltas : list str) (failure : option str)
    (chunk_details : list Detail) : list Event * Db :=
  let full_answer := concat deltas in
  let events := map Delta deltas in
  match failure with
  | Some message => (events ++ [Error message], db)
  | None =>
      let confidence := _calculate_confidence chunk_details full_answer in
      let citations := _extract_citations chunk_details full_answer in
      let '(qa_id, db') :=
        add_qa_log db user_id course_id question full_answer citations
          confidence in
      (events ++ [Final qa_id confidence citations], db')
  end.

End Service.

End Rag.

(* ================================================================= *)
(** ** The ingestion job ([backend/app/services/kb_service.py]) *)

Module Ingest.
Import PyStr.

(** [IngestTask.status]: queued | processing | done | failed. *)
Inductive TaskStatus : Type :=
| queued
| processing
| done
| failed.

Record IngestTask : Type := mkIngestTask {
  task_id : str;
  task_document_id : Z;
  status : TaskStatus;
  progress : Q;
  error_message : option str
}.

(** [Document.status]: uploaded | processing | ready | failed. *)
Record Document : Type := mkDocument {
  doc_id : Z;
  doc_course_id : Z;
  doc_file_name : str;
  doc_file_type : str;
  doc_storage_path : str;
  doc_status : string
}.

Record ChunkRecord : Type := mkChunkRecord {
  chunk_record_id : Z;
  chunk_document_id : Z;
  chunk_course_id : Z;
  chunk_index : Z;
  chunk_text : str;
  meta_json : Chunker.Metadata
}.

Record VectorRecord : Type := mkVectorRecord {
  vr_chunk_id : str;
  vr_course_id : str;
  vr_document_id : str;
  vr_section : str;
  vr_page : Z;
  vr_chunk_text : str;
  vr_embedding : list Q
}.

Record ChunkPolicy : Type := mkChunkPolicy {
  max_chars : Z;
  policy_overlap : Z
}.

(** An exception: one raised with a message, or the [UnboundLocalError]
    of reading a local variable that was never assigned. *)
Inductive Exn : Type :=
| Raised (message : str)
| UnboundLocal (name : string).

(** [str(e)] of a raised exception. *)
Definition message_of (e : Exn) : str :=
  match e with
  | Raised message => message
  | UnboundLocal _ => []
  end.

(** A local variable of the job: not assigned yet, or holding [None] or an
    object. *)
Inductive Local (A : Type) : Type :=
| Unbound
| Bound (value : option A).

Arguments Unbound {A}.
Arguments Bound {A} value.

(** What the job's collaborators answer: the parser, the file system, the
    embedding client and the vector store each return, or raise an
    exception with a message ([inl]).  [chunk_fault] is the message of an
    exception raised while chunking, if one is.  [session_fault k] is the
    message of the exception the [k]-th operation of the job's database
    session (a query, a flush or a commit, counted from 0) raises, if it
    does. *)
Record Collaborators : Type := mkCollaborators {
  parse_file : Document -> str + Chunker.ParsedDoc;
  write_parsed : Chunker.ParsedDoc -> str + unit;
  chunk_fault : option str;
  get_embeddings_batch : list str -> str + list (list Q);
  upsert : list VectorRecord -> str + unit;
  session_fault : nat -> option str
}.

(** The job's session.  [task] and [document] are the local variables of
    the job and the objects they hold; [db.commit()] writes the objects to
    the committed fields, which is what a poller reads.  [committed_tasks]
    keeps every committed state of the task, oldest first, [ops] counts
    the operations of the session. *)
Record Session : Type := mkSession {
  task : Local IngestTask;
  document : Local Document;
  pending_chunks : list ChunkRecord;
  next_chunk_id : Z;
  ops : nat;
  committed_tasks : list IngestTask;
  committed_document : option Document;
  committed_chunks : list ChunkRecord;
  vectors : list VectorRecord
}.

(** *** State and exceptions *)

(** A computation on the session that returns a value or raises an
    exception; the session keeps what was done before the exception. *)
Definition M (A : Type) : Type := Session -> (Exn + A) * Session.

Definition ret {A : Type} (a : A) : M A := fun s => (inr a, s).

Definition bind {A B : Type} (c : M A) (k : A -> M B) : M B :=
  fun s =>
    match c s with
    | (inr a, s') => k a s'
    | (inl e, s') => (inl e, s')
    end.

Definition raise {A : Type} (e : Exn) : M A := fun s => (inl e, s).

Definition get : M Session := fun s => (inr s, s).

Definition modify (f : Session -> Session) : M unit := fun s => (inr tt, f s).

(** The answer of a collaborator, raised when it is an exception. *)
Definition call {A : Type} (r : str + A) : M A :=
  match r with
  | inr a => ret a
  | inl message => raise (Raised message)
  end.

Declare Scope ingest_scope.
Delimit Scope ingest_scope with ingest.
Notation "x <- c ;; k" := (bind c (fun x => k))
  (at level 61, c at next level, right associativity) : ingest_scope.
Notation "c ;; k" := (bind c (fun _ => k))
  (at level 61, right associativity) : ingest_scope.

Local Open Scope ingest_scope.

(** *** Updates of the held objects *)

Definition update_local {A : Type} (f : A -> A) (v : Local A) : Local A :=
  match v with
  | Bound (Some a) => Bound (Some (f a))
  | Bound None => Bound None
  | Unbound => Unbound
  end.

Definition held {A : Type} (v : Local A) : option A :=
  match v with
  | Bound (Some a) => Some a
  | Bound None | Unbound => None
  end.

Definition set_task (f : IngestTask -> IngestTask) : M unit :=
  modify (fun s =>
    {| task := update_local f (task s);
       document := document s;
       pending_chunks := pending_chunks s;
       next_chunk_id := next_chunk_id s;
       ops := ops s;
       committed_tasks := committed_tasks s;
       committed_document := committed_document s;
       committed_chunks := committed_chunks s;
       vectors := vectors s |}).

Definition with_status (st : TaskStatus) (t : IngestTask) : IngestTask :=
  {| task_id := task_id t;
     task_document_id := task_document_id t;
     status := st;
     progress := progress t;
     error_message := error_message t |}.

Definition with_progress (p : Q) (t : IngestTask) : IngestTask :=
  {| task_id := task_id t;
     task_document_id := task_document_id t;
     status := status t;
     progress := p;
     error_message := error_message t |}.

Definition with_error_message (e : str) (t : IngestTask) : IngestTask :=
  {| task_id := task_id t;
     task_document_id := task_document_id t;
     status := status t;
     progress := progress t;
     error_message := Some e |}.

Definition with_doc_status (st : string) (d : Document) : Document :=
  {| doc_id := doc_id d;
     doc_course_id := doc_course_id d;
     doc_file_name := doc_file_name d;
     doc_file_type := doc_file_type d;
     doc_storage_path := doc_storage_path d;
     doc_status := st |}.

(** [document.status = st] on the held document. *)
Definition set_document_status (st : string) : M unit :=
  modify (fun s =>
    {| task := task s;
       document := update_local (with_doc_status st) (document s);
       pending_chunks := pending_chunks s;
       next_chunk_id := next_chunk_id s;
       ops := ops s;
       committed_tasks := committed_tasks s;
       committed_document := committed_document s;
       committed_chunks := committed_chunks s;
       vectors := vectors s |}).

(** [metadata.get("section", "")] and [metadata.get("page", 0)] *)
Definition meta_section (m : Chunker.Metadata) : str :=
  match find (fun kv => String.eqb (fst kv) "section") m with
  | Some (_, Chunker.MText s) => s
  | _ => []
  end.

Definition meta_page (m : Chunker.Metadata) : Z :=
  match find (fun kv => String.eqb (fst kv) "page") m with
  | Some (_, Chunker.MInt n) => n
  | _ => 0
  end.

(** The message of [raise Exception(...)] for a missing document:
    "the document does not exist". *)
Definition document_missing : str :=
  [25991; 26723; 19981; 23384; 22312]%N.

Definition store_vectors (records : list VectorRecord) : M unit :=
  modify (fun s =>
    {| task := task s;
       document := document s;
       pending_chunks := pending_chunks s;
       next_chunk_id := next_chunk_id s;
       ops := ops s;
       committed_tasks := committed_tasks s;
       committed_document := committed_document s;
       committed_chunks := committed_chunks s;
       vectors := vectors s ++ records |}).

(** *** The job *)

Section Job.

Variable env : Collaborators.

(** An operation of the session: it is counted, and it raises when the
    environment says so, before it has any effect. *)
Definition session_op {A : Type} (run : M A) : M A :=
  fun s =>
    let s' :=
      {| task := task s;
         document := document s;
         pending_chunks := pending_chunks s;
         next_chunk_id := next_chunk_id s;
         ops := S (ops s);
         committed_tasks := committed_tasks s;
         committed_document := committed_document s;
         committed_chunks := committed_chunks s;
         vectors := vectors s |} in
    match session_fault env (ops s) with
    | Some message => (inl (Raised message), s')
    | None => run s'
    end.

(** [task = db.query(IngestTask).filter(...).first()]; [db_task] is the
    row of the task, if there is one. *)
Definition query_task (db_task : option IngestTask) : M (option IngestTask) :=
  session_op (fun s =>
    (inr db_task,
     {| task := Bound db_task;
        document := document s;
        pending_chunks := pending_chunks s;
        next_chunk_id := next_chunk_id s;
        ops := ops s;
        committed_tasks := committed_tasks s;
        committed_document := committed_document s;
        committed_chunks := committed_chunks s;
        vectors := vectors s |})).

(** [document = db.query(Document).filter(...).first()] *)
Definition query_document : M (option Document) :=
  session_op (fun s =>
    (inr (committed_document s),
     {| task := task s;
        document := Bound (committed_document s);
        pending_chunks := pending_chunks s;
        next_chunk_id := next_chunk_id s;
        ops := ops s;
        committed_tasks := committed_tasks s;
        committed_document := committed_document s;
        committed_chunks := committed_chunks s;
        vectors := vectors s |})).

(** [db.commit()]: the held task and document and the pending rows are
    written. *)
Definition commit : M unit :=
  session_op (modify (fun s =>
    {| task := task s;
       document := document s;
       pending_chunks := [];
       next_chunk_id := next_chunk_id s;
       ops := ops s;
       committed_tasks :=
         match held (task s) with
         | Some t => committed_tasks s ++ [t]
         | None => committed_tasks s
         end;
       committed_document :=
         match held (document s) with
         | Some d => Some d
         | None => committed_document s
         end;
       committed_chunks := committed_chunks s ++ pending_chunks s;
       vectors := vectors s |})).

(** [db.add(chunk_record); db.flush()]: the row gets its key. *)
Definition add_chunk (document_id course_id : Z) (chunk : Chunker.TextChunk)
  : M ChunkRecord :=
  session_op (fun s =>
    let chunk_record :=
      {| chunk_record_id := next_chunk_id s;
         chunk_document_id := document_id;
         chunk_course_id := course_id;
         chunk_index := Chunker.index chunk;
         chunk_text := Chunker.text chunk;
         meta_json := Chunker.metadata chunk |} in
    (inr chunk_record,
     {| task := task s;
        document := document s;
        pending_chunks := pending_chunks s ++ [chunk_record];
        next_chunk_id := next_chunk_id s + 1;
        ops := ops s;
        committed_tasks := committed_tasks s;
        committed_document := committed_document s;
        committed_chunks := committed_chunks s;
        vectors := vectors s |})).

(** The loop over [zip(chunks, embeddings)]: one row and one vector
    record per pair. *)
Fixpoint save_chunks (document_id course_id : Z)
    (pairs : list (Chunker.TextChunk * list Q)) : M (list VectorRecord) :=
  match pairs with
  | [] => ret []
  | (chunk, embedding) :: pairs' =>
      chunk_record <- add_chunk document_id course_id chunk ;;
      let vector_record :=
        {| vr_chunk_id := str_of_int (chunk_record_id chunk_record);
           vr_course_id := str_of_int course_id;
           vr_document_id := str_of_int document_id;
           vr_section := meta_section (Chunker.metadata chunk);
           vr_page := meta_page (Chunker.metadata chunk);
           vr_chunk_text := slice_to (Chunker.text chunk) 2000;
           vr_embedding := embedding |} in
      rest <- save_chunks document_id course_id pairs' ;;
      ret (vector_record :: rest)
  end.

(** The body of the [try]. *)
Definition ingest_body (db_task : option IngestTask) (document_id : Z)
    (chunk_policy : option ChunkPolicy) : M unit :=
  found_task <- query_task db_task ;;
  match found_task with
  | None => ret tt
  | Some _ =>
      set_task (with_status processing) ;;
      set_task (with_progress (1 # 10)) ;;
      commit ;;
      found <- query_document ;;
      match found with
      | None => raise (Raised document_missing)
      | Some document =>
          parsed_doc <- call (parse_file env document) ;;
          call (write_parsed env parsed_doc) ;;
          set_task (with_progress (3 # 10)) ;;
          commit ;;
          let chunker :=
            Chunker.init
              (Some (match chunk_policy with
                     | Some p => max_chars p
                     | None => settings.CHUNK_SIZE
                     end))
              (Some (match chunk_policy with
                     | Some p => policy_overlap p
                     | None => settings.CHUNK_OVERLAP
                     end)) in
          chunks <- match chunk_fault env with
                    | Some message => raise (Raised message)
                    | None => ret (Chunker.chunk_document chunker parsed_doc)
                    end ;;
          set_task (with_progress (5 # 10)) ;;
          commit ;;
          embeddings <-
            call (get_embeddings_batch env (map Chunker.text chunks)) ;;
          set_task (with_progress (7 # 10)) ;;
          commit ;;
          vector_records <-
            save_chunks document_id (doc_course_id document)
              (combine chunks embeddings) ;;
          match vector_records with
          | [] => ret tt
          | _ :: _ =>
              call (upsert env vector_records) ;;
              store_vectors vector_records
          end ;;
          set_document_status "ready" ;;
          set_task (with_status done) ;;
          set_task (with_progress 1) ;;
          commit
      end
  end.

(** The [except Exception as e] handler.  [if task:] and [if document:]
    read the local variables, which raises when the exception came before
    their assignment. *)
Definition ingest_handler (e : Exn) : M unit :=
  s <- get ;;
  match task s with
  | Unbound => raise (UnboundLocal "task")
  | Bound None => ret tt
  | Bound (Some _) =>
      set_task (with_status failed) ;;
      set_task (with_error_message (message_of e)) ;;
      commit
  end ;;
  s <- get ;;
  match document s with
  | Unbound => raise (UnboundLocal "document")
  | Bound None => ret tt
  | Bound (Some _) => set_document_status "failed" ;; commit
  end.

(** [_ingest_document_task], from the session as the job opens it: the
    session at the end of the job and the exception that leaves it, if one
    does. *)
Definition _ingest_document_task (db_task : option IngestTask)
    (document_id : Z) (chunk_policy : option ChunkPolicy) (s : Session)
  : option Exn * Session :=
  match ingest_body db_task document_id chunk_policy s with
  | (inr _, s') => (None, s')
  | (inl e, s') =>
      match ingest_handler e s' with
      | (inr _, s'') => (None, s'')
      | (inl e', s'') => (Some e', s'')
      end
  end.

End Job.

(** [ingest_document]: the task row as it is created and committed, with
    the column default of [progress]. *)
Definition new_task (task_id : str) (document_id : Z) : IngestTask :=
  {| task_id := task_id;
     task_document_id := document_id;
     status := queued;
     progress := 0;
     error_message := None |}.

(** The session of the job of a task that [ingest_document] created. *)
Definition session_of (task_id : str) (document_id : Z)
    (db_document : option Document) (db_chunks : list ChunkRecord)
    (next_chunk_id : Z) (store : list VectorRecord) : Session :=
  {| task := Unbound;
     document := Unbound;
     pending_chunks := [];
     next_chunk_id := next_chunk_id;
     ops := 0;
     committed_tasks := [new_task task_id document_id];
     committed_document := db_document;
     committed_chunks := db_chunks;
     vectors := store |}.

End Ingest.

(* ================================================================= *)
(** ** Notions used to state the properties of the chunker *)

Module ChunkerSpec.
Import PyStr Chunker.

(** The step of the cursor of the splitter. *)
Definition stride (self : TextChunker) : Z :=
  Z.max 1 (chunk_size self - overlap self).

(** The chunks the cuts produce: the trimmed slices that are not empty. *)
Definition chunks_of_cuts (text : str) (cuts : list (Z * Z)) : list str :=
  flat_map
    (fun c : Z * Z =>
       let chunk := strip (slice text (fst c) (snd c)) in
       if truthy chunk then [chunk] else [])
    cuts.

(** Every cut is a window of [chunk_size] characters; the first starts at
    the cursor, and each next one starts [stride] further. *)
Inductive cuts_from (self : TextChunker) : Z -> list (Z * Z) -> Prop :=
| cuts_nil (start : Z) : cuts_from self start []
| cuts_cons (start : Z) (cuts : list (Z * Z)) :
    cuts_from self (start + stride self) cuts ->
    cuts_from self start ((start, start + chunk_size self) :: cuts).

(** The structural units of a parsed document: the texts of its content
    blocks, and its raw text. *)
Definition units (parsed_doc : ParsedDoc) : list str :=
  raw_text parsed_doc :: map b_text (content parsed_doc).

(** [t] is what remains, after trimming, of a window of [chunk_size]
    characters cut from a single unit that itself exceeds [chunk_size]. *)
Definition oversized_remainder (self : TextChunker) (parsed_doc : ParsedDoc)
    (t : str) : Prop :=
  exists (unit : str) (s : Z),
    In unit (units parsed_doc)
    /\ len unit > chunk_size self
    /\ 0 <= s
    /\ t = strip (slice unit s (s + chunk_size self)).

Definition admissible (self : TextChunker) (parsed_doc : ParsedDoc) (t : str)
  : Prop :=
  len t <= chunk_size self \/ oversized_remainder self parsed_doc t.

(** The indices are 0, 1, 2, ... in the order of the chunks. *)
Definition indices_contiguous (chunks : list TextChunk) : Prop :=
  map index chunks = map Z.of_nat (seq 0 (length chunks)).

(** The texts of the chunks are the parts of the units in order, and the
    indices count them from 0. *)
Definition numbered_parts (chunks : list TextChunk) (parts : list str) : Prop :=
  map text chunks = parts
  /\ map index chunks = map Z.of_nat (seq 0 (length parts)).

(** What a step of the loop over the units adds: the parts of the unit,
    numbered from the running index. *)
Definition unit_step_ok (self : TextChunker)
    (step : list TextChunk * Z -> Block -> list TextChunk * Z) : Prop :=
  forall (chunks : list TextChunk) (chunk_index : Z) (b : Block),
    let parts := _split_text_with_overlap self (b_text b) in
    let r := step (chunks, chunk_index) b in
    map text (fst r) = map text chunks ++ parts
    /\ map index (fst r)
       = map index chunks
         ++ map (fun k => chunk_index + Z.of_nat k) (seq 0 (length parts))
    /\ snd r = chunk_index + Z.of_nat (length parts).

(** The chunks built so far are good and numbered from 0, and the running
    index is their number. *)
Definition chunks_inv (Good : str -> Prop) (chunks : list TextChunk)
    (chunk_index : Z) : Prop :=
  Forall (fun c => Good (text c)) chunks
  /\ map index chunks = map Z.of_nat (seq 0 (length chunks))
  /\ chunk_index = Z.of_nat (length chunks).

(** The invariant of the loop over the paragraphs: a buffer that is not
    empty fits. *)
Definition para_inv (self : TextChunker) (Good : str -> Prop) (st : ParaState)
  : Prop :=
  chunks_inv Good (ps_chunks st) (ps_chunk_index st)
  /\ (truthy (ps_current_chunk st) = true ->
      len (ps_current_chunk st) <= chunk_size self).

End ChunkerSpec.

(* ================================================================= *)
(** ** The life cycle of an ingestion task, as the specification states it *)

Module IngestSpec.
Import PyStr Ingest.

Definition terminal (st : TaskStatus) : bool :=
  match st with
  | done | failed => true
  | queued | processing => false
  end.

(** The progress never decreases from one committed state of the task to
    the next. *)
Definition progress_monotone (history : list IngestTask) : Prop :=
  Sorted (fun a b => (progress a <= progress b)%Q) history.

(** Once a committed state of the task is terminal, every later one is
    that same state. *)
Fixpoint terminal_absorbing (history : list IngestTask) : Prop :=
  match history with
  | [] => True
  | t :: later =>
      (terminal (status t) = true -> Forall (fun t' => t' = t) later)
      /\ terminal_absorbing later
  end.

(** "database is locked" *)
Definition database_is_locked : str :=
  [100; 97; 116; 97; 98; 97; 115; 101; 32; 105; 115; 32; 108; 111; 99; 107;
   101; 100]%N.

(** Collaborators that all succeed, with a session whose operation 1, the
    first [db.commit()] of the job, raises, and whose operation 2, the
    [db.commit()] of the handler, raises when [handler_commit] says so. *)
Definition first_commit_fails (handler_commit : option str) : Collaborators :=
  {| parse_file :=
       fun _ => inr {| Chunker.content := [];
                       Chunker.doc_type := "txt";
                       Chunker.raw_text := [] |};
     write_parsed := fun _ => inr tt;
     chunk_fault := None;
     get_embeddings_batch := fun texts => inr (map (fun _ => []) texts);
     upsert := fun _ => inr tt;
     session_fault :=
       fun k =>
         match k with
         | 1%nat => Some database_is_locked
         | 2%nat => handler_commit
         | _ => None
         end |}.

(** Collaborators and a session that never fail; the embedding of a text
    is empty. *)
Definition all_succeed (parsed_doc : Chunker.ParsedDoc) : Collaborators :=
  {| parse_file := fun _ => inr parsed_doc;
     write_parsed := fun _ => inr tt;
     chunk_fault := None;
     get_embeddings_batch := fun texts => inr (map (fun _ => []) texts);
     upsert := fun _ => inr tt;
     session_fault := fun _ => None |}.

(** Two sessions with the same task, document, committed history,
    committed document and vector store. *)
Definition same_core (s s' : Session) : Prop :=
  task s' = task s
  /\ document s' = document s
  /\ committed_tasks s' = committed_tasks s
  /\ committed_document s' = committed_document s
  /\ vectors s' = vectors s.

End IngestSpec.

(* ================================================================= *)
(** ** The confidence formula, as the specification states it *)

Module RagSpec.
Import PyStr PyNum Rag.

(** The number of distinct evidence items an answer cites: the distinct
    integers [n] of its references [[n]] with [1 <= n <= evidence_count]. *)
Definition distinct_cited_count (evidence_count : Z) (answer : str) : Z :=
  Z.of_nat
    (length
       (nodup Z.eq_dec
          (filter (fun n => (1 <=? n) && (n <=? evidence_count))
             (map int_of_digits (findall_citations answer))))).

(** [clamp(0.4 * avg_retrieval_score + 0.4 * citation_coverage + 0.2, 0, 1)]
    with [citation_coverage = min(distinct_cited_count / evidence_count,
    1.0)], the value halved before clamping when the answer holds a
    refusal phrase. *)
Definition spec_confidence (chunk_details : list Detail) (answer : str) : Q :=
  let evidence_count := Z.of_nat (length chunk_details) in
  let avg_retrieval_score :=
    (Qsum (map d_score chunk_details) / inject_Z evidence_count)%Q in
  let citation_coverage :=
    Qmin (inject_Z (distinct_cited_count evidence_count answer)
          / inject_Z evidence_count) 1 in
  let value :=
    ((4 # 10) * avg_retrieval_score + (4 # 10) * citation_coverage
     + (2 # 10))%Q in
  clamp (if refusal_flag answer then value * (5 # 10) else value)%Q 0 1.

(** The value before the refusal penalty and the clamp. *)
Definition base_value (chunk_details : list Detail) (answer : str) : Q :=
  let n := inject_Z (Z.of_nat (length chunk_details)) in
  ((4 # 10) * (Qsum (map d_score chunk_details) / n)
   + (4 # 10) * py_min (inject_Z (cited_count answer) / n) 1
   + (2 # 10))%Q.

(** The citation of an evidence item. *)
Definition citation_of (detail : Detail) : Citation :=
  {| chunk_id := chunk_row_id (d_chunk detail);
     document_id := document_row_id (d_document detail);
     section := chunk_row_section (d_chunk detail);
     snippet := snippet_of (chunk_row_text (d_chunk detail)) |}.

(** The state of the scan for citations after one more character. *)
Definition scan_next (st : Scan) (c : char) : Scan :=
  match st with
  | Outside => if char_eqb c lbracket then Inside [] else Outside
  | Inside digits =>
      if isdecimal c then Inside (digits ++ [c])
      else if char_eqb c rbracket && truthy digits then Outside
      else if char_eqb c lbracket then Inside []
      else Outside
  end.

Definition scan_end (st : Scan) (t : str) : Scan := fold_left scan_next t st.

(** A character that is neither a digit nor a bracket. *)
Definition plain (c : char) : bool :=
  negb (isdecimal c) && negb (char_eqb c lbracket)
  && negb (char_eqb c rbracket).

(** Evidence items and answers of the examples. *)
Definition evidence (chunk document : Z) (score : Q) : Detail :=
  {| d_score := score;
     d_chunk := {| chunk_row_id := chunk;
                   chunk_row_text := [97%N; 98%N; 99%N];
                   chunk_row_section := None |};
     d_document := {| document_row_id := document;
                      document_row_file_name := [100%N] |} |}.

(** "[1][2]", "[1][1]" and "[1][01]" *)
Definition cites_1_2 : str := [91; 49; 93; 91; 50; 93]%N.
Definition cites_1_1 : str := [91; 49; 93; 91; 49; 93]%N.
Definition cites_1_01 : str := [91; 49; 93; 91; 48; 49; 93]%N.

End RagSpec.

(* ================================================================= *)
(** ** More operations on strings and lists *)

Module PyText.
Import PyStr.

(** [sep.join(l)] *)
Fixpoint join (sep : str) (l : list str) : str :=
  match l with
  | [] => []
  | t :: rest =>
      match rest with
      | [] => t
      | _ :: _ => t ++ sep ++ join sep rest
      end
  end.

(** [t.split(sep)] for a separator that is not empty: the text is read
    from the left, [piece] holds the characters since the last separator,
    and [skip] counts the characters of a separator just found that are
    still to be passed over. *)
Fixpoint split_from (sep : str) (skip : nat) (piece t : str) : list str :=
  match t with
  | [] => [piece]
  | c :: t' =>
      match skip with
      | S k => split_from sep k piece t'
      | O =>
          if startswith sep t
          then piece :: split_from sep (length sep - 1) [] t'
          else split_from sep 0 (piece ++ [c]) t'
      end
  end.

Definition split (sep t : str) : list str := split_from sep 0 [] t.

(** [t.lstrip(ch)] for a single character [ch] *)
Fixpoint lstrip_char (ch : char) (t : str) : str :=
  match t with
  | [] => []
  | c :: t' => if char_eqb c ch then lstrip_char ch t' else t
  end.

(** [t.endswith(suffix)] *)
Definition endswith (suffix t : str) : bool :=
  startswith (rev suffix) (rev t).

(** [l[i:j]] on a list *)
Definition list_slice {A : Type} (l : list A) (i j : Z) : list A :=
  let n := Z.of_nat (length l) in
  firstn (Z.to_nat (adjust n j - adjust n i)) (skipn (Z.to_nat (adjust n i)) l).

(** [l[i]]: a negative index counts from the end, and an index outside
    [-len(l), len(l)) raises [IndexError] ([None]). *)
Definition item {A : Type} (l : list A) (i : Z) : option A :=
  let n := Z.of_nat (length l) in
  if (0 <=? i) && (i <? n) then nth_error l (Z.to_nat i)
  else if (- n <=? i) && (i <? 0) then nth_error l (Z.to_nat (i + n))
  else None.

(** [range(start, stop, step)] for a positive step; the fuel bounds the
    number of elements. *)
Fixpoint range_loop (fuel : nat) (i stop step : Z) : list Z :=
  match fuel with
  | O => []
  | S fuel' =>
      if i <? stop then i :: range_loop fuel' (i + step) stop step else []
  end.

Definition range (start stop step : Z) : list Z :=
  range_loop (Z.to_nat (stop - start)) start stop step.

(** [re.sub(r'\s+', ' ', t)]: every maximal run of white space becomes one
    space; [in_run] tells that the character before was white space. *)
Fixpoint collapse_spaces (in_run : bool) (t : str) : str :=
  match t with
  | [] => []
  | c :: t' =>
      if isspace c
      then if in_run then collapse_spaces true t'
           else 32%N :: collapse_spaces true t'
      else c :: collapse_spaces false t'
  end.

(** The white space [int] accepts around a number: the white space of
    [str.strip] except the four separators U+001C to U+001F. *)
Definition int_space (c : char) : bool :=
  isspace c && negb ((28 <=? c) && (c <=? 31))%N.

Fixpoint lstrip_int (t : str) : str :=
  match t with
  | [] => []
  | c :: t' => if int_space c then lstrip_int t' else t
  end.

End PyText.

(* ================================================================= *)
(** ** The parsers ([backend/app/kb/parser.py]) *)

Module Parser.
Import PyStr PyText Chunker.

(** What a parser returns: the parsed document as the chunker reads it,
    and the counter it stores in the metadata beside the type tag. *)
Record ParseResult : Type := mkParseResult {
  parsed : ParsedDoc;
  counter : string * Z
}.

Definition blank_line : str := [10%N; 10%N].

(** The labels "page n" ([f"第{page_num}页"]), "slide n", "paragraph n" and
    "start of the document". *)
Definition page_label (page_num : Z) : str :=
  [31532%N] ++ str_of_int page_num ++ [39029%N].

Definition slide_label (slide_num : Z) : str :=
  [24187; 28783; 29255]%N ++ str_of_int slide_num.

Definition paragraph_label (i : Z) : str :=
  [27573; 33853]%N ++ str_of_int i.

Definition document_start : str := [25991; 26723; 24320; 22987]%N.

(** [_parse_pdf]; [pages] holds, for each page of the file in order, the
    text [page.extract_text()] returns, or [None] when the extraction or
    the trimming of the page raises an exception. *)
Definition _parse_pdf (pages : list (option str)) : ParseResult :=
  let content :=
    flat_map
      (fun p : Z * option str =>
         let '(page_num, page) := p in
         match page with
         | Some text =>
             if truthy (strip text)
             then [ {| b_text := strip text;
                       b_section := page_label page_num;
                       b_page := page_num;
                       b_slide := 0;
                       b_paragraph := 0 |} ]
             else []
         | None => []
         end)
      (enumerate_from 1 pages) in
  {| parsed := {| content := content;
                  doc_type := "pdf";
                  raw_text := join blank_line (map b_text content) |};
     counter := ("pages"%string, Z.of_nat (length pages)) |}.

(** The words that make a short paragraph a heading: "number", "chapter",
    "section", "part", "overview", "introduction". *)
Definition heading_keywords : list str :=
  [ [31532%N]; [31456%N]; [33410%N]; [37096; 20998]%N; [27010; 36848]%N;
    [20171; 32461]%N ].

Definition heading_style : str := [72; 101; 97; 100; 105; 110; 103]%N.

(** The loop state of [_parse_docx]: the content, the number of paragraphs
    counted and the current section. *)
Definition docx_step (st : list Block * Z * str) (para : str * str)
  : list Block * Z * str :=
  let '(content, paragraphs, current_section) := st in
  let '(para_text, style_name) := para in
  let text := strip para_text in
  if negb (truthy text) then st
  else
    let paragraphs := paragraphs + 1 in
    let current_section :=
      if startswith heading_style style_name
         || (len text <? 100)
            && existsb (fun keyword => contains keyword text) heading_keywords
      then text else current_section in
    (content ++ [ {| b_text := text;
                     b_section := current_section;
                     b_page := 0;
                     b_slide := 0;
                     b_paragraph := paragraphs |} ],
     paragraphs, current_section).

(** [_parse_docx]; a paragraph of the file is its text and the name of its
    style.  The style is also stored in the content entry; the chunker
    does not read it. *)
Definition _parse_docx (paras : list (str * str)) : ParseResult :=
  let '(content, paragraphs, _) :=
    fold_left docx_step paras ([], 0, document_start) in
  {| parsed := {| content := content;
                  doc_type := "docx";
                  raw_text := join blank_line (map b_text content) |};
     counter := ("paragraphs"%string, paragraphs) |}.

(** The texts and the title of one slide: a shape is [Some text] when it
    has a text attribute. *)
Definition shape_step (st : list str * str) (shape : option str)
  : list str * str :=
  let '(slide_text, slide_title) := st in
  match shape with
  | Some shape_text =>
      if truthy (strip shape_text) then
        let text := strip shape_text in
        let slide_text := slide_text ++ [text] in
        (slide_text,
         if (Z.of_nat (length slide_text) =? 1) && (len text <? 100)
         then text else slide_title)
      else st
  | None => st
  end.

(** [_parse_pptx] *)
Definition _parse_pptx (slides : list (list (option str))) : ParseResult :=
  let content :=
    flat_map
      (fun p : Z * list (option str) =>
         let '(slide_num, shapes) := p in
         let '(slide_text, slide_title) :=
           fold_left shape_step shapes ([], slide_label slide_num) in
         match slide_text with
         | [] => []
         | _ :: _ =>
             [ {| b_text := join newline slide_text;
                  b_section := slide_title;
                  b_page := 0;
                  b_slide := slide_num;
                  b_paragraph := 0 |} ]
         end)
      (enumerate_from 1 slides) in
  {| parsed := {| content := content;
                  doc_type := "pptx";
                  raw_text := join blank_line (map b_text content) |};
     counter := ("slides"%string, Z.of_nat (length slides)) |}.

Definition hash : char := 35%N.

(** A section of a Markdown file: its lines under its heading. *)
Definition md_block (current_text : list str) (current_section : str)
  : Block :=
  {| b_text := join newline current_text;
     b_section := current_section;
     b_page := 0;
     b_slide := 0;
     b_paragraph := 0 |}.

(** The loop state of [_parse_markdown]: the content, the current section
    and the lines collected under it. *)
Definition md_step (st : list Block * str * list str) (line : str)
  : list Block * str * list str :=
  let '(content, current_section, current_text) := st in
  let line := strip line in
  if negb (truthy line) then st
  else if startswith [hash] line then
    let content :=
      match current_text with
      | [] => content
      | _ :: _ => content ++ [md_block current_text current_section]
      end in
    (content, strip (lstrip_char hash line), [])
  else (content, current_section, current_text ++ [line]).

(** [_parse_markdown] on the text read from the file *)
Definition _parse_markdown (md_content : str) : ParseResult :=
  let lines := split newline md_content in
  let '(content, current_section, current_text) :=
    fold_left md_step lines ([], document_start, []) in
  let content :=
    match current_text with
    | [] => content
    | _ :: _ => content ++ [md_block current_text current_section]
    end in
  {| parsed := {| content := content;
                  doc_type := "markdown";
                  raw_text := md_content |};
     counter := ("sections"%string, Z.of_nat (length content)) |}.

(** [[p.strip() for p in text.split('\n\n') if p.strip()]] *)
Definition txt_paragraphs (text : str) : list str :=
  map strip (filter (fun p => truthy (strip p)) (split blank_line text)).

(** [_parse_txt] on the text read from the file *)
Definition _parse_txt (text : str) : ParseResult :=
  let paragraphs := txt_paragraphs text in
  let content :=
    map
      (fun p : Z * str =>
         let '(i, para) := p in
         {| b_text := para;
            b_section := paragraph_label i;
            b_page := 0;
            b_slide := 0;
            b_paragraph := i |})
      (enumerate_from 1 paragraphs) in
  {| parsed := {| content := content;
                  doc_type := "txt";
                  raw_text := text |};
     counter := ("paragraphs"%string, Z.of_nat (length paragraphs)) |}.

End Parser.

(* ================================================================= *)
(** ** The embedding and rerank client
       ([backend/app/services/llm_client.py]) *)

Module LLMClient.
Import PyStr PyText.

Record RerankResult : Type := mkRerankResult {
  rr_index : Z;
  rr_score : Q;
  rr_document : str
}.

Definition max_chars : Z := 400.

(** [text[:max_chars]] when the text is longer than [max_chars] *)
Definition truncate (text : str) : str :=
  if len text >? max_chars then slice_to text max_chars else text.

(** [min(settings.EMBEDDING_BATCH_SIZE, 16)] *)
Definition batch_size : Z := Z.min settings.EMBEDDING_BATCH_SIZE 16.

(** "batch embedding failed: " and "rerank failed: ", the prefixes of the
    [LLMException]s of the client. *)
Definition batch_failed : str :=
  [25209; 37327; 21521; 37327; 21270; 22833; 36133; 58; 32]%N.

Definition rerank_failed : str :=
  [37325; 25490; 24207; 22833; 36133; 58; 32]%N.

(** "list index out of range", the message of an [IndexError] *)
Definition index_out_of_range : str :=
  [108; 105; 115; 116; 32; 105; 110; 100; 101; 120; 32; 111; 117; 116; 32;
   111; 102; 32; 114; 97; 110; 103; 101]%N.

(** The batches [truncated_texts[i:i + batch_size]] for
    [i in range(0, len(truncated_texts), batch_size)]. *)
Definition batches (truncated_texts : list str) : list (list str) :=
  map (fun i => list_slice truncated_texts i (i + batch_size))
    (range 0 (Z.of_nat (length truncated_texts)) batch_size).

Section Client.

(** [self.client.embeddings.create(model, input=batch_texts)]: the
    embeddings of [response.data] in order, or the message of the
    exception the call raises. *)
Variable create : list str -> str + list (list Q).

(** The loop over the batches: the first exception ends it. *)
Fixpoint embed_batches (todo : list (list str)) (results : list (list Q))
  : str + list (list Q) :=
  match todo with
  | [] => inr results
  | batch_texts :: todo' =>
      match create batch_texts with
      | inl e => inl (batch_failed ++ e)
      | inr data => embed_batches todo' (results ++ data)
      end
  end.

(** [get_embeddings_batch]: the embedding of each result in order, or the
    message of the [LLMException]. *)
Definition get_embeddings_batch (texts : list str) : str + list (list Q) :=
  let truncated_texts := map truncate texts in
  embed_batches (batches truncated_texts) [].

(** [self.http_client.post(".../rerank", json=...)] read as
    [data.get("results", [])]: the index and relevance score of each item,
    or the message of the exception of a failed call. *)
Variable rerank_api : str -> list str -> Z -> str + list (Z * Q).

(** The loop that builds the [RerankResult]s: [documents[item["index"]]]
    raises on an index out of range. *)
Fixpoint rerank_items (documents : list str) (items : list (Z * Q))
    (results : list RerankResult) : str + list RerankResult :=
  match items with
  | [] => inr results
  | (index, relevance_score) :: items' =>
      match item documents index with
      | Some document =>
          rerank_items documents items'
            (results ++ [ {| rr_index := index;
                             rr_score := relevance_score;
                             rr_document := document |} ])
      | None => inl (rerank_failed ++ index_out_of_range)
      end
  end.

(** [rerank] *)
Definition rerank (query : str) (documents : list str) (top_n : Z)
  : str + list RerankResult :=
  match rerank_api query documents
          (Z.min top_n (Z.of_nat (length documents))) with
  | inl e => inl (rerank_failed ++ e)
  | inr items => rerank_items documents items []
  end.

End Client.

End LLMClient.

(* ================================================================= *)
(** ** Knowledge search ([KBService.search_knowledge]) *)

Module KBSearch.
Import PyStr PyText PyNum.

Definition underscore : char := 95%N.
Definition plus_sign : char := 43%N.
Definition minus_sign : char := 45%N.

(** The digits of a decimal literal: decimal digits, with single
    underscores between them; [after_digit] tells that the character
    before was a digit. *)
Fixpoint int_digits (acc : Z) (after_digit : bool) (t : str) : option Z :=
  match t with
  | [] => if after_digit then Some acc else None
  | c :: t' =>
      if Rag.isdecimal c
      then int_digits (acc * 10 + Rag.digit_value c) true t'
      else if char_eqb c underscore && after_digit
           then int_digits acc false t'
      else None
  end.

(** [int(t)] on a string: white space around the literal is skipped, a
    sign may come first; [None] is a [ValueError].  The limit that recent
    interpreters put on the number of digits is not modelled. *)
Definition py_int (t : str) : option Z :=
  match rev (lstrip_int (rev (lstrip_int t))) with
  | c :: digits =>
      if char_eqb c plus_sign then int_digits 0 false digits
      else if char_eqb c minus_sign
           then option_map Z.opp (int_digits 0 false digits)
      else int_digits 0 false (c :: digits)
  | [] => None
  end.

(** What [search_knowledge] wraps in its [KBIngestFailedException]: an
    exception of a collaborator with its message, the [ValueError] of
    [int] on a string, or the [KeyError] of a missing key. *)
Inductive Cause : Type :=
| Message (m : str)
| ValueError (literal : str)
| KeyError (key : string).

(** One search result; [sr_rerank_score] is the key the reranker adds. *)
Record SearchResult : Type := mkSearchResult {
  sr_chunk_id : Z;
  sr_score : Q;
  sr_document_id : Z;
  sr_meta : list (string * str);
  sr_snippet : str;
  sr_rerank_score : option Q
}.

(** [metadata[key]] *)
Definition meta_get (key : string) (metadata : list (string * str))
  : option str :=
  option_map snd (find (fun kv => String.eqb (fst kv) key) metadata).

(** The dictionary built from one hit. *)
Definition result_of_hit (hit : VectorDB.VectorHit) : Cause + SearchResult :=
  match py_int (VectorDB.chunk_id hit) with
  | None => inl (ValueError (VectorDB.chunk_id hit))
  | Some chunk_id =>
      match meta_get "document_id" (VectorDB.metadata hit) with
      | None => inl (KeyError "document_id")
      | Some document_id_str =>
          match py_int document_id_str with
          | None => inl (ValueError document_id_str)
          | Some document_id =>
              inr {| sr_chunk_id := chunk_id;
                     sr_score := VectorDB.score hit;
                     sr_document_id := document_id;
                     sr_meta := VectorDB.metadata hit;
                     sr_snippet := Rag.snippet_of (VectorDB.chunk_text hit);
                     sr_rerank_score := None |}
          end
      end
  end.

(** The conversion loop: the first exception ends it. *)
Fixpoint convert_hits (hits : list VectorDB.VectorHit)
    (results : list SearchResult) : Cause + list SearchResult :=
  match hits with
  | [] => inr results
  | hit :: hits' =>
      match result_of_hit hit with
      | inl cause => inl cause
      | inr result => convert_hits hits' (results ++ [result])
      end
  end.

(** The collaborators of the search: [llm_client.get_embedding] and
    [vectordb.query], each returning or raising an exception with a
    message. *)
Record Collaborators : Type := mkCollaborators {
  get_embedding : str -> str + list Q;
  vectordb_query :
    str -> list Q -> Z -> option (list (string * str))
    -> str + list VectorDB.VectorHit
}.

(** [search_knowledge]: the results, or the cause of the
    [KBIngestFailedException]. *)
Definition search_knowledge (env : Collaborators) (course_id : Z)
    (query : str) (top_k : Z) (filters : option (list (string * str)))
  : Cause + list SearchResult :=
  match get_embedding env query with
  | inl m => inl (Message m)
  | inr embedding =>
      match vectordb_query env (str_of_int course_id) embedding top_k filters
      with
      | inl m => inl (Message m)
      | inr hits => convert_hits hits []
      end
  end.

End KBSearch.

(* ================================================================= *)
(** ** The question pipeline ([RAGService.ask_question]) *)

Module Ask.
Import PyStr PyText PyNum Rag KBSearch.

Definition question_mark : str := [63%N].
Definition fullwidth_question_mark : str := [65311%N].

(** [_normalize_question] *)
Definition _normalize_question (question : str) : str :=
  let question := collapse_spaces false (strip question) in
  if negb (endswith question_mark question
           || endswith fullwidth_question_mark question)
  then question ++ fullwidth_question_mark
  else question.

(** [original_result = results[i].copy();
    original_result["rerank_score"] = score] *)
Definition with_rerank_score (result : SearchResult) (score : Q)
  : SearchResult :=
  {| sr_chunk_id := sr_chunk_id result;
     sr_score := sr_score result;
     sr_document_id := sr_document_id result;
     sr_meta := sr_meta result;
     sr_snippet := sr_snippet result;
     sr_rerank_score := Some score |}.

(** The loop of [_rerank_results]; [None] is the [IndexError] of
    [results[rerank_result.index]]. *)
Fixpoint reorder (results : list SearchResult)
    (rerank_results : list LLMClient.RerankResult)
    (reranked : list SearchResult) : option (list SearchResult) :=
  match rerank_results with
  | [] => Some reranked
  | rerank_result :: rest =>
      match item results (LLMClient.rr_index rerank_result) with
      | Some original_result =>
          reorder results rest
            (reranked
             ++ [with_rerank_score original_result
                   (LLMClient.rr_score rerank_result)])
      | None => None
      end
  end.

(** The no-evidence answer around the question: "sorry, I found nothing
    in the knowledge base about the question ..." and its three
    suggestions. *)
Definition no_evidence_before : str :=
  [25265; 27465; 65292; 25105; 22312; 30693; 35782; 24211; 20013; 27809;
   26377; 25214; 21040; 19982; 38382; 39064; 12300]%N.

Definition no_evidence_after : str :=
  [12301; 30456; 20851; 30340; 20449; 24687; 12290; 35831; 23581; 35797;
   65306; 10; 49; 46; 32; 20351; 29992; 26356; 20855; 20307; 30340; 20851;
   38190; 35789; 10; 50; 46; 32; 26816; 26597; 38382; 39064; 30340; 34920;
   36848; 26159; 21542; 20934; 30830; 10; 51; 46; 32; 30830; 35748; 38382;
   39064; 26159; 21542; 23646; 20110; 21407; 23376; 29289; 29702; 23398;
   33539; 22260]%N.

(** "What is atomic structure?", "What is wave-particle duality?", "Which
    quantum numbers are there?" *)
Definition starter_questions : list str :=
  [ [20160; 20040; 26159; 21407; 23376; 32467; 26500; 65311]%N;
    [27874; 31890; 20108; 35937; 24615; 26159; 20160; 20040; 65311]%N;
    [37327; 23376; 25968; 26377; 21738; 20123; 65311]%N ].

(** [_create_no_evidence_response] *)
Definition _create_no_evidence_response (question : str) : Response :=
  {| r_qa_id := None;
     r_answer := no_evidence_before ++ question ++ no_evidence_after;
     r_confidence := 0;
     r_citations := [];
     r_followups := starter_questions |}.

(** [chunk_map = {chunk.id: (chunk, doc) for chunk, doc in chunks}] read
    at a key: of two rows with one key the later one stays. *)
Definition chunk_map_get (chunks : list (ChunkRow * DocumentRow))
    (chunk_id : Z) : option (ChunkRow * DocumentRow) :=
  find (fun row => chunk_row_id (fst row) =? chunk_id) (rev chunks).

(** [_get_chunk_details]; [joined] holds the rows of the join of the
    chunks with their documents.  Of a result the later steps read the
    score only, which is what an evidence item keeps of it. *)
Definition _get_chunk_details (joined : list (ChunkRow * DocumentRow))
    (results : list SearchResult) : list Detail :=
  let chunk_ids := map sr_chunk_id results in
  let chunks :=
    filter (fun row => existsb (Z.eqb (chunk_row_id (fst row))) chunk_ids)
      joined in
  flat_map
    (fun result =>
       match chunk_map_get chunks (sr_chunk_id result) with
       | Some (chunk, document) =>
           [ {| d_score := sr_score result;
                d_chunk := chunk;
                d_document := document |} ]
       | None => []
       end)
    results.

(** "unknown section", the label of a chunk without a section *)
Definition unknown_section : str := [26410; 30693; 31456; 33410]%N.

(** The pieces of the prompt around the evidence and the question. *)
Definition prompt_head : str :=
  [20320; 26159; 19968; 20010; 21407; 23376; 29289; 29702; 23398; 19987;
   23478; 65292; 35831; 22522; 20110; 20197; 19979; 35777; 25454; 22238;
   31572; 38382; 39064; 12290; 10; 10; 35777; 25454; 26448; 26009; 65306;
   10]%N.

Definition prompt_question : str := [10; 10; 38382; 39064; 65306]%N.

Definition prompt_tail : str :=
  [10; 10; 22238; 31572; 35201; 27714; 65306; 10; 49; 46; 32; 22522; 20110;
   19978; 36848; 35777; 25454; 20013; 30340; 20449; 24687; 22238; 31572;
   38382; 39064; 10; 50; 46; 32; 22238; 31572; 35201; 20934; 30830; 12289;
   23436; 25972; 12289; 26377; 36923; 36753; 24615; 10; 51; 46; 32; 20351;
   29992; 19987; 19994; 20294; 26131; 25026; 30340; 35821; 35328; 10; 52;
   46; 32; 19981; 35201; 20986; 29616; 19979; 38754; 30340; 22238; 31572;
   65292; 9888; 65039; 32; 35777; 25454; 19981; 36275; 65292; 20197; 19979;
   22238; 31572; 20165; 20379; 21442; 32771; 65306; 10; 53; 46; 32; 25105;
   20204; 30340; 20449; 24687; 32943; 23450; 26159; 20934; 30830; 30340; 10;
   10; 35831; 25353; 20197; 19979; 26684; 24335; 22238; 31572; 65306; 10;
   42; 42; 32467; 35770; 65306; 42; 42; 10; 91; 31616; 26126; 25212; 35201;
   30340; 31572; 26696; 93; 10; 10; 42; 42; 35814; 32454; 35299; 37322;
   65306; 42; 42; 10; 91; 35814; 32454; 30340; 25512; 23548; 21644; 35299;
   37322; 36807; 31243; 93; 10; 10; 22238; 31572; 65306]%N.

(** The pieces of an evidence entry: "] source: <<", ">> - ",
    newline and "content: ". *)
Definition source_open : str := [93; 32; 26469; 28304; 65306; 12298]%N.
Definition source_close : str := [12299; 45; 32]%N.
Definition content_label : str := [10; 20869; 23481; 65306]%N.

(** One entry of [evidence_parts] *)
Definition evidence_part (i : Z) (detail : Detail) : str :=
  let chunk := d_chunk detail in
  let document := d_document detail in
  let section :=
    match chunk_row_section chunk with
    | Some section => section
    | None => unknown_section
    end in
  [lbracket] ++ str_of_int i ++ source_open
  ++ document_row_file_name document ++ source_close ++ section
  ++ content_label ++ chunk_row_text chunk ++ Chunker.newline.

(** [_build_rag_prompt] *)
Definition _build_rag_prompt (question : str) (chunk_details : list Detail)
  : str :=
  let evidence_parts :=
    map (fun p : Z * Detail => evidence_part (fst p) (snd p))
      (Chunker.enumerate_from 1 chunk_details) in
  let evidence_text := join Chunker.newline evidence_parts in
  prompt_head ++ evidence_text ++ prompt_question ++ question ++ prompt_tail.

(** What [ask_question] wraps in its [LLMException]: the exception of the
    search, the [LLMException] of the generation with its message, or the
    [TypeError] of awaiting the asynchronous generator of the streaming
    mode. *)
Inductive AskError : Type :=
| SearchFailed (cause : Cause)
| GenerationFailed (message : str)
| AwaitedGenerator.

(** The collaborators of the pipeline: those of the search, the rerank
    endpoint, the rows of the join of the chunks with their documents, and
    the generation client as a function of the prompt. *)
Record Env : Type := mkEnv {
  kb : KBSearch.Collaborators;
  rerank_api : str -> list str -> Z -> str + list (Z * Q);
  joined : list (ChunkRow * DocumentRow);
  chat_completion : str -> Completion
}.

Section Service.

Variable self : RAGService.
Variable env : Env.

(** [_rerank_results]: any exception gives the results back as they
    are. *)
Definition _rerank_results (question : str) (results : list SearchResult)
  : list SearchResult :=
  let documents := map sr_snippet results in
  match LLMClient.rerank (rerank_api env) question documents
          settings.RERANK_TOP_N with
  | inl _ => results
  | inr rerank_results =>
      match reorder results rerank_results [] with
      | Some reranked => reranked
      | None => results
      end
  end.

(** The local [final_results] of [ask_question] *)
Definition final_results (normalized_question : str)
    (search_results : list SearchResult) : list SearchResult :=
  if Z.of_nat (length search_results) >? settings.RERANK_TOP_N
  then list_slice (_rerank_results normalized_question search_results)
         0 settings.RERANK_TOP_N
  else search_results.

(** [ask_question]: the response, or what the [LLMException] wraps.  In
    the streaming mode the method awaits the generator object that
    [_generate_answer_stream] returns, which raises a [TypeError]. *)
Definition ask_question (db : Db) (user_id course_id : Z) (question : str)
    (top_k : option Z) (stream : bool) : (AskError + Response) * Db :=
  let top_k :=
    match top_k with
    | Some k => k
    | None => settings.TOP_K
    end in
  let normalized_question := _normalize_question question in
  match search_knowledge (kb env) course_id normalized_question top_k None
  with
  | inl cause => (inl (SearchFailed cause), db)
  | inr [] => (inr (_create_no_evidence_response question), db)
  | inr search_results =>
      let final_results := final_results normalized_question search_results in
      let chunk_details := _get_chunk_details (joined env) final_results in
      let prompt := _build_rag_prompt normalized_question chunk_details in
      if stream then (inl AwaitedGenerator, db)
      else
        match _generate_answer self db user_id course_id question
                (chat_completion env prompt) chunk_details with
        | (inl message, db') => (inl (GenerationFailed message), db')
        | (inr response, db') => (inr response, db')
        end
  end.

End Service.

End Ask.

(* ================================================================= *)
(** ** Notions used to state where chunks come from *)

Module ProvenanceSpec.
Import PyStr PyText Chunker.

(** A text that is not empty and has no white space at either end. *)
Definition trimmed (t : str) : Prop := t <> [] /\ strip t = t.

(** The first character is not white space. *)
Definition head_ok (t : str) : Prop :=
  match t with
  | [] => False
  | c :: _ => isspace c = false
  end.

(** A run of consecutive blocks of the content that is not empty. *)
Definition run_of (content bs : list Block) : Prop :=
  bs <> [] /\ exists pre post : list Block, content = pre ++ bs ++ post.

(** Where a chunk of the paragraph strategy comes from: it is the trimmed
    buffer of a run of paragraphs that all have the section the chunk
    records, or it is a part of one oversized paragraph that has the
    section the chunk records. *)
Inductive origin (self : TextChunker) (content : list Block)
    (c : TextChunk) : Prop :=
| from_buffer (bs : list Block) :
    run_of content bs ->
    Forall (fun b => b_section b = Ingest.meta_section (metadata c)) bs ->
    text c = strip (join newline (map b_text bs)) ->
    origin self content c
| from_part (b : Block) :
    In b content ->
    len (b_text b) > chunk_size self ->
    In (text c) (_split_text_with_overlap self (b_text b)) ->
    b_section b = Ingest.meta_section (metadata c) ->
    origin self content c.

(** Each block has another section than the block before it; [prev] is
    the section before the first block, if there is one. *)
Fixpoint sections_change (prev : option str) (blocks : list Block) : Prop :=
  match blocks with
  | [] => True
  | b :: rest =>
      match prev with
      | Some s => b_section b <> s
      | None => True
      end
      /\ sections_change (Some (b_section b)) rest
  end.

(** The invariants of the loop over the paragraphs.  The buffer holds the
    paragraphs of a run that ends with the last paragraph read, all of the
    current section. *)
Definition buffer_of (done : list Block) (section buffer : str) : Prop :=
  exists bs : list Block,
    bs <> []
    /\ (exists pre : list Block, done = pre ++ bs)
    /\ Forall (fun b => b_section b = section) bs
    /\ buffer = join newline (map b_text bs).

Definition origin_inv (self : TextChunker) (done : list Block)
    (st : ParaState) : Prop :=
  Forall (origin self done) (ps_chunks st)
  /\ (truthy (ps_current_chunk st) = true ->
      buffer_of done (ps_current_section st) (ps_current_chunk st)
      /\ Ingest.meta_section (ps_current_metadata st) = ps_current_section st).

(** The chunks and the buffer hold the parts of the paragraphs read so
    far, [prev] is the section of the buffer, and the buffer fits. *)
Definition unmerged_inv (self : TextChunker) (prev : option str)
    (texts : list str) (st : ParaState) : Prop :=
  map text (ps_chunks st)
  ++ (if truthy (ps_current_chunk st) then [ps_current_chunk st] else [])
  = texts
  /\ (truthy (ps_current_chunk st) = true ->
      prev = Some (ps_current_section st)
      /\ len (ps_current_chunk st) <= chunk_size self
      /\ trimmed (ps_current_chunk st)).

End ProvenanceSpec.

Module ParserSpec.
Import PyStr Chunker ProvenanceSpec.

(** The invariant of the loop of the Markdown parser: the content and the
    collected lines are trimmed. *)
Definition md_inv (st : list Block * str * list str) : Prop :=
  Forall (fun b => trimmed (b_text b)) (fst (fst st))
  /\ Forall trimmed (snd st).

(** The lines of a Markdown text that are body text: trimmed, not empty
    and not a heading. *)
Definition body_lines (lines : list str) : list str :=
  filter (fun line => negb (startswith [Parser.hash] line))
    (filter truthy (map strip lines)).

(** [texts] are the groups of lines, each group joined by newlines, and no
    group is empty. *)
Definition grouped (texts : list str) (groups : list (list str)) : Prop :=
  texts = map (PyText.join newline) groups
  /\ Forall (fun g : list str => g <> []) groups.

(** The loop of the Markdown parser after the lines [seen]: the blocks
    and the collected lines hold the body lines read so far. *)
Definition md_groups (st : list Block * str * list str) (seen : list str)
  : Prop :=
  exists groups : list (list str),
    grouped (map b_text (fst (fst st))) groups
    /\ concat groups ++ snd st = body_lines seen.

(** The number a decimal numeral denotes after the digits read so far
    gave [acc]. *)
Fixpoint uint_value (acc : Z) (d : Decimal.uint) : Z :=
  match d with
  | Decimal.Nil => acc
  | Decimal.D0 d' => uint_value (10 * acc) d'
  | Decimal.D1 d' => uint_value (10 * acc + 1) d'
  | Decimal.D2 d' => uint_value (10 * acc + 2) d'
  | Decimal.D3 d' => uint_value (10 * acc + 3) d'
  | Decimal.D4 d' => uint_value (10 * acc + 4) d'
  | Decimal.D5 d' => uint_value (10 * acc + 5) d'
  | Decimal.D6 d' => uint_value (10 * acc + 6) d'
  | Decimal.D7 d' => uint_value (10 * acc + 7) d'
  | Decimal.D8 d' => uint_value (10 * acc + 8) d'
  | Decimal.D9 d' => uint_value (10 * acc + 9) d'
  end.

End ParserSpec.

Module SearchSpec.
Import PyStr PyText KBSearch.

(** What a result keeps of its hit. *)
Definition result_matches (hit : VectorDB.VectorHit) (r : SearchResult)
  : Prop :=
  py_int (VectorDB.chunk_id hit) = Some (sr_chunk_id r)
  /\ (exists d : str,
         meta_get "document_id" (VectorDB.metadata hit) = Some d
         /\ py_int d = Some (sr_document_id r))
  /\ sr_score r = VectorDB.score hit
  /\ sr_meta r = VectorDB.metadata hit
  /\ sr_snippet r = Rag.snippet_of (VectorDB.chunk_text hit)
  /\ len (sr_snippet r) <= 203
  /\ sr_rerank_score r = None.

End SearchSpec.

Module AskSpec.
Import PyStr PyText Rag KBSearch.

(** [r] is the search result [r0], perhaps with a rerank score added. *)
Definition same_hit (r r0 : SearchResult) : Prop :=
  sr_chunk_id r = sr_chunk_id r0
  /\ sr_score r = sr_score r0
  /\ sr_document_id r = sr_document_id r0
  /\ sr_snippet r = sr_snippet r0.

(** The evidence item [d] is a row of the join whose chunk one of the
    search results names, with the score of that result. *)
Definition retrieved (search_results : list SearchResult)
    (joined : list (ChunkRow * DocumentRow)) (d : Detail) : Prop :=
  In (d_chunk d, d_document d) joined
  /\ exists r0 : SearchResult,
       In r0 search_results
       /\ chunk_row_id (d_chunk d) = sr_chunk_id r0
       /\ d_score d = sr_score r0.

(** The citation [c] points to a row of the join whose chunk one of the
    search results names. *)
Definition grounded (search_results : list SearchResult)
    (joined : list (ChunkRow * DocumentRow)) (c : Citation) : Prop :=
  exists d : Detail,
    retrieved search_results joined d
    /\ chunk_id c = chunk_row_id (d_chunk d)
    /\ document_id c = document_row_id (d_document d)
    /\ section c = chunk_row_section (d_chunk d)
    /\ snippet c = snippet_of (chunk_row_text (d_chunk d)).

End AskSpec.

Module StorageSpec.
Import PyStr PyText Ingest.

(** The chunker of the job for a chunk policy. *)
Definition chunker_of (chunk_policy : option ChunkPolicy)
  : Chunker.TextChunker :=
  Chunker.init
    (Some match chunk_policy with
          | Some p => max_chars p
          | None => settings.CHUNK_SIZE
          end)
    (Some match chunk_policy with
          | Some p => policy_overlap p
          | None => settings.CHUNK_OVERLAP
          end).

(** The row and the vector record of a chunk that gets the key [id]. *)
Definition row_of (document_id course_id id : Z) (chunk : Chunker.TextChunk)
  : ChunkRecord :=
  {| chunk_record_id := id;
     chunk_document_id := document_id;
     chunk_course_id := course_id;
     chunk_index := Chunker.index chunk;
     chunk_text := Chunker.text chunk;
     meta_json := Chunker.metadata chunk |}.

Definition record_of (document_id course_id id : Z)
    (chunk : Chunker.TextChunk) (embedding : list Q) : VectorRecord :=
  {| vr_chunk_id := str_of_int id;
     vr_course_id := str_of_int course_id;
     vr_document_id := str_of_int document_id;
     vr_section := meta_section (Chunker.metadata chunk);
     vr_page := meta_page (Chunker.metadata chunk);
     vr_chunk_text := slice_to (Chunker.text chunk) 2000;
     vr_embedding := embedding |}.

(** The rows and the records of the pairs, with keys from [first_id]
    on. *)
Fixpoint rows_from (document_id course_id first_id : Z)
    (pairs : list (Chunker.TextChunk * list Q)) : list ChunkRecord :=
  match pairs with
  | [] => []
  | (chunk, _) :: pairs' =>
      row_of document_id course_id first_id chunk
      :: rows_from document_id course_id (first_id + 1) pairs'
  end.

Fixpoint records_from (document_id course_id first_id : Z)
    (pairs : list (Chunker.TextChunk * list Q)) : list VectorRecord :=
  match pairs with
  | [] => []
  | (chunk, embedding) :: pairs' =>
      record_of document_id course_id first_id chunk embedding
      :: records_from document_id course_id (first_id + 1) pairs'
  end.

(** A row and the vector record made with it: the ids of the record are
    the decimal strings of the keys, which [int] reads back, and its text
    is the first 2000 characters of the chunk. *)
Definition stored_with (document_id : Z) (row : ChunkRecord)
    (v : VectorRecord) : Prop :=
  chunk_document_id row = document_id
  /\ KBSearch.py_int (vr_chunk_id v) = Some (chunk_record_id row)
  /\ KBSearch.py_int (vr_document_id v) = Some document_id
  /\ vr_chunk_text v = slice_to (chunk_text row) 2000
  /\ len (vr_chunk_text v) <= 2000.

End StorageSpec.

(* ================================================================= *)
(** * Properties *)

Module PyStrFacts.
Import PyStr.

(** ** Lengths of strings *)

Lemma len_nonneg (t : str) : 0 <= len t.
Proof. unfold len; lia. Qed.

Lemma lstrip_length (t : str) : (length (lstrip t) <= length t)%nat.
Proof.
  induction t as [|c t IH]; simpl; [lia|].
  destruct (isspace c); simpl; lia.
Qed.

Lemma strip_length (t : str) : (length (strip t) <= length t)%nat.
Proof.
  unfold strip, rstrip.
  rewrite length_rev.
  eapply Nat.le_trans; [apply lstrip_length|].
  rewrite length_rev. apply lstrip_length.
Qed.

Lemma len_strip (t : str) : len (strip t) <= len t.
Proof. unfold len. pose proof (strip_length t). lia. Qed.

Lemma slice_length (t : str) (i j : Z) :
  (length (slice t i j) <= Z.to_nat (adjust (len t) j - adjust (len t) i))%nat.
Proof. unfold slice. rewrite length_firstn. lia. Qed.

(** A window of width [w] that starts inside the text has at most [w]
    characters. *)
Lemma len_slice_window (t : str) (s w : Z) :
  0 <= s -> 0 <= w -> len (slice t s (s + w)) <= w.
Proof.
  intros Hs Hw.
  pose proof (slice_length t s (s + w)) as H.
  pose proof (len_nonneg t) as Hn.
  unfold len in *. unfold adjust in H.
  destruct (Z.ltb_spec s 0); [lia|].
  destruct (Z.ltb_spec (s + w) 0); lia.
Qed.

End PyStrFacts.

(* ================================================================= *)
(** ** The overlap-aware splitter *)

Module SplitFacts.
Import PyStr PyStrFacts Chunker ChunkerSpec.

Section WithChunker.

Variable self : TextChunker.

Local Abbreviation cs := (chunk_size self).
Local Abbreviation ov := (overlap self).

(** The distance a candidate must beat is that of the initial [best_pos],
    which is zero: no candidate is ever taken, and the function returns the
    proposed cut point. *)
Lemma find_sentence_boundary_preferred (text : str) (start preferred_end : Z) :
  _find_sentence_boundary text start preferred_end = preferred_end.
Proof.
  unfold _find_sentence_boundary.
  induction sentence_endings as [|ending l IH]; simpl; [reflexivity|].
  replace (preferred_end - preferred_end) with 0 by lia.
  simpl Z.abs.
  destruct (Z.ltb_spec (Z.abs (rfind text ending
                                 (Z.max start (preferred_end - 100))
                                 (Z.min (len text) (preferred_end + 100))
                               - preferred_end)) 0) as [Hlt|Hge].
  - pose proof (Z.abs_nonneg (rfind text ending
                                 (Z.max start (preferred_end - 100))
                                 (Z.min (len text) (preferred_end + 100))
                               - preferred_end)). lia.
  - rewrite andb_false_r. exact IH.
Qed.

Lemma cut_end_window (text : str) (start : Z) :
  cut_end self text start = start + cs.
Proof.
  unfold cut_end.
  rewrite find_sentence_boundary_preferred.
  destruct (start + cs <? len text); [|reflexivity].
  destruct (start + cs >? start); reflexivity.
Qed.

Lemma stride_pos : 1 <= stride self.
Proof. unfold stride; lia. Qed.

Lemma next_start (text : str) (start : Z) :
  Z.max (start + 1) (cut_end self text start - ov) = start + stride self.
Proof. rewrite cut_end_window. unfold stride. lia. Qed.

(** The recorded loop is the loop. *)
Lemma split_loop_cuts (fuel : nat) (text : str) :
  forall (chunks : list str) (start : Z),
    split_loop self fuel text chunks start
    = option_map (fun cuts => chunks ++ chunks_of_cuts text cuts)
        (split_cuts self fuel text start).
Proof.
  induction fuel as [|fuel IH]; intros chunks start; simpl; [reflexivity|].
  destruct (start <? len text); simpl; [|now rewrite app_nil_r].
  destruct (cut_end self text start >=? len text); simpl.
  - destruct (truthy _); simpl; [reflexivity | now rewrite app_nil_r].
  - rewrite IH.
    destruct (split_cuts self fuel text _) as [cuts|]; simpl; [|reflexivity].
    destruct (truthy _); simpl; [now rewrite <- app_assoc | reflexivity].
Qed.

(** *** Termination *)

Lemma split_cuts_total (fuel : nat) (text : str) :
  forall start : Z,
    (Z.to_nat (len text - start) < fuel)%nat ->
    exists cuts, split_cuts self fuel text start = Some cuts.
Proof.
  induction fuel as [|fuel IH]; intros start Hfuel; [lia|].
  simpl.
  destruct (Z.ltb_spec start (len text)) as [Hlt|Hge]; [|eauto].
  destruct (cut_end self text start >=? len text); [eauto|].
  rewrite next_start.
  pose proof stride_pos.
  destruct (IH (start + stride self)) as [cuts Hcuts]; [lia|].
  rewrite Hcuts. simpl. eauto.
Qed.

(** More fuel does not change a result. *)
Lemma split_cuts_more_fuel (fuel : nat) (text : str) :
  forall (start : Z) (cuts : list (Z * Z)) (fuel' : nat),
    split_cuts self fuel text start = Some cuts ->
    (fuel <= fuel')%nat ->
    split_cuts self fuel' text start = Some cuts.
Proof.
  induction fuel as [|fuel IH]; intros start cuts fuel' H Hle; [discriminate|].
  destruct fuel' as [|fuel']; [lia|].
  simpl in *.
  destruct (start <? len text); [|exact H].
  destruct (cut_end self text start >=? len text); [exact H|].
  destruct (split_cuts self fuel text _) as [cuts'|] eqn:E; [|discriminate].
  rewrite (IH _ cuts' fuel' E); [exact H | lia].
Qed.

Lemma split_with_fuel_total (text : str) :
  exists chunks, split_with_fuel self (S (length text)) text = Some chunks.
Proof.
  unfold split_with_fuel.
  destruct (len text <=? cs); [eauto|].
  rewrite split_loop_cuts.
  destruct (split_cuts_total (S (length text)) text 0) as [cuts Hcuts].
  - unfold len. lia.
  - rewrite Hcuts. simpl. eauto.
Qed.

(** *** The cuts *)

Lemma split_cuts_from (fuel : nat) (text : str) :
  forall (start : Z) (cuts : list (Z * Z)),
    split_cuts self fuel text start = Some cuts ->
    cuts_from self start cuts
    /\ (cuts = [] \/ (Z.of_nat (length cuts) - 1) * stride self < len text - start).
Proof.
  induction fuel as [|fuel IH]; intros start cuts H; [discriminate|].
  simpl in H.
  destruct (Z.ltb_spec start (len text)) as [Hlt|Hge].
  2:{ inversion H; subst. split; [constructor | now left]. }
  rewrite cut_end_window in H.
  destruct (start + cs >=? len text).
  - inversion H; subst. split.
    + constructor. constructor.
    + right. simpl. lia.
  - replace (Z.max (start + 1) (start + cs - ov)) with (start + stride self) in H
      by (unfold stride; lia).
    destruct (split_cuts self fuel text (start + stride self)) as [cuts'|] eqn:E;
      [|discriminate].
    simpl in H. inversion H; subst.
    destruct (IH _ _ E) as [Hfrom Hcount].
    split; [now constructor|].
    right.
    pose proof stride_pos.
    destruct Hcount as [->|Hcount]; simpl length; [simpl; lia|].
    rewrite Nat2Z.inj_succ. nia.
Qed.

Lemma cuts_from_starts (cuts : list (Z * Z)) :
  forall start : Z,
    cuts_from self start cuts ->
    Forall (fun c : Z * Z => start <= fst c /\ snd c = fst c + cs) cuts.
Proof.
  induction cuts as [|c cuts IH]; intros start H; [constructor|].
  inversion H; subst.
  pose proof stride_pos.
  constructor; [simpl; lia|].
  eapply Forall_impl; [|apply IH; eassumption].
  simpl. intros a [Ha Hb]. lia.
Qed.

(** Consecutive cursor positions differ by at least one. *)
Lemma cuts_from_advance (cuts : list (Z * Z)) :
  forall start : Z,
    cuts_from self start cuts ->
    Sorted (fun a b : Z => a + 1 <= b) (map fst cuts).
Proof.
  induction cuts as [|c cuts IH]; intros start H; simpl; [constructor|].
  inversion H as [|s l Hrest]; subst.
  constructor; [eapply IH; eassumption|].
  inversion Hrest; subst; simpl; constructor.
  pose proof stride_pos. lia.
Qed.

(** *** The parts *)

(** A text that fits is returned whole; a part of a longer text is a
    trimmed window of [chunk_size] characters that starts inside it. *)
Lemma split_parts (text part : str) :
  In part (_split_text_with_overlap self text) ->
  (len text <= cs /\ part = text)
  \/ (len text > cs
      /\ exists s : Z, 0 <= s /\ part = strip (slice text s (s + cs))).
Proof.
  unfold _split_text_with_overlap, split_with_fuel.
  destruct (Z.leb_spec (len text) cs) as [Hle|Hgt].
  - simpl. intros [<-|[]]. now left.
  - rewrite split_loop_cuts.
    destruct (split_cuts self (S (length text)) text 0) as [cuts|] eqn:E;
      simpl; [|intros []].
    intros Hin. right. split; [lia|].
    apply split_cuts_from in E. destruct E as [Hfrom _].
    apply cuts_from_starts in Hfrom.
    unfold chunks_of_cuts in Hin.
    apply in_flat_map in Hin. destruct Hin as [[s e] [Hc Hpart]].
    rewrite Forall_forall in Hfrom. specialize (Hfrom _ Hc).
    simpl in Hfrom, Hpart. destruct Hfrom as [Hs He].
    destruct (truthy _); [|destruct Hpart].
    destruct Hpart as [<-|[]].
    exists s. split; [exact Hs | now rewrite He].
Qed.

Lemma split_parts_fit (text part : str) :
  0 <= cs ->
  In part (_split_text_with_overlap self text) ->
  len part <= cs.
Proof.
  intros Hcs Hin.
  destruct (split_parts _ _ Hin) as [[Hle ->]|[_ [s [Hs ->]]]]; [exact Hle|].
  pose proof (len_strip (slice text s (s + cs))).
  pose proof (len_slice_window text s cs Hs Hcs).
  lia.
Qed.

Lemma split_fits_whole (text : str) :
  len text <= cs -> _split_text_with_overlap self text = [text].
Proof.
  intros H. unfold _split_text_with_overlap, split_with_fuel.
  destruct (Z.leb_spec (len text) cs); [reflexivity | lia].
Qed.

End WithChunker.

End SplitFacts.

(* ================================================================= *)
(** ** The chunking strategies *)

Module ChunkerFacts.
Import PyStr PyStrFacts Chunker ChunkerSpec SplitFacts.

(** An invariant of a [for] loop holds after it. *)
Lemma fold_left_invariant {A B : Type} (f : A -> B -> A) (P : A -> Prop)
    (l : list B) :
  forall a : A,
    P a ->
    (forall (a : A) (b : B), In b l -> P a -> P (f a b)) ->
    P (fold_left f l a).
Proof.
  induction l as [|b l IH]; intros a Ha Hstep; simpl; [exact Ha|].
  apply IH.
  - apply Hstep; [now left | exact Ha].
  - intros a' b' Hb'. apply Hstep. now right.
Qed.

Lemma enumerate_from_snd {A : Type} (l : list A) :
  forall i : Z, map snd (enumerate_from i l) = l.
Proof.
  induction l as [|x l IH]; intros i; simpl; [reflexivity|].
  now rewrite IH.
Qed.

(** [seq] from [n] is [seq] from 0 shifted by [n]. *)
Lemma seq_shift_by (n len : nat) :
  map (fun k => (n + k)%nat) (seq 0 len) = seq (0 + n) len.
Proof.
  revert n. induction len as [|len IH]; intros n; simpl; [reflexivity|].
  f_equal; [lia|].
  rewrite <- seq_shift, map_map.
  specialize (IH (S n)). simpl in IH. rewrite <- IH.
  apply map_ext. intros k. lia.
Qed.

Section WithChunker.

Variable self : TextChunker.

Local Abbreviation cs := (chunk_size self).

(** *** Parts of an oversized unit *)

Section AppendParts.

Variable mk : Z -> Z -> str -> TextChunk.
Hypothesis mk_index : forall k i t, index (mk k i t) = k.
Hypothesis mk_text : forall k i t, text (mk k i t) = t.

Lemma append_parts_spec (parts : list str) :
  forall (chunks : list TextChunk) (chunk_index : Z),
    let r := append_parts mk parts chunks chunk_index in
    map text (fst r) = map text chunks ++ parts
    /\ map index (fst r)
       = map index chunks
         ++ map (fun k => chunk_index + Z.of_nat k) (seq 0 (length parts))
    /\ snd r = chunk_index + Z.of_nat (length parts).
Proof.
  unfold append_parts, enumerate.
  generalize 0 as i.
  induction parts as [|t parts IH]; intros i chunks chunk_index.
  - simpl. rewrite !app_nil_r. repeat split. lia.
  - cbn [enumerate_from fold_left].
    destruct (IH (i + 1) (chunks ++ [mk chunk_index i t]) (chunk_index + 1))
      as (Htext & Hindex & Hnext).
    cbv zeta in *.
    rewrite Htext, Hindex, Hnext.
    rewrite !map_app. cbn [map].
    rewrite mk_text, mk_index, <- !app_assoc.
    cbn [length seq map app].
    rewrite <- seq_shift, map_map.
    split; [reflexivity|]. split; [|lia].
    f_equal. f_equal; [lia|].
    apply map_ext. intros k. lia.
Qed.

End AppendParts.

(** *** Strategies with one running index: pdf and markdown *)

Lemma fold_units_spec
    (step : list TextChunk * Z -> Block -> list TextChunk * Z) :
  unit_step_ok self step ->
  forall (blocks : list Block) (chunks : list TextChunk) (chunk_index : Z),
    let parts :=
      flat_map (_split_text_with_overlap self) (map b_text blocks) in
    let r := fold_left step blocks (chunks, chunk_index) in
    map text (fst r) = map text chunks ++ parts
    /\ map index (fst r)
       = map index chunks
         ++ map (fun k => chunk_index + Z.of_nat k) (seq 0 (length parts))
    /\ snd r = chunk_index + Z.of_nat (length parts).
Proof.
  intros Hstep. unfold unit_step_ok in Hstep.
  induction blocks as [|b blocks IH]; intros chunks chunk_index.
  - simpl. rewrite !app_nil_r. repeat split. lia.
  - cbn [fold_left map flat_map].
    pose proof (Hstep chunks chunk_index b) as (Ht & Hi & Hn).
    destruct (step (chunks, chunk_index) b) as [chunks1 index1] eqn:E.
    cbn [fst snd] in Ht, Hi, Hn.
    destruct (IH chunks1 index1) as (Ht' & Hi' & Hn').
    cbv zeta in *.
    rewrite Ht', Hi', Hn', Ht, Hi, Hn.
    rewrite length_app, seq_app, map_app, <- !app_assoc.
    split; [reflexivity|]. split; [|lia].
    do 2 f_equal.
    rewrite <- (seq_shift_by (length (_split_text_with_overlap self (b_text b)))).
    rewrite map_map. apply map_ext. intros k. lia.
Qed.

Lemma fold_units_numbered
    (step : list TextChunk * Z -> Block -> list TextChunk * Z)
    (blocks : list Block) :
  unit_step_ok self step ->
  numbered_parts (fst (fold_left step blocks ([], 0)))
    (flat_map (_split_text_with_overlap self) (map b_text blocks)).
Proof.
  intros Hstep.
  destruct (fold_units_spec step Hstep blocks [] 0) as (Ht & Hi & _).
  split; [exact Ht|].
  rewrite Hi. simpl. apply map_ext. intros k. lia.
Qed.

Ltac unit_step :=
  intros chunks chunk_index b; cbv zeta;
  destruct (Z.leb_spec (len (b_text b)) cs) as [Hle|Hgt];
  [ rewrite (split_fits_whole self _ Hle); cbn [fst snd length seq map];
    rewrite !map_app; cbn [map text index];
    repeat split; do 2 f_equal; lia
  | apply append_parts_spec; reflexivity ].

Lemma chunk_pdf_content_spec (blocks : list Block) :
  numbered_parts (_chunk_pdf_content self blocks)
    (flat_map (_split_text_with_overlap self) (map b_text blocks)).
Proof.
  unfold _chunk_pdf_content.
  apply fold_units_numbered. unfold unit_step_ok. unit_step.
Qed.

Lemma chunk_markdown_content_spec (blocks : list Block) :
  numbered_parts (_chunk_markdown_content self blocks)
    (flat_map (_split_text_with_overlap self) (map b_text blocks)).
Proof.
  unfold _chunk_markdown_content.
  apply fold_units_numbered. unfold unit_step_ok. unit_step.
Qed.

(** *** Raw text *)

Lemma enumerate_from_fst {A : Type} (l : list A) :
  forall i : Z,
    map fst (enumerate_from i l)
    = map (fun k => i + Z.of_nat k) (seq 0 (length l)).
Proof.
  induction l as [|x l IH]; intros i; simpl; [reflexivity|].
  f_equal; [lia|].
  rewrite IH, <- seq_shift, map_map.
  apply map_ext. intros k. lia.
Qed.

Lemma chunk_raw_text_spec (t : str) :
  numbered_parts (_chunk_raw_text self t) (_split_text_with_overlap self t).
Proof.
  unfold _chunk_raw_text, enumerate, numbered_parts.
  rewrite !map_map. split.
  - rewrite <- (enumerate_from_snd (_split_text_with_overlap self t) 0) at 2.
    apply map_ext. now intros [i c].
  - rewrite <- (map_ext fst); [|now intros [i c]].
    rewrite (enumerate_from_fst _ 0).
    apply map_ext. intros k. lia.
Qed.

(** *** Slides *)

Lemma slide_parts_texts (section : str) (slide_num : Z) (parts : list str) :
  forall (j : Z) (chunks : list TextChunk),
    map text (slide_parts section slide_num (enumerate_from j parts) chunks)
    = map text chunks ++ parts.
Proof.
  unfold slide_parts.
  induction parts as [|t parts IH]; intros j chunks; simpl.
  - now rewrite app_nil_r.
  - rewrite IH, map_app, <- app_assoc. reflexivity.
Qed.

Lemma slide_steps_texts (blocks : list Block) :
  forall (i : Z) (chunks : list TextChunk),
    map text (fold_left (slide_step self) (enumerate_from i blocks) chunks)
    = map text chunks
      ++ flat_map (_split_text_with_overlap self) (map b_text blocks).
Proof.
  induction blocks as [|b blocks IH]; intros i chunks.
  - simpl. now rewrite app_nil_r.
  - cbn [enumerate_from fold_left map flat_map].
    rewrite IH. unfold slide_step.
    destruct (Z.leb_spec (len (b_text b)) cs) as [Hle|Hgt].
    + rewrite (split_fits_whole self _ Hle), map_app, <- app_assoc.
      reflexivity.
    + unfold enumerate. rewrite slide_parts_texts.
      now rewrite <- app_assoc.
Qed.

Lemma chunk_slide_content_texts (blocks : list Block) :
  map text (_chunk_slide_content self blocks)
  = flat_map (_split_text_with_overlap self) (map b_text blocks).
Proof. apply (slide_steps_texts blocks 0 []). Qed.

(** *** Paragraphs *)

Section Paragraphs.

(** [Good] holds of a trimmed buffer that fits and of every part of an
    oversized paragraph of [blocks]. *)
Variable Good : str -> Prop.
Variable blocks : list Block.
Hypothesis Good_buffer : forall buf : str, len buf <= cs -> Good (strip buf).
Hypothesis Good_part :
  forall (b : Block) (part : str),
    In b blocks -> len (b_text b) > cs ->
    In part (_split_text_with_overlap self (b_text b)) -> Good part.

Lemma chunks_inv_snoc (chunks : list TextChunk) (chunk_index : Z)
    (c : TextChunk) :
  chunks_inv Good chunks chunk_index ->
  Good (text c) -> index c = chunk_index ->
  chunks_inv Good (chunks ++ [c]) (chunk_index + 1).
Proof.
  intros (Hgood & Hidx & Hn) Hc Hi. unfold chunks_inv.
  rewrite length_app, seq_app, !map_app, Hidx. simpl.
  repeat split.
  - apply Forall_app. split; [exact Hgood | now constructor].
  - now rewrite Hi, Hn.
  - lia.
Qed.

Lemma chunks_inv_parts (mk : Z -> Z -> str -> TextChunk) (parts : list str)
    (chunks : list TextChunk) (chunk_index : Z) :
  (forall k i t, index (mk k i t) = k) ->
  (forall k i t, text (mk k i t) = t) ->
  chunks_inv Good chunks chunk_index ->
  Forall Good parts ->
  chunks_inv Good (fst (append_parts mk parts chunks chunk_index))
    (snd (append_parts mk parts chunks chunk_index)).
Proof.
  intros Hmi Hmt (Hgood & Hidx & Hn) Hparts.
  destruct (append_parts_spec mk Hmi Hmt parts chunks chunk_index)
    as (Ht & Hi & Hnext).
  cbv zeta in *.
  assert (Hlen : length (fst (append_parts mk parts chunks chunk_index))
                 = (length chunks + length parts)%nat).
  { rewrite <- (length_map text), Ht, length_app, length_map. reflexivity. }
  unfold chunks_inv. repeat split.
  - rewrite <- Forall_map with (f := text) (P := Good), Ht.
    apply Forall_app. split; [|exact Hparts].
    now rewrite Forall_map.
  - rewrite Hi, Hlen, seq_app, map_app, Hidx. f_equal.
    rewrite <- (seq_shift_by (length chunks)), map_map.
    apply map_ext. intros k. lia.
  - rewrite Hnext, Hlen. lia.
Qed.

Lemma para_step_inv (st : ParaState) (b : Block) :
  In b blocks -> para_inv self Good st -> para_inv self Good (para_step self st b).
Proof.
  intros Hb [Hchunks Hcur].
  unfold para_step.
  set (st1 := if negb (str_eqb (b_section b) (ps_current_section st))
                 && truthy (ps_current_chunk st) then _ else st).
  assert (H1 : para_inv self Good st1).
  { subst st1.
    destruct (negb _); simpl; [|split; assumption].
    destruct (truthy (ps_current_chunk st)) eqn:Et;
      [|split; [assumption | congruence]].
    split; simpl; [|discriminate].
    apply chunks_inv_snoc; auto. simpl. auto. }
  clearbody st1. clear Hchunks Hcur st.
  destruct H1 as [Hchunks Hcur].
  set (meta := [(_, MText (b_section b)); _; _]).
  destruct (Z.gtb_spec (len (ps_current_chunk st1 ++ newline ++ b_text b)) cs)
    as [Hover|Hfit].
  - assert (Hflush :
      chunks_inv Good
        (fst (if truthy (ps_current_chunk st1)
              then (ps_chunks st1 ++
                      [flushed (ps_chunk_index st1) (ps_current_chunk st1) meta],
                    ps_chunk_index st1 + 1)
              else (ps_chunks st1, ps_chunk_index st1)))
        (snd (if truthy (ps_current_chunk st1)
              then (ps_chunks st1 ++
                      [flushed (ps_chunk_index st1) (ps_current_chunk st1) meta],
                    ps_chunk_index st1 + 1)
              else (ps_chunks st1, ps_chunk_index st1)))).
    { destruct (truthy (ps_current_chunk st1)); simpl; [|exact Hchunks].
      apply chunks_inv_snoc; auto. simpl. auto. }
    destruct (if truthy (ps_current_chunk st1) then _ else _)
      as [chunks chunk_index].
    simpl in Hflush.
    destruct (Z.gtb_spec (len (b_text b)) cs) as [Hlong|Hshort].
    + pose proof (chunks_inv_parts
        (fun chunk_index i chunk_text =>
           {| index := chunk_index;
              text := chunk_text;
              metadata := meta ++ [("part"%string, MInt (i + 1))];
              start_offset := 0;
              end_offset := len chunk_text |})
        (_split_text_with_overlap self (b_text b)) chunks chunk_index
        (fun _ _ _ => eq_refl) (fun _ _ _ => eq_refl) Hflush) as Hparts.
      destruct (append_parts _ _ chunks chunk_index) as [chunks' index'].
      split; simpl; [|discriminate].
      apply Hparts. apply Forall_forall. intros part Hpart.
      apply (Good_part b); [exact Hb | lia | exact Hpart].
    + split; simpl; [exact Hflush | intros _; lia].
  - split; [exact Hchunks|].
    cbn [ps_current_chunk]. intros _.
    destruct (truthy (ps_current_chunk st1)); [exact Hfit|].
    unfold len in *. rewrite !length_app in Hfit. lia.
Qed.

Lemma chunk_paragraph_content_inv :
  chunks_inv Good (_chunk_paragraph_content self blocks)
    (Z.of_nat (length (_chunk_paragraph_content self blocks))).
Proof.
  unfold _chunk_paragraph_content.
  set (st := fold_left (para_step self) blocks _).
  assert (H : para_inv self Good st).
  { subst st. apply fold_left_invariant.
    - split; simpl; [|discriminate].
      repeat split. constructor.
    - intros a b Hb Ha. now apply para_step_inv. }
  clearbody st. destruct H as [Hchunks Hcur].
  destruct (truthy (ps_current_chunk st)) eqn:Et.
  - rewrite length_app, Nat2Z.inj_add. simpl length.
    destruct Hchunks as (Hg & Hi & Hn).
    rewrite <- Hn.
    apply chunks_inv_snoc; [repeat split; assumption | simpl; auto | reflexivity].
  - destruct Hchunks as (Hg & Hi & Hn). repeat split; assumption.
Qed.

End Paragraphs.

End WithChunker.

End ChunkerFacts.

(* ================================================================= *)
(** ** Chunk sizes, the splitter's loop and the chunk indices *)

Module ChunkerClaims.
Import PyStr PyStrFacts Chunker ChunkerSpec SplitFacts ChunkerFacts.

Section WithChunker.

Variable self : TextChunker.

Local Abbreviation cs := (chunk_size self).

Lemma part_admissible (parsed_doc : ParsedDoc) (unit part : str) :
  In unit (units parsed_doc) ->
  In part (_split_text_with_overlap self unit) ->
  admissible self parsed_doc part.
Proof.
  intros Hunit Hpart.
  destruct (split_parts self _ _ Hpart) as [[Hle ->]|[Hgt [s [Hs ->]]]].
  - now left.
  - right. exists unit, s. repeat split; assumption.
Qed.

Lemma parts_admissible (parsed_doc : ParsedDoc) (chunks : list TextChunk) :
  map text chunks
  = flat_map (_split_text_with_overlap self)
      (map b_text (content parsed_doc)) ->
  Forall (fun c => admissible self parsed_doc (text c)) chunks.
Proof.
  intros Ht.
  rewrite <- Forall_map with (f := text) (P := admissible self parsed_doc), Ht.
  apply Forall_forall. intros part Hpart.
  apply in_flat_map in Hpart. destruct Hpart as [unit [Hunit Hpart]].
  apply (part_admissible parsed_doc unit); [now right | exact Hpart].
Qed.

Lemma chunk_document_admissible (parsed_doc : ParsedDoc) :
  Forall (fun c => admissible self parsed_doc (text c))
    (chunk_document self parsed_doc).
Proof.
  unfold chunk_document.
  destruct (String.eqb _ "pdf").
  { apply parts_admissible. apply chunk_pdf_content_spec. }
  destruct (String.eqb _ "docx" || String.eqb _ "txt").
  { apply (chunk_paragraph_content_inv self (admissible self parsed_doc)
             (content parsed_doc)).
    - intros buf Hbuf. left. pose proof (len_strip buf). lia.
    - intros b part Hb _ Hpart.
      apply (part_admissible parsed_doc (b_text b)); [|exact Hpart].
      right. now apply in_map. }
  destruct (String.eqb _ "pptx").
  { apply parts_admissible. apply chunk_slide_content_texts. }
  destruct (String.eqb _ "markdown").
  { apply parts_admissible. apply chunk_markdown_content_spec. }
  rewrite <- Forall_map with (f := text) (P := admissible self parsed_doc).
  destruct (chunk_raw_text_spec self (raw_text parsed_doc)) as [-> _].
  apply Forall_forall. intros part Hpart.
  apply (part_admissible parsed_doc (raw_text parsed_doc));
    [now left | exact Hpart].
Qed.

Lemma admissible_fits (parsed_doc : ParsedDoc) (t : str) :
  0 <= cs -> admissible self parsed_doc t -> len t <= cs.
Proof.
  intros Hcs [Hle|(unit & s & _ & _ & Hs & ->)]; [exact Hle|].
  pose proof (len_strip (slice unit s (s + cs))).
  pose proof (len_slice_window unit s cs Hs Hcs).
  lia.
Qed.

End WithChunker.

(** C1.  Every chunk of [chunk_document] has at most [chunk_size]
    characters, unless it is the trimmed remainder of a window cut from a
    single structural unit that itself exceeds [chunk_size]; and for a
    chunk size that is not negative no chunk and no part produced by the
    overlap-aware splitter exceeds [chunk_size] at all. *)
Theorem chunk_within_max_chars (self : TextChunker) :
  (forall (parsed_doc : ParsedDoc) (c : TextChunk),
      In c (chunk_document self parsed_doc) ->
      len (text c) <= chunk_size self
      \/ oversized_remainder self parsed_doc (text c))
  /\ (0 <= chunk_size self ->
      forall (t part : str),
        In part (_split_text_with_overlap self t) ->
        len part <= chunk_size self)
  /\ (0 <= chunk_size self ->
      forall (parsed_doc : ParsedDoc) (c : TextChunk),
        In c (chunk_document self parsed_doc) ->
        len (text c) <= chunk_size self).
Proof.
  split; [|split].
  - intros parsed_doc c Hc.
    pose proof (chunk_document_admissible self parsed_doc) as H.
    rewrite Forall_forall in H. exact (H c Hc).
  - intros Hcs t part Hpart. now apply (split_parts_fit self t).
  - intros Hcs parsed_doc c Hc.
    pose proof (chunk_document_admissible self parsed_doc) as H.
    rewrite Forall_forall in H.
    apply (admissible_fits self parsed_doc); [exact Hcs | exact (H c Hc)].
Qed.

Lemma chunk_within_max_chars_witness :
  let self := {| chunk_size := 4; overlap := 1 |} in
  let parsed_doc :=
    {| content :=
         [ {| b_text := [97; 98; 99; 100; 101; 102; 103; 104; 105; 106]%N;
              b_section := [49%N];
              b_page := 1; b_slide := 0; b_paragraph := 0 |} ];
       doc_type := "pdf";
       raw_text := [] |} in
  map text (chunk_document self parsed_doc)
  = [ [97; 98; 99; 100]%N; [100; 101; 102; 103]%N; [103; 104; 105; 106]%N ]
  /\ forall c : TextChunk,
       In c (chunk_document self parsed_doc) ->
       len (text c) <= chunk_size self.
Proof.
  intros self parsed_doc. split; [reflexivity|].
  apply (proj2 (proj2 (chunk_within_max_chars self))).
  vm_compute. discriminate.
Defined.

(** C3.  On a text longer than [chunk_size] the loop of the splitter
    terminates with a result, the cursor [start] grows by at least one
    from each iteration to the next, and the number of iterations is at
    most [len(text) / max(1, chunk_size - overlap) + 1], which is
    [len(text) / (chunk_size - overlap) + 1] when the overlap is smaller
    than the chunk size. *)
Theorem splitter_terminates_with_progress (self : TextChunker) (t : str) :
  len t > chunk_size self ->
  exists (cuts : list (Z * Z)) (chunks : list str),
    split_cuts self (S (length t)) t 0 = Some cuts
    /\ split_with_fuel self (S (length t)) t = Some chunks
    /\ _split_text_with_overlap self t = chunks
    /\ chunks = chunks_of_cuts t cuts
    /\ Sorted (fun a b : Z => a + 1 <= b) (map fst cuts)
    /\ split_iterations self t = Z.of_nat (length cuts)
    /\ split_iterations self t
       <= len t / Z.max 1 (chunk_size self - overlap self) + 1
    /\ (overlap self < chunk_size self ->
        split_iterations self t
        <= len t / (chunk_size self - overlap self) + 1).
Proof.
  intros Hlong.
  destruct (split_cuts_total self (S (length t)) t 0) as [cuts Hcuts];
    [unfold len; lia|].
  assert (Hrun : split_with_fuel self (S (length t)) t
                 = Some (chunks_of_cuts t cuts)).
  { unfold split_with_fuel.
    destruct (Z.leb_spec (len t) (chunk_size self)); [lia|].
    rewrite split_loop_cuts, Hcuts. reflexivity. }
  destruct (split_cuts_from self _ _ _ _ Hcuts) as [Hfrom Hcount].
  assert (Hbound : Z.of_nat (length cuts)
                   <= len t / Z.max 1 (chunk_size self - overlap self) + 1).
  { fold (stride self).
    pose proof (stride_pos self) as Hpos.
    pose proof (len_nonneg t) as Hn.
    destruct Hcount as [->|Hcount].
    - simpl. pose proof (Z.div_pos (len t) (stride self)). lia.
    - assert ((Z.of_nat (length cuts) - 1) <= len t / stride self); [|lia].
      apply Z.div_le_lower_bound; [lia|]. lia. }
  exists cuts, (chunks_of_cuts t cuts).
  unfold _split_text_with_overlap, split_iterations.
  rewrite Hrun, Hcuts.
  repeat split; try reflexivity; try assumption.
  - eapply cuts_from_advance; eassumption.
  - intros Hov.
    replace (chunk_size self - overlap self)
      with (Z.max 1 (chunk_size self - overlap self)) by lia.
    exact Hbound.
Qed.

Lemma splitter_terminates_with_progress_witness :
  exists (cuts : list (Z * Z)) (chunks : list str),
    let self := {| chunk_size := 4; overlap := 1 |} in
    let t := [97; 98; 99; 100; 101; 102; 103; 104; 105; 106]%N in
    split_cuts self (S (length t)) t 0 = Some cuts
    /\ split_with_fuel self (S (length t)) t = Some chunks
    /\ _split_text_with_overlap self t = chunks
    /\ chunks = chunks_of_cuts t cuts
    /\ Sorted (fun a b : Z => a + 1 <= b) (map fst cuts)
    /\ split_iterations self t = Z.of_nat (length cuts)
    /\ split_iterations self t
       <= len t / Z.max 1 (chunk_size self - overlap self) + 1
    /\ (overlap self < chunk_size self ->
        split_iterations self t
        <= len t / (chunk_size self - overlap self) + 1).
Proof.
  apply (splitter_terminates_with_progress
           {| chunk_size := 4; overlap := 1 |}
           [97; 98; 99; 100; 101; 102; 103; 104; 105; 106]%N).
  vm_compute. reflexivity.
Defined.

(** C10.  A text of at most [chunk_size] characters is returned as the
    single element of the result, unchanged: nothing is trimmed and nothing
    is dropped, also when the text is empty or consists of white space. *)
Theorem split_fitting_text_is_identity (self : TextChunker) (t : str) :
  len t <= chunk_size self ->
  _split_text_with_overlap self t = [t].
Proof. apply split_fits_whole. Qed.

Lemma split_fitting_text_is_identity_witness :
  _split_text_with_overlap {| chunk_size := 4; overlap := 1 |} [32; 10; 32]%N
  = [[32; 10; 32]%N]
  /\ _split_text_with_overlap {| chunk_size := 4; overlap := 1 |} [] = [[]].
Proof.
  split.
  - apply (split_fitting_text_is_identity
             {| chunk_size := 4; overlap := 1 |} [32; 10; 32]%N).
    vm_compute. discriminate.
  - apply (split_fitting_text_is_identity
             {| chunk_size := 4; overlap := 1 |} []).
    vm_compute. discriminate.
Defined.

Lemma numbered_parts_contiguous (chunks : list TextChunk) (parts : list str) :
  numbered_parts chunks parts -> indices_contiguous chunks.
Proof.
  intros [Ht Hi]. unfold indices_contiguous.
  rewrite Hi, <- Ht, length_map. reflexivity.
Qed.

(** Every strategy but the one for slides numbers its chunks 0, 1, 2, ...
    in order. *)
Theorem chunk_document_indices_contiguous (self : TextChunker)
    (parsed_doc : ParsedDoc) :
  doc_type parsed_doc <> "pptx"%string ->
  indices_contiguous (chunk_document self parsed_doc).
Proof.
  intros Htype. unfold chunk_document.
  destruct (String.eqb _ "pdf").
  { eapply numbered_parts_contiguous, chunk_pdf_content_spec. }
  destruct (String.eqb _ "docx" || String.eqb _ "txt").
  { destruct (chunk_paragraph_content_inv self (fun _ => True)
                (content parsed_doc)) as (_ & Hi & _); auto. }
  destruct (String.eqb_spec (doc_type parsed_doc) "pptx"); [contradiction|].
  destruct (String.eqb _ "markdown").
  { eapply numbered_parts_contiguous, chunk_markdown_content_spec. }
  eapply numbered_parts_contiguous, chunk_raw_text_spec.
Qed.

Lemma chunk_document_indices_contiguous_witness :
  indices_contiguous
    (chunk_document {| chunk_size := 4; overlap := 1 |}
       {| content :=
            [ {| b_text := [97; 98; 99; 100; 101; 102; 103; 104; 105; 106]%N;
                 b_section := [49%N];
                 b_page := 1; b_slide := 0; b_paragraph := 0 |};
              {| b_text := [107%N];
                 b_section := [50%N];
                 b_page := 2; b_slide := 0; b_paragraph := 0 |} ];
          doc_type := "pdf";
          raw_text := [] |}).
Proof.
  apply chunk_document_indices_contiguous. simpl. discriminate.
Defined.

(** C4.  The strategy for slides breaks the numbering: with
    [chunk_size = 4] and [overlap = 1], a slide of ten characters followed
    by a slide of one character gives the indices 0, 1, 2 to the three
    parts of the first slide and the index 1, the position of the slide,
    to the second slide. *)
Theorem slide_indices_not_contiguous :
  let self := {| chunk_size := 4; overlap := 1 |} in
  let parsed_doc :=
    {| content :=
         [ {| b_text := [97; 98; 99; 100; 101; 102; 103; 104; 105; 106]%N;
              b_section := [65%N];
              b_page := 0; b_slide := 1; b_paragraph := 0 |};
           {| b_text := [107%N];
              b_section := [66%N];
              b_page := 0; b_slide := 2; b_paragraph := 0 |} ];
       doc_type := "pptx";
       raw_text := [] |} in
  map index (chunk_document self parsed_doc) = [0; 1; 2; 1]
  /\ ~ indices_contiguous (chunk_document self parsed_doc).
Proof.
  intros self parsed_doc.
  assert (H : map index (chunk_document self parsed_doc) = [0; 1; 2; 1])
    by reflexivity.
  split; [exact H|].
  unfold indices_contiguous. rewrite H.
  rewrite <- (length_map index), H. simpl. discriminate.
Qed.

(** The search for a sentence boundary never moves the cut: a candidate
    has to be strictly closer to the proposed cut point than the current
    best position, which is the proposed cut point itself, so every cut of
    the splitter is the plain window of [chunk_size] characters. *)
Theorem sentence_boundary_is_proposed_cut (self : TextChunker) (t : str)
    (start preferred_end : Z) :
  _find_sentence_boundary t start preferred_end = preferred_end
  /\ cut_end self t start = start + chunk_size self.
Proof.
  split; [apply find_sentence_boundary_preferred | apply cut_end_window].
Qed.

(** The scenario of the specification: 2000 characters without
    punctuation, cut with [chunk_size = 800] and [overlap = 120], give
    three chunks of 800, 800 and 640 characters, cut at 0, 680 and 1360. *)
Theorem split_2000_unpunctuated :
  let self := Chunker.init None None in
  let t := repeat 97%N 2000 in
  split_cuts self (S (length t)) t 0
  = Some [(0, 800); (680, 1480); (1360, 2160)]
  /\ map len (_split_text_with_overlap self t) = [800; 800; 640].
Proof. vm_compute. split; reflexivity. Qed.

End ChunkerClaims.

(* ================================================================= *)
(** ** Rational arithmetic of the scorers *)

Module PyNumFacts.
Import PyNum.

Local Open Scope Q_scope.

Lemma Qltb_spec (a b : Q) : BoolSpec (a < b) (b <= a) (Qltb a b).
Proof.
  unfold Qltb. destruct (Qle_bool b a) eqn:E; simpl; constructor.
  - now apply Qle_bool_iff.
  - apply Qnot_le_lt. intros H. apply Qle_bool_iff in H. congruence.
Qed.

Lemma py_max_cases (a b : Q) :
  (a < b /\ py_max a b = b) \/ (b <= a /\ py_max a b = a).
Proof. unfold py_max. destruct (Qltb_spec a b); auto. Qed.

Lemma py_min_cases (a b : Q) :
  (b < a /\ py_min a b = b) \/ (a <= b /\ py_min a b = a).
Proof. unfold py_min. destruct (Qltb_spec b a); auto. Qed.

Lemma py_max_Qmax (a b : Q) : py_max a b == Qmax a b.
Proof.
  destruct (py_max_cases a b) as [[H ->]|[H ->]];
    destruct (Q.max_spec a b) as [[H' E]|[H' E]]; lra.
Qed.

Lemma py_min_Qmin (a b : Q) : py_min a b == Qmin a b.
Proof.
  destruct (py_min_cases a b) as [[H ->]|[H ->]];
    destruct (Q.min_spec a b) as [[H' E]|[H' E]]; lra.
Qed.

(** Python's [max(lo, min(hi, x))] is the specification's clamp. *)
Lemma py_clamp (x lo hi : Q) :
  py_max lo (py_min hi x) == clamp x lo hi.
Proof.
  unfold clamp.
  destruct (py_min_cases hi x) as [[H1 ->]|[H1 ->]];
    destruct (Q.min_spec hi x) as [[H2 E2]|[H2 E2]];
    match goal with
    | |- py_max ?a ?b == Qmax ?a ?c =>
        destruct (py_max_cases a b) as [[H3 ->]|[H3 ->]];
        destruct (Q.max_spec a c) as [[H4 E4]|[H4 E4]]
    end; lra.
Qed.

Lemma clamp_unit (x : Q) : 0 <= clamp x 0 1 <= 1.
Proof.
  unfold clamp.
  destruct (Q.min_spec 1 x) as [[H2 E2]|[H2 E2]];
    destruct (Q.max_spec 0 (Qmin 1 x)) as [[H4 E4]|[H4 E4]]; lra.
Qed.

Lemma clamp_inside (x : Q) : 0 <= x <= 1 -> clamp x 0 1 == x.
Proof.
  intros H. unfold clamp.
  destruct (Q.min_spec 1 x) as [[H2 E2]|[H2 E2]];
    destruct (Q.max_spec 0 (Qmin 1 x)) as [[H4 E4]|[H4 E4]]; lra.
Qed.

(** *** Sums and means *)

Lemma fold_Qplus_bounds (l : list Q) :
  forall a : Q,
    Forall (fun x => 0 <= x <= 1) l ->
    a <= fold_left Qplus l a
    /\ fold_left Qplus l a <= a + inject_Z (Z.of_nat (length l)).
Proof.
  induction l as [|x l IH]; intros a Hl.
  - simpl. unfold inject_Z. lra.
  - inversion Hl as [|? ? Hx Hl']; subst.
    cbn [fold_left length].
    destruct (IH (a + x) Hl') as [Hlo Hhi].
    rewrite Nat2Z.inj_succ, <- Z.add_1_r, inject_Z_plus.
    change (inject_Z 1) with 1.
    split; lra.
Qed.

Lemma mean_unit (l : list Q) :
  l <> [] ->
  Forall (fun x => 0 <= x <= 1) l ->
  0 <= Qsum l / inject_Z (Z.of_nat (length l)) <= 1.
Proof.
  intros Hne Hl.
  assert (Hn : 0 < inject_Z (Z.of_nat (length l))).
  { destruct l; [congruence|].
    change 0 with (inject_Z 0). rewrite <- Zlt_Qlt. simpl. lia. }
  destruct (fold_Qplus_bounds l 0 Hl) as [Hlo Hhi].
  fold (Qsum l) in Hlo, Hhi.
  split.
  - apply Qle_shift_div_l; [exact Hn | lra].
  - apply Qle_shift_div_r; [exact Hn | lra].
Qed.

End PyNumFacts.

(* ================================================================= *)
(** ** The score of a hit *)

Module VectorDBClaims.
Import PyNum PyNumFacts VectorDB.

Local Open Scope Q_scope.

Lemma score_of_distance_clamp (distance : Q) :
  0 <= distance ->
  score_of_distance distance == clamp (1 - distance) 0 1.
Proof.
  intros Hd. unfold score_of_distance, clamp.
  destruct (py_max_cases 0 (1 - distance)) as [[H ->]|[H ->]];
    destruct (Q.min_spec 1 (1 - distance)) as [[H2 E2]|[H2 E2]];
    destruct (Q.max_spec 0 (Qmin 1 (1 - distance))) as [[H4 E4]|[H4 E4]];
    lra.
Qed.

(** C8.  The store's distances are not negative, and for such a distance
    the score of the hit is [clamp(1 - distance, 0, 1)]; every score of a
    query result lies in [0, 1]. *)
Theorem hit_score_is_clamped_similarity (rows : list QueryRow) :
  Forall (fun row => 0 <= row_distance row) rows ->
  Forall2
    (fun row hit =>
       score hit == clamp (1 - row_distance row) 0 1
       /\ 0 <= score hit <= 1)
    rows (hits_of_results rows).
Proof.
  induction 1 as [|row rows Hrow _ IH]; simpl; constructor; [|exact IH].
  simpl.
  pose proof (score_of_distance_clamp _ Hrow) as E.
  pose proof (clamp_unit (1 - row_distance row)) as B.
  split; [exact E | lra].
Qed.

Lemma hit_score_is_clamped_similarity_witness :
  Forall2
    (fun row hit =>
       score hit == clamp (1 - row_distance row) 0 1
       /\ 0 <= score hit <= 1)
    [ {| row_id := [49%N]; row_distance := 3 # 10;
         row_metadata := []; row_document := [97%N] |};
      {| row_id := [50%N]; row_distance := 3 # 2;
         row_metadata := []; row_document := [98%N] |} ]
    (hits_of_results
       [ {| row_id := [49%N]; row_distance := 3 # 10;
            row_metadata := []; row_document := [97%N] |};
         {| row_id := [50%N]; row_distance := 3 # 2;
            row_metadata := []; row_document := [98%N] |} ]).
Proof.
  apply hit_score_is_clamped_similarity.
  repeat constructor; simpl; unfold Qle; simpl; lia.
Defined.

(** Without the assumption on the distance the score has no upper bound:
    a distance of [-1/2] gives the score [3/2]. *)
Example score_of_negative_distance :
  score_of_distance (-1 # 2) == 3 # 2.
Proof. reflexivity. Qed.

End VectorDBClaims.

(* ================================================================= *)
(** ** Scanning an answer for citations *)

Module ScanFacts.
Import PyStr Rag RagSpec.

Lemma scan_citations_app (t1 t2 : str) :
  forall st : Scan,
    scan_citations st (t1 ++ t2)
    = scan_citations st t1 ++ scan_citations (scan_end st t1) t2.
Proof.
  induction t1 as [|c t1 IH]; intros st; [reflexivity|].
  destruct st as [|digits]; cbn [app scan_citations scan_end fold_left scan_next].
  - destruct (char_eqb c lbracket); apply IH.
  - destruct (isdecimal c); [apply IH|].
    destruct (char_eqb c rbracket && truthy digits).
    + cbn [app]. f_equal. apply IH.
    + destruct (char_eqb c lbracket); apply IH.
Qed.

(** A plain character ends every attempt. *)
Lemma scan_plain (t : str) :
  forallb plain t = true ->
  forall st : Scan,
    scan_citations st t = []
    /\ (t <> [] -> scan_end st t = Outside).
Proof.
  induction t as [|c t IH]; intros Hplain st; [split; [reflexivity|congruence]|].
  cbn [forallb] in Hplain. apply andb_prop in Hplain.
  destruct Hplain as [Hc Ht].
  unfold plain in Hc.
  apply andb_prop in Hc. destruct Hc as [Hc Hr].
  apply andb_prop in Hc. destruct Hc as [Hd Hl].
  apply negb_true_iff in Hd, Hl, Hr.
  assert (Hnext : scan_next st c = Outside).
  { destruct st; simpl; now rewrite ?Hd, ?Hl, ?Hr. }
  assert (Hscan : scan_citations st (c :: t) = scan_citations Outside t).
  { destruct st; simpl; now rewrite ?Hd, ?Hl, ?Hr. }
  rewrite Hscan. unfold scan_end. cbn [fold_left]. rewrite Hnext.
  destruct (IH Ht Outside) as [H1 H2].
  split; [exact H1|]. intros _.
  destruct t as [|c' t']; [reflexivity|].
  apply H2. discriminate.
Qed.

(** An attempt in progress can only add a match. *)
Lemma scan_outside_le (t : str) :
  forall digits : str,
    (length (scan_citations Outside t)
     <= length (scan_citations (Inside digits) t))%nat.
Proof.
  induction t as [|c t IH]; intros digits; [simpl; lia|].
  cbn [scan_citations].
  destruct (isdecimal c) eqn:Ed.
  - assert (El : char_eqb c lbracket = false).
    { destruct (char_eqb c lbracket) eqn:E; [|reflexivity].
      apply N.eqb_eq in E. subst c. vm_compute in Ed. discriminate. }
    rewrite El. apply IH.
  - destruct (char_eqb c rbracket && truthy digits) eqn:Er.
    + assert (El : char_eqb c lbracket = false).
      { apply andb_prop in Er. destruct Er as [Er _].
        apply N.eqb_eq in Er. subst c. reflexivity. }
      rewrite El. simpl. lia.
    + destruct (char_eqb c lbracket); lia.
Qed.

(** Inserting plain characters into an answer adds no citation. *)
Lemma cited_count_insert (before inserted after : str) :
  inserted <> [] ->
  forallb plain inserted = true ->
  cited_count (before ++ inserted ++ after) <= cited_count (before ++ after).
Proof.
  intros Hne Hplain. unfold cited_count, findall_citations.
  rewrite !scan_citations_app.
  destruct (scan_plain inserted Hplain (scan_end Outside before)) as [-> Hend].
  rewrite (Hend Hne). cbn [app].
  rewrite !length_app.
  destruct (scan_end Outside before) as [|digits]; [lia|].
  pose proof (scan_outside_le after digits). lia.
Qed.

Lemma refusal_keywords_plain (keyword : str) :
  In keyword refusal_keywords ->
  keyword <> [] /\ forallb plain keyword = true.
Proof.
  intros H. repeat (destruct H as [<-|H]; [split; [discriminate | reflexivity]|]).
  destruct H.
Qed.

(** *** Substrings *)

Lemma startswith_app (sub t : str) : startswith sub (sub ++ t) = true.
Proof.
  induction sub as [|c sub IH]; [now destruct t|].
  simpl. unfold char_eqb. now rewrite N.eqb_refl.
Qed.

Lemma contains_startswith (sub t : str) :
  startswith sub t = true -> contains sub t = true.
Proof. intros H. destruct t; simpl; now rewrite H. Qed.

Lemma contains_insert (sub before after : str) :
  contains sub (before ++ sub ++ after) = true.
Proof.
  induction before as [|c before IH].
  - cbn [app]. apply contains_startswith, startswith_app.
  - simpl. rewrite IH. apply orb_true_r.
Qed.

Lemma refusal_flag_insert (keyword before after : str) :
  In keyword refusal_keywords ->
  refusal_flag (before ++ keyword ++ after) = true.
Proof.
  intros H. unfold refusal_flag. apply existsb_exists.
  exists keyword. split; [exact H | apply contains_insert].
Qed.

End ScanFacts.

(* ================================================================= *)
(** ** The ingestion job *)

Module IngestFacts.
Import PyStr Ingest IngestSpec.

Local Open Scope ingest_scope.

(** [terminal_absorbing] says what it should of every split of the
    history. *)
Lemma terminal_absorbing_split (history : list IngestTask) :
  terminal_absorbing history <->
  forall (before : list IngestTask) (t : IngestTask) (later : list IngestTask),
    history = before ++ t :: later ->
    terminal (status t) = true ->
    Forall (fun t' => t' = t) later.
Proof.
  induction history as [|t0 history IH]; simpl.
  - split; [|trivial]. intros _ [|? ?] t later H; discriminate.
  - rewrite IH. split.
    + intros [Hhead Htail] [|b before] t later H Ht; simpl in H;
        inversion H; subst.
      * now apply Hhead.
      * now apply (Htail before t later).
    + intros H. split.
      * intros Ht. now apply (H [] t0 history).
      * intros before t later -> Ht. now apply (H (t0 :: before) t later).
Qed.

(** Saving the chunks keeps the core of the session, whether a flush
    raises or not. *)
Lemma save_chunks_frame (env : Collaborators) (document_id course_id : Z)
    (pairs : list (Chunker.TextChunk * list Q)) :
  forall s : Session,
    exists (r : Exn + list VectorRecord) (s' : Session),
      save_chunks env document_id course_id pairs s = (r, s')
      /\ same_core s s'.
Proof.
  induction pairs as [|[chunk embedding] pairs IH]; intros s.
  - exists (inr []), s. repeat split.
  - cbn [save_chunks]. unfold bind, add_chunk, session_op.
    destruct (session_fault env (ops s)) as [message|].
    + eexists _, _. split; [reflexivity|]. repeat split.
    + match goal with
      | |- context [save_chunks _ _ _ pairs ?s1] =>
          destruct (IH s1) as (r & s' & Hrun & Hcore)
      end.
      rewrite Hrun.
      destruct r as [e|records]; cbn [ret];
        eexists _, s'; (split; [reflexivity | exact Hcore]).
Qed.

(** With a reliable session it does not raise. *)
Lemma save_chunks_reliable (env : Collaborators) (document_id course_id : Z)
    (pairs : list (Chunker.TextChunk * list Q)) :
  (forall k : nat, session_fault env k = None) ->
  forall s : Session,
    exists (records : list VectorRecord) (s' : Session),
      save_chunks env document_id course_id pairs s = (inr records, s')
      /\ same_core s s'.
Proof.
  intros Hreliable.
  induction pairs as [|[chunk embedding] pairs IH]; intros s.
  - exists [], s. repeat split.
  - cbn [save_chunks]. unfold bind, add_chunk, session_op.
    rewrite Hreliable.
    match goal with
    | |- context [save_chunks _ _ _ pairs ?s1] =>
        destruct (IH s1) as (records & s' & Hrun & Hcore)
    end.
    rewrite Hrun. cbn [ret].
    eexists _, s'. split; [reflexivity | exact Hcore].
Qed.

Ltac run_step :=
  cbv beta iota zeta delta
    [bind set_task set_document_status store_vectors modify commit
     query_task query_document session_op get call raise ret
     update_local held message_of
     fst snd task document pending_chunks next_chunk_id ops
     committed_tasks committed_document committed_chunks vectors app].

Ltac split_all := repeat match goal with |- _ /\ _ => split end.

Ltac history_facts :=
  split;
  [ repeat constructor; unfold Qle; simpl; lia
  | simpl; split_all;
    first [ exact I
          | intros H; first [discriminate H | repeat constructor] ] ].

(** The goals of one outcome of the job: a fixed history. *)
Ltac lifecycle_case :=
  split; [reflexivity|];
  split; [repeat constructor; unfold Qle; simpl; lia|];
  split;
  [ simpl; split_all;
    first [ exact I
          | intros H; first [discriminate H | repeat constructor] ]
  | first
      [ solve [ eexists; split; [reflexivity|];
                split; [reflexivity|];
                split; [reflexivity|];
                intros d0 H; inversion H; reflexivity ]
      | solve [ split; [reflexivity|];
                split; [reflexivity|];
                eexists; split; reflexivity ] ] ].

(** The life cycle of a task whose job meets no failure of its database
    session: the progress never decreases, a terminal state is final, a
    run without exception passes the milestones and ends [done] with the
    document ready, and an exception of any collaborator, or a missing
    document, ends the task [failed] with the message kept and the
    document, when there is one, failed. *)
Theorem ingest_task_lifecycle (env : Collaborators) (task_id : str)
    (document_id : Z) (chunk_policy : option ChunkPolicy)
    (db_document : option Document) (db_chunks : list ChunkRecord)
    (next_chunk_id : Z) (store : list VectorRecord) :
  (forall k : nat, session_fault env k = None) ->
  let t0 := new_task task_id document_id in
  let s0 :=
    session_of task_id document_id db_document db_chunks next_chunk_id store in
  let s := snd (_ingest_document_task env (Some t0) document_id chunk_policy s0) in
  fst (_ingest_document_task env (Some t0) document_id chunk_policy s0) = None
  /\ progress_monotone (committed_tasks s)
  /\ terminal_absorbing (committed_tasks s)
  /\ match fst (ingest_body env (Some t0) document_id chunk_policy s0) with
     | inr _ =>
         map status (committed_tasks s)
         = [queued; processing; processing; processing; processing; done]
         /\ map progress (committed_tasks s)
            = [0; 1 # 10; 3 # 10; 5 # 10; 7 # 10; 1]%Q
         /\ exists d : Document,
              db_document = Some d
              /\ committed_document s = Some (with_doc_status "ready" d)
     | inl e =>
         exists t : IngestTask,
           last (committed_tasks s) t0 = t
           /\ status t = failed
           /\ error_message t = Some (message_of e)
           /\ forall d : Document,
                db_document = Some d ->
                committed_document s = Some (with_doc_status "failed" d)
     end.
Proof.
  intros Hreliable t0 s0 s. subst s s0 t0.
  unfold _ingest_document_task, ingest_body, ingest_handler, session_of.
  repeat (run_step; rewrite ?Hreliable).
  destruct db_document as [d|]; repeat (run_step; rewrite ?Hreliable);
    [|lifecycle_case].
  destruct (parse_file env d) as [e|parsed_doc];
    repeat (run_step; rewrite ?Hreliable); [lifecycle_case|].
  destruct (write_parsed env parsed_doc) as [e|[]];
    repeat (run_step; rewrite ?Hreliable); [lifecycle_case|].
  destruct (chunk_fault env) as [e|];
    repeat (run_step; rewrite ?Hreliable); [lifecycle_case|].
  generalize (Chunker.chunk_document
                (Chunker.init
                   (Some match chunk_policy with
                         | Some p => max_chars p
                         | None => settings.CHUNK_SIZE
                         end)
                   (Some match chunk_policy with
                         | Some p => policy_overlap p
                         | None => settings.CHUNK_OVERLAP
                         end))
                parsed_doc) as chunks.
  intros chunks.
  destruct (get_embeddings_batch env (map Chunker.text chunks))
    as [e|embeddings]; repeat (run_step; rewrite ?Hreliable);
    [lifecycle_case|].
  match goal with
  | |- context [save_chunks ?env ?a ?b ?c ?s1] =>
      destruct (save_chunks_reliable env a b c Hreliable s1)
        as (records & s' & Hrun & (Ht & Hd & Hct & Hcd & Hv));
      rewrite Hrun; clear Hrun;
      destruct s';
      cbn [task document committed_tasks committed_document vectors]
        in Ht, Hd, Hct, Hcd, Hv;
      subst
  end.
  destruct records as [|record records];
    repeat (run_step; rewrite ?Hreliable); [lifecycle_case|].
  destruct (upsert env (record :: records)) as [e|[]];
    repeat (run_step; rewrite ?Hreliable); lifecycle_case.
Qed.

(** Branch on the outcome of the [k]-th operation of the session, where
    the run depends on it. *)
Ltac on_fault env k :=
  try (match goal with
       | |- context [session_fault env k] =>
           destruct (session_fault env k); run_step
       end).

Ltac on_faults env :=
  repeat match goal with
         | |- context [session_fault env ?k] =>
             destruct (session_fault env k); run_step
         end.

(** Whatever fails, the session included, the committed progress of the
    task never decreases and a committed terminal state is final. *)
Theorem ingest_history_monotone (env : Collaborators) (task_id : str)
    (document_id : Z) (chunk_policy : option ChunkPolicy)
    (db_document : option Document) (db_chunks : list ChunkRecord)
    (next_chunk_id : Z) (store : list VectorRecord) :
  let t0 := new_task task_id document_id in
  let s0 :=
    session_of task_id document_id db_document db_chunks next_chunk_id store in
  let s := snd (_ingest_document_task env (Some t0) document_id chunk_policy s0) in
  progress_monotone (committed_tasks s)
  /\ terminal_absorbing (committed_tasks s).
Proof.
  intros t0 s0 s. subst s s0 t0.
  unfold _ingest_document_task, ingest_body, ingest_handler, session_of.
  run_step.
  on_fault env 0%nat; [history_facts|].
  on_fault env 1%nat; [on_faults env; history_facts|].
  on_fault env 2%nat; [on_faults env; history_facts|].
  destruct db_document as [d|]; run_step; [|on_faults env; history_facts].
  destruct (parse_file env d) as [e|parsed_doc]; run_step;
    [on_faults env; history_facts|].
  destruct (write_parsed env parsed_doc) as [e|[]]; run_step;
    [on_faults env; history_facts|].
  on_fault env 3%nat; [on_faults env; history_facts|].
  destruct (chunk_fault env) as [e|]; run_step;
    [on_faults env; history_facts|].
  on_fault env 4%nat; [on_faults env; history_facts|].
  generalize (Chunker.chunk_document
                (Chunker.init
                   (Some match chunk_policy with
                         | Some p => max_chars p
                         | None => settings.CHUNK_SIZE
                         end)
                   (Some match chunk_policy with
                         | Some p => policy_overlap p
                         | None => settings.CHUNK_OVERLAP
                         end))
                parsed_doc) as chunks.
  intros chunks.
  destruct (get_embeddings_batch env (map Chunker.text chunks))
    as [e|embeddings]; run_step; [on_faults env; history_facts|].
  on_fault env 5%nat; [on_faults env; history_facts|].
  match goal with
  | |- context [save_chunks ?env ?a ?b ?c ?s1] =>
      destruct (save_chunks_frame env a b c s1)
        as (r & s' & Hrun & (Ht & Hd & Hct & Hcd & Hv));
      rewrite Hrun; clear Hrun;
      destruct s';
      cbn [task document committed_tasks committed_document vectors]
        in Ht, Hd, Hct, Hcd, Hv;
      subst
  end.
  destruct r as [e|[|record records]]; run_step;
    [on_faults env; history_facts | on_faults env; history_facts |].
  destruct (upsert env (record :: records)) as [e|[]]; run_step;
    on_faults env; history_facts.
Qed.

Lemma ingest_task_lifecycle_witness :
  let parsed_doc :=
    {| Chunker.content :=
         [ {| Chunker.b_text := [97; 98; 99]%N;
              Chunker.b_section := [49%N];
              Chunker.b_page := 0; Chunker.b_slide := 0;
              Chunker.b_paragraph := 1 |} ];
       Chunker.doc_type := "txt";
       Chunker.raw_text := [97; 98; 99]%N |} in
  let d :=
    {| doc_id := 1; doc_course_id := 1; doc_file_name := [97%N];
       doc_file_type := [116%N]; doc_storage_path := [47%N];
       doc_status := "uploaded" |} in
  let s := snd (_ingest_document_task (all_succeed parsed_doc)
                  (Some (new_task [116%N] 1)) 1 None
                  (session_of [116%N] 1 (Some d) [] 1 [])) in
  map status (committed_tasks s)
  = [queued; processing; processing; processing; processing; done]
  /\ committed_document s = Some (with_doc_status "ready" d)
  /\ length (committed_chunks s) = 1%nat
  /\ length (vectors s) = 1%nat.
Proof.
  intros parsed_doc d s.
  pose proof (ingest_task_lifecycle (all_succeed parsed_doc) [116%N] 1 None
                (Some d) [] 1 [] (fun _ => eq_refl)) as H.
  cbv zeta in H. destruct H as (_ & _ & _ & H).
  change (fst (ingest_body (all_succeed parsed_doc)
                 (Some (new_task [116%N] 1)) 1 None
                 (session_of [116%N] 1 (Some d) [] 1 [])))
    with (@inr Exn unit tt) in H.
  destruct H as (Hstatus & _ & d' & Hd & Hready).
  inversion Hd; subst d'.
  split; [exact Hstatus|]. split; [exact Hready|].
  split; reflexivity.
Defined.

(** C5.  An exception raised before the document is looked up escapes the
    handler.  When the first [db.commit()] of the job raises, the handler
    marks the task failed and then reads the local variable [document],
    which was never assigned: the job ends with an [UnboundLocalError]
    (or with the exception of the handler's own commit), and the
    document, which exists, keeps its status. *)
Theorem commit_failure_leaves_document_unmarked (handler_commit : option str)
    (d : Document) (task_id : str) :
  let env := first_commit_fails handler_commit in
  let t0 := new_task task_id (doc_id d) in
  let r :=
    _ingest_document_task env (Some t0) (doc_id d) None
      (session_of task_id (doc_id d) (Some d) [] 1 []) in
  fst r
  = match handler_commit with
    | Some message => Some (Raised message)
    | None => Some (UnboundLocal "document")
    end
  /\ committed_document (snd r) = Some d
  /\ map status (committed_tasks (snd r))
     = match handler_commit with
       | Some _ => [queued]
       | None => [queued; failed]
       end.
Proof.
  intros env t0 r. subst r t0 env.
  destruct handler_commit as [message|]; repeat split.
Qed.

End IngestFacts.

(* ================================================================= *)
(** ** The confidence of an answer *)

Module ConfidenceClaims.
Import PyStr PyNum PyNumFacts Rag RagSpec ScanFacts.

Local Open Scope Q_scope.

Lemma calculate_confidence_unfold (chunk_details : list Detail) (answer : str) :
  chunk_details <> [] ->
  _calculate_confidence chunk_details answer
  = py_max 0
      (py_min 1
         (if refusal_flag answer
          then base_value chunk_details answer * (5 # 10)
          else base_value chunk_details answer)).
Proof. destruct chunk_details; [congruence | reflexivity]. Qed.

Lemma evidence_count_pos (chunk_details : list Detail) :
  chunk_details <> [] ->
  0 < inject_Z (Z.of_nat (length chunk_details)).
Proof.
  intros H. destruct chunk_details; [congruence|].
  change 0 with (inject_Z 0). rewrite <- Zlt_Qlt. simpl. lia.
Qed.

Lemma coverage_unit (n : Q) (count : Z) :
  0 < n -> (0 <= count)%Z -> 0 <= py_min (inject_Z count / n) 1 <= 1.
Proof.
  intros Hn Hc.
  assert (0 <= inject_Z count / n).
  { apply Qle_shift_div_l; [exact Hn|].
    change 0 with (inject_Z 0) at 1.
    rewrite Qmult_0_l. change 0 with (inject_Z 0). now rewrite <- Zle_Qle. }
  destruct (py_min_cases (inject_Z count / n) 1) as [[? ->]|[? ->]]; lra.
Qed.

Lemma coverage_monotone (n : Q) (count count' : Z) :
  0 < n -> (count <= count')%Z ->
  py_min (inject_Z count / n) 1 <= py_min (inject_Z count' / n) 1.
Proof.
  intros Hn Hc.
  assert (inject_Z count / n <= inject_Z count' / n).
  { apply Qle_shift_div_l; [exact Hn|].
    unfold Qdiv. rewrite <- Qmult_assoc, (Qmult_comm (/ n)), Qmult_inv_r; [|lra].
    rewrite Qmult_1_r. now rewrite <- Zle_Qle. }
  destruct (py_min_cases (inject_Z count / n) 1) as [[? ->]|[? ->]];
    destruct (py_min_cases (inject_Z count' / n) 1) as [[? ->]|[? ->]]; lra.
Qed.

Lemma cited_count_nonneg (answer : str) : (0 <= cited_count answer)%Z.
Proof. unfold cited_count. lia. Qed.

Lemma confidence_unit (chunk_details : list Detail) (answer : str) :
  0 <= _calculate_confidence chunk_details answer <= 1.
Proof.
  destruct chunk_details as [|d l]; [simpl; lra|].
  rewrite calculate_confidence_unfold by discriminate.
  rewrite py_clamp. apply clamp_unit.
Qed.

(** With retrieval scores in [0, 1] the value before the penalty lies in
    [0.2, 1]. *)
Lemma base_value_range (chunk_details : list Detail) (answer : str) :
  chunk_details <> [] ->
  Forall (fun d => 0 <= d_score d <= 1) chunk_details ->
  2 # 10 <= base_value chunk_details answer <= 1.
Proof.
  intros Hne Hscores. unfold base_value.
  pose proof (evidence_count_pos _ Hne) as Hn.
  assert (Hmean : 0 <= Qsum (map d_score chunk_details)
                       / inject_Z (Z.of_nat (length chunk_details)) <= 1).
  { rewrite <- (length_map d_score).
    apply mean_unit.
    - destruct chunk_details; [congruence | discriminate].
    - now apply Forall_map. }
  pose proof (coverage_unit _ _ Hn (cited_count_nonneg answer)) as Hcov.
  lra.
Qed.

Lemma refusal_lowers_confidence (chunk_details : list Detail) (a1 a2 : str) :
  chunk_details <> [] ->
  Forall (fun d => 0 <= d_score d <= 1) chunk_details ->
  refusal_flag a1 = false ->
  refusal_flag a2 = true ->
  (cited_count a2 <= cited_count a1)%Z ->
  _calculate_confidence chunk_details a2
  < _calculate_confidence chunk_details a1.
Proof.
  intros Hne Hscores H1 H2 Hcount.
  rewrite !calculate_confidence_unfold by exact Hne.
  rewrite H1, H2.
  pose proof (base_value_range chunk_details a1 Hne Hscores) as R1.
  pose proof (base_value_range chunk_details a2 Hne Hscores) as R2.
  assert (Hle : base_value chunk_details a2 <= base_value chunk_details a1).
  { unfold base_value.
    pose proof (coverage_monotone _ _ _ (evidence_count_pos _ Hne) Hcount).
    lra. }
  rewrite !py_clamp, !clamp_inside; lra.
Qed.

(** C2, as amended.  For a non-empty evidence list the confidence is
    [clamp(0.4 * avg + 0.4 * coverage + 0.2, 0, 1)], the value halved
    before clamping when the answer holds a refusal phrase, where [avg] is
    the mean of the retrieval scores and [coverage] is
    [min(cited_count / evidence_count, 1)] with [cited_count] the number of
    references [[n]] in the answer, repetitions and numbers outside the
    evidence included; with a mean of 0.8, two evidence items, two
    references and no refusal phrase it is 0.92. *)
Theorem confidence_formula (chunk_details : list Detail) (answer : str) :
  chunk_details <> [] ->
  let n := inject_Z (Z.of_nat (length chunk_details)) in
  let avg_score := Qsum (map d_score chunk_details) / n in
  let coverage := Qmin (inject_Z (cited_count answer) / n) 1 in
  let value := (4 # 10) * avg_score + (4 # 10) * coverage + (2 # 10) in
  _calculate_confidence chunk_details answer
  == clamp (if refusal_flag answer then value * (5 # 10) else value) 0 1
  /\ (avg_score == 8 # 10 ->
      length chunk_details = 2%nat ->
      cited_count answer = 2%Z ->
      refusal_flag answer = false ->
      _calculate_confidence chunk_details answer == 92 # 100).
Proof.
  intros Hne n avg_score coverage value.
  assert (Hformula :
    _calculate_confidence chunk_details answer
    == clamp (if refusal_flag answer then value * (5 # 10) else value) 0 1).
  { rewrite calculate_confidence_unfold by exact Hne.
    rewrite py_clamp.
    assert (Hv : base_value chunk_details answer == value).
    { unfold base_value, value, coverage, avg_score. fold n.
      rewrite py_min_Qmin. reflexivity. }
    unfold clamp.
    destruct (refusal_flag answer); rewrite Hv; reflexivity. }
  split; [exact Hformula|].
  intros Havg Hlen Hcount Hrefusal.
  rewrite Hformula, Hrefusal.
  assert (Hcov : coverage == 1).
  { unfold coverage, n. rewrite Hcount, Hlen. reflexivity. }
  assert (Hvalue : value == 92 # 100) by (unfold value; lra).
  rewrite clamp_inside; lra.
Qed.

Lemma confidence_formula_witness :
  _calculate_confidence [evidence 1 1 (8 # 10); evidence 2 1 (8 # 10)] cites_1_2
  == 92 # 100.
Proof.
  apply (confidence_formula
           [evidence 1 1 (8 # 10); evidence 2 1 (8 # 10)] cites_1_2);
    [discriminate | reflexivity | reflexivity | reflexivity | reflexivity].
Defined.

(** C2 as the specification states it fails: the coverage counts every
    reference, not the distinct evidence items cited.  Two evidence items
    of score 0.8 and the answer "[1][1]" give 0.92, where the stated
    formula gives 0.72. *)
Lemma confidence_counts_repeated_citations :
  _calculate_confidence [evidence 1 1 (8 # 10); evidence 2 1 (8 # 10)] cites_1_1
  == 92 # 100
  /\ spec_confidence [evidence 1 1 (8 # 10); evidence 2 1 (8 # 10)] cites_1_1
     == 72 # 100
  /\ ~ _calculate_confidence
         [evidence 1 1 (8 # 10); evidence 2 1 (8 # 10)] cites_1_1
       == spec_confidence
            [evidence 1 1 (8 # 10); evidence 2 1 (8 # 10)] cites_1_1.
Proof.
  assert (H1 : _calculate_confidence
                 [evidence 1 1 (8 # 10); evidence 2 1 (8 # 10)] cites_1_1
               == 92 # 100) by reflexivity.
  assert (H2 : spec_confidence
                 [evidence 1 1 (8 # 10); evidence 2 1 (8 # 10)] cites_1_1
               == 72 # 100) by reflexivity.
  split; [exact H1 | split; [exact H2|]].
  rewrite H1, H2. discriminate.
Qed.

(** C9.  The confidence of a non-empty evidence list lies in [0, 1]; and
    when the retrieval scores lie in [0, 1], as the scores of search hits
    do, an answer with a refusal phrase scores strictly less than one
    without that cites as much, in particular than the same answer before
    the phrase was inserted into it. *)
Theorem confidence_unit_and_refusal_lowers (chunk_details : list Detail) :
  chunk_details <> [] ->
  (forall answer : str,
      0 <= _calculate_confidence chunk_details answer <= 1)
  /\ (Forall (fun d => 0 <= d_score d <= 1) chunk_details ->
      (forall a1 a2 : str,
          refusal_flag a1 = false ->
          refusal_flag a2 = true ->
          cited_count a2 = cited_count a1 ->
          _calculate_confidence chunk_details a2
          < _calculate_confidence chunk_details a1)
      /\ (forall before after keyword : str,
             In keyword refusal_keywords ->
             refusal_flag (before ++ after) = false ->
             _calculate_confidence chunk_details (before ++ keyword ++ after)
             < _calculate_confidence chunk_details (before ++ after))).
Proof.
  intros Hne. split; [intros answer; apply confidence_unit|].
  intros Hscores. split.
  - intros a1 a2 H1 H2 Hcount.
    apply refusal_lowers_confidence; try assumption. lia.
  - intros before after keyword Hkw Hplain.
    apply refusal_lowers_confidence; try assumption.
    + now apply refusal_flag_insert.
    + destruct (refusal_keywords_plain keyword Hkw) as [Hk1 Hk2].
      now apply cited_count_insert.
Qed.

Lemma confidence_unit_and_refusal_lowers_witness :
  0 <= _calculate_confidence [evidence 1 1 (8 # 10); evidence 2 1 (8 # 10)]
         cites_1_2 <= 1
  /\ _calculate_confidence [evidence 1 1 (8 # 10); evidence 2 1 (8 # 10)]
       (cites_1_2 ++ [35777; 25454; 19981; 36275]%N ++ [])
     < _calculate_confidence [evidence 1 1 (8 # 10); evidence 2 1 (8 # 10)]
         (cites_1_2 ++ []).
Proof.
  pose proof (confidence_unit_and_refusal_lowers
                [evidence 1 1 (8 # 10); evidence 2 1 (8 # 10)]) as H.
  destruct H as [Hunit Hlower]; [discriminate|].
  split; [apply Hunit|].
  destruct Hlower as [_ Hinsert].
  - repeat constructor; simpl; unfold Qle; simpl; lia.
  - apply Hinsert; [now left | reflexivity].
Defined.

End ConfidenceClaims.

(* ================================================================= *)
(** ** Citations *)

Module CitationClaims.
Import PyStr PyNum Rag RagSpec.

(** What [cite] does: a number in [1, evidence_count] is cited with the
    evidence item at that position, every other number is ignored. *)
Lemma cite_spec (chunk_details : list Detail) (num_str : str) :
  let num := int_of_digits num_str in
  (1 <= num <= Z.of_nat (length chunk_details)
   /\ exists detail : Detail,
        nth_error chunk_details (Z.to_nat (num - 1)) = Some detail
        /\ cite chunk_details num_str = Appended (citation_of detail))
  \/ (~ 1 <= num <= Z.of_nat (length chunk_details)
      /\ cite chunk_details num_str = Ignored).
Proof.
  cbv zeta. unfold cite.
  destruct (Z.leb_spec 1 (int_of_digits num_str)) as [H1|H1];
    [|right; split; [lia | reflexivity]].
  destruct (Z.leb_spec (int_of_digits num_str)
              (Z.of_nat (length chunk_details))) as [H2|H2];
    [|right; split; [lia | reflexivity]].
  left. split; [lia|]. cbn [andb].
  destruct (nth_error chunk_details (Z.to_nat (int_of_digits num_str - 1)))
    as [detail|] eqn:E.
  - exists detail. split; reflexivity.
  - apply nth_error_None in E. lia.
Qed.

(** The index the extractor uses is in bounds: the [IndexError] branch is
    never taken. *)
Lemma cite_never_raises (chunk_details : list Detail) (num_str : str) :
  cite chunk_details num_str <> RaisedIndexError.
Proof.
  destruct (cite_spec chunk_details num_str)
    as [[_ [detail [_ ->]]]|[_ ->]]; discriminate.
Qed.

(** Every citation returned is that of the evidence item at a position
    [n] in [1, evidence_count] that the answer refers to. *)
Lemma extract_citations_in_range (chunk_details : list Detail) (answer : str)
    (c : Citation) :
  In c (_extract_citations chunk_details answer) ->
  exists (num_str : str) (detail : Detail),
    In num_str (findall_citations answer)
    /\ 1 <= int_of_digits num_str <= Z.of_nat (length chunk_details)
    /\ nth_error chunk_details (Z.to_nat (int_of_digits num_str - 1))
       = Some detail
    /\ c = citation_of detail.
Proof.
  unfold _extract_citations. intros Hc.
  apply in_flat_map in Hc. destruct Hc as [num_str [Hin Hc]].
  apply nodup_In in Hin.
  destruct (cite_spec chunk_details num_str)
    as [[Hrange [detail [Hnth Hcite]]]|[_ Hcite]];
    rewrite Hcite in Hc; [|destruct Hc].
  destruct Hc as [<-|[]].
  exists num_str, detail. repeat split; try assumption; lia.
Qed.

Lemma extract_citations_in_range_witness :
  exists (num_str : str) (detail : Detail),
    In num_str (findall_citations cites_1_2)
    /\ 1 <= int_of_digits num_str <= Z.of_nat (length [evidence 7 3 1])
    /\ nth_error [evidence 7 3 1] (Z.to_nat (int_of_digits num_str - 1))
       = Some detail
    /\ citation_of (evidence 7 3 1) = citation_of detail.
Proof.
  apply (extract_citations_in_range [evidence 7 3 1] cites_1_2).
  left. reflexivity.
Defined.

(** There is one citation for each distinct matched string whose number
    is in range. *)
Lemma extract_citations_length (chunk_details : list Detail) (answer : str) :
  length (_extract_citations chunk_details answer)
  = length
      (filter
         (fun num_str =>
            (1 <=? int_of_digits num_str)
            && (int_of_digits num_str <=? Z.of_nat (length chunk_details)))
         (pyset (findall_citations answer))).
Proof.
  unfold _extract_citations.
  induction (pyset (findall_citations answer)) as [|num_str l IH];
    [reflexivity|].
  cbn [flat_map filter]. rewrite length_app, IH.
  destruct (cite_spec chunk_details num_str)
    as [[Hrange [detail [_ ->]]]|[Hrange ->]].
  - replace ((1 <=? int_of_digits num_str)
             && (int_of_digits num_str <=? Z.of_nat (length chunk_details)))
      with true; [reflexivity|].
    symmetry. apply andb_true_intro. split; apply Z.leb_le; lia.
  - replace ((1 <=? int_of_digits num_str)
             && (int_of_digits num_str <=? Z.of_nat (length chunk_details)))
      with false; [reflexivity|].
    symmetry. apply andb_false_iff.
    destruct (Z.leb_spec 1 (int_of_digits num_str)); [|now left].
    right. apply Z.leb_gt. lia.
Qed.

(** C7.  Repetitions are removed from the matched strings, not from the
    numbers they denote: with one evidence item, the answer "[1][01]"
    holds the two distinct strings "1" and "01", both denote 1, and the
    extractor returns two citations of the one evidence item. *)
Theorem citations_repeat_for_padded_number :
  findall_citations cites_1_01 = [[49%N]; [48%N; 49%N]]
  /\ map int_of_digits (findall_citations cites_1_01) = [1; 1]
  /\ map chunk_id (_extract_citations [evidence 7 3 1] cites_1_01) = [7; 7]
  /\ length (_extract_citations [evidence 7 3 1] cites_1_01) = 2%nat.
Proof. repeat split. Qed.

End CitationClaims.

(* ================================================================= *)
(** ** Low-confidence answers *)

Module AnswerClaims.
Import PyStr PyNum PyNumFacts Rag RagSpec.

(** In whole-response mode an answer below the threshold is returned as
    generated, with the clarifying prompts, and the QA log is left as it
    was. *)
Lemma generate_answer_low_confidence (self : RAGService) (db : Db)
    (user_id course_id : Z) (question answer : str)
    (chunk_details : list Detail) :
  (_calculate_confidence chunk_details answer < confidence_threshold self)%Q ->
  _generate_answer self db user_id course_id question (Completed answer)
    chunk_details
  = (inr {| r_qa_id := None;
            r_answer := answer;
            r_confidence := _calculate_confidence chunk_details answer;
            r_citations := _extract_citations chunk_details answer;
            r_followups := clarifying_prompts |},
     db).
Proof.
  intros Hlow. unfold _generate_answer.
  destruct (Qltb_spec (_calculate_confidence chunk_details answer)
              (confidence_threshold self)) as [_|Hge]; [reflexivity|].
  exfalso. apply (Qlt_not_le _ _ Hlow Hge).
Qed.

Lemma generate_answer_low_confidence_witness :
  _generate_answer {| confidence_threshold := settings.CONFIDENCE_THRESHOLD |}
    {| qa_logs := []; next_id := 1 |} 1 1 [63%N] (Completed [97%N; 98%N])
    [evidence 7 3 0]
  = (inr {| r_qa_id := None;
            r_answer := [97%N; 98%N];
            r_confidence := _calculate_confidence [evidence 7 3 0] [97%N; 98%N];
            r_citations := _extract_citations [evidence 7 3 0] [97%N; 98%N];
            r_followups := clarifying_prompts |},
     {| qa_logs := []; next_id := 1 |}).
Proof.
  apply generate_answer_low_confidence.
  unfold Qlt. simpl. lia.
Defined.

(** In streaming mode every answer that is generated is logged, whatever
    its confidence. *)
Lemma generate_answer_stream_logs (self : RAGService) (db : Db)
    (user_id course_id : Z) (question : str) (deltas : list str)
    (chunk_details : list Detail) :
  let full_answer := concat deltas in
  let confidence := _calculate_confidence chunk_details full_answer in
  let citations := _extract_citations chunk_details full_answer in
  _generate_answer_stream db user_id course_id question deltas None
    chunk_details
  = (map Delta deltas ++ [Final (next_id db) confidence citations],
     {| qa_logs :=
          qa_logs db ++
            [ {| log_id := next_id db;
                 log_user_id := user_id;
                 log_course_id := course_id;
                 log_question := question;
                 log_answer := full_answer;
                 log_citations_json := citations;
                 log_confidence := confidence |} ];
        next_id := next_id db + 1 |}).
Proof. reflexivity. Qed.

(** C6.  The streaming mode does not check the confidence.  With the
    default threshold 0.45, one evidence item of score 0 and a streamed
    answer without references, the confidence is 0.2: the whole-response
    mode leaves the QA log empty, the streaming mode adds a record to it
    and sends its key in the final event. *)
Theorem stream_logs_low_confidence_answer :
  let self := {| confidence_threshold := settings.CONFIDENCE_THRESHOLD |} in
  let db := {| qa_logs := []; next_id := 1 |} in
  let chunk_details := [evidence 7 3 0] in
  let deltas := [[97%N]; [98%N]] in
  Qltb (_calculate_confidence chunk_details (concat deltas))
    (confidence_threshold self) = true
  /\ qa_logs (snd (_generate_answer self db 1 1 [63%N]
                     (Completed (concat deltas)) chunk_details)) = []
  /\ map log_answer
       (qa_logs (snd (_generate_answer_stream db 1 1 [63%N] deltas None
                        chunk_details)))
     = [[97%N; 98%N]]
  /\ exists confidence : Q,
       fst (_generate_answer_stream db 1 1 [63%N] deltas None chunk_details)
       = [Delta [97%N]; Delta [98%N]; Final 1 confidence []]
       /\ (confidence == 2 # 10)%Q.
Proof.
  cbv zeta. split; [reflexivity|]. split; [reflexivity|].
  split; [reflexivity|].
  eexists. split; reflexivity.
Qed.

End AnswerClaims.

(* ================================================================= *)
(** ** The windows of the splitter: coverage and overlap *)

Module SplitterProps.
Import PyStr PyStrFacts Chunker ChunkerSpec SplitFacts ChunkerFacts.

(** The character at position [p] of a text is the character at offset
    [p - s] of every slice [t[s:e]] with [s <= p < e]. *)
Lemma slice_nth (t : str) (s e p : Z) :
  0 <= s -> s <= p < e -> p < len t ->
  nth_error (slice t s e) (Z.to_nat (p - s)) = nth_error t (Z.to_nat p).
Proof.
  intros Hs Hp Hlen. unfold slice, adjust.
  destruct (Z.ltb_spec s 0); [lia|].
  destruct (Z.ltb_spec e 0); [lia|].
  rewrite nth_error_firstn.
  destruct (Nat.ltb_spec (Z.to_nat (p - s))
              (Z.to_nat (Z.min e (len t) - Z.min s (len t)))) as [_|Hge];
    [|lia].
  rewrite nth_error_skipn. f_equal. lia.
Qed.

Section WithChunker.

Variable self : TextChunker.

Local Abbreviation cs := (chunk_size self).
Local Abbreviation ov := (overlap self).

(** When the cursor advances by no more than a window, the windows leave
    no gap. *)
Lemma split_cuts_cover (fuel : nat) (t : str) :
  stride self <= cs ->
  forall (start : Z) (cuts : list (Z * Z)) (p : Z),
    split_cuts self fuel t start = Some cuts ->
    start <= p < len t ->
    exists c : Z * Z, In c cuts /\ fst c <= p < snd c.
Proof.
  intros Hstride.
  induction fuel as [|fuel IH]; intros start cuts p H Hp; [discriminate|].
  simpl in H.
  destruct (Z.ltb_spec start (len t)) as [_|Hge]; [|lia].
  rewrite cut_end_window in H.
  destruct (Z.geb_spec (start + cs) (len t)) as [Hlast|Hmore].
  - inversion H; subst. exists (start, start + cs). simpl. split; [now left|lia].
  - replace (Z.max (start + 1) (start + cs - ov)) with (start + stride self) in H
      by (unfold stride; lia).
    destruct (split_cuts self fuel t (start + stride self)) as [cuts'|] eqn:E;
      [|discriminate].
    simpl in H. inversion H; subst.
    destruct (Z.lt_ge_cases p (start + cs)) as [Hin|Hout].
    + exists (start, start + cs). simpl. split; [now left|lia].
    + destruct (IH _ _ p E) as [c [Hc Hpc]]; [lia|].
      exists c. split; [now right | exact Hpc].
Qed.

Lemma cuts_from_app (pre l : list (Z * Z)) :
  forall start : Z,
    cuts_from self start (pre ++ l) ->
    exists start' : Z, start <= start' /\ cuts_from self start' l.
Proof.
  induction pre as [|c pre IH]; intros start H; simpl in H.
  - exists start. split; [lia | exact H].
  - inversion H as [|? ? Hrest]; subst.
    destruct (IH _ Hrest) as [start' [Hle Hfrom]].
    pose proof (stride_pos self).
    exists start'. split; [lia | exact Hfrom].
Qed.

(** Every window starts inside the text, at or after the cursor. *)
Lemma split_cuts_starts (fuel : nat) (t : str) :
  forall (start : Z) (cuts : list (Z * Z)),
    split_cuts self fuel t start = Some cuts ->
    Forall (fun c : Z * Z => start <= fst c < len t) cuts.
Proof.
  induction fuel as [|fuel IH]; intros start cuts H; [discriminate|].
  simpl in H.
  destruct (Z.ltb_spec start (len t)) as [Hlt|Hge].
  2:{ inversion H. constructor. }
  rewrite cut_end_window in H.
  destruct (start + cs >=? len t).
  { inversion H. repeat constructor; simpl; lia. }
  destruct (split_cuts self fuel t _) as [cuts'|] eqn:E; [|discriminate].
  simpl in H. inversion H; subst.
  constructor; [simpl; lia|].
  eapply Forall_impl; [|apply (IH _ _ E)].
  simpl. intros c Hc. lia.
Qed.

End WithChunker.

(** With a chunk size of at least one character and an overlap that is not
    negative, the splitter loses no character of a long text: every
    position of the text lies in one of the windows the loop cuts, a
    window of [chunk_size] characters, and the character there is the
    character at the matching offset of the slice the chunk is trimmed
    from. *)
Theorem splitter_windows_cover_text (self : TextChunker) (t : str) :
  1 <= chunk_size self -> 0 <= overlap self -> len t > chunk_size self ->
  exists cuts : list (Z * Z),
    split_cuts self (S (length t)) t 0 = Some cuts
    /\ _split_text_with_overlap self t = chunks_of_cuts t cuts
    /\ forall p : Z,
         0 <= p < len t ->
         exists s e : Z,
           In (s, e) cuts
           /\ 0 <= s <= p /\ p < e /\ e = s + chunk_size self
           /\ nth_error (slice t s e) (Z.to_nat (p - s))
              = nth_error t (Z.to_nat p).
Proof.
  intros Hcs Hov Hlong.
  destruct (split_cuts_total self (S (length t)) t 0) as [cuts Hcuts];
    [unfold len; lia|].
  exists cuts. split; [exact Hcuts|]. split.
  - unfold _split_text_with_overlap, split_with_fuel.
    destruct (Z.leb_spec (len t) (chunk_size self)); [lia|].
    rewrite split_loop_cuts, Hcuts. reflexivity.
  - intros p Hp.
    destruct (split_cuts_cover self (S (length t)) t) with (2 := Hcuts) (p := p)
      as [[s e] [Hc Hpc]]; [unfold stride; lia | lia |].
    simpl in Hpc.
    destruct (split_cuts_from self _ _ _ _ Hcuts) as [Hfrom _].
    apply cuts_from_starts in Hfrom. rewrite Forall_forall in Hfrom.
    specialize (Hfrom _ Hc). simpl in Hfrom.
    exists s, e. split; [exact Hc|].
    repeat split; try lia.
    apply slice_nth; lia.
Qed.

Lemma splitter_windows_cover_text_witness :
  let self := {| chunk_size := 4; overlap := 1 |} in
  let t := [97; 98; 99; 100; 101; 102; 103; 104; 105; 106]%N in
  exists cuts : list (Z * Z),
    split_cuts self (S (length t)) t 0 = Some cuts
    /\ _split_text_with_overlap self t = chunks_of_cuts t cuts
    /\ forall p : Z,
         0 <= p < len t ->
         exists s e : Z,
           In (s, e) cuts
           /\ 0 <= s <= p /\ p < e /\ e = s + chunk_size self
           /\ nth_error (slice t s e) (Z.to_nat (p - s))
              = nth_error t (Z.to_nat p).
Proof.
  intros self t.
  apply (splitter_windows_cover_text self t); vm_compute; congruence.
Defined.

(** With an overlap smaller than the chunk size, each window of the
    splitter starts exactly [overlap] characters before the end of the
    window before it, and both are [chunk_size] characters wide: two
    consecutive windows share [overlap] characters when the overlap is
    positive, and leave [- overlap] characters out when it is negative. *)
Theorem consecutive_windows_share_overlap (self : TextChunker) (t : str)
    (pre post : list (Z * Z)) (s1 e1 s2 e2 : Z) :
  overlap self < chunk_size self ->
  split_cuts self (S (length t)) t 0
  = Some (pre ++ (s1, e1) :: (s2, e2) :: post) ->
  s2 = e1 - overlap self
  /\ e1 = s1 + chunk_size self
  /\ e2 = s2 + chunk_size self
  /\ 0 <= s1 < len t.
Proof.
  intros Hov Hcuts.
  assert (Hlen : 0 <= s1 < len t).
  { pose proof (split_cuts_starts self _ _ _ _ Hcuts) as Hstarts.
    rewrite Forall_forall in Hstarts.
    apply (Hstarts (s1, e1)). apply in_or_app. right. now left. }
  destruct (split_cuts_from self _ _ _ _ Hcuts) as [Hfrom _].
  apply cuts_from_app in Hfrom. destruct Hfrom as [start' [_ Hfrom]].
  inversion Hfrom as [|? ? Hrest]; subst.
  inversion Hrest; subst.
  unfold stride. repeat split; lia.
Qed.

Lemma consecutive_windows_share_overlap_witness :
  let self := {| chunk_size := 4; overlap := 1 |} in
  let t := [97; 98; 99; 100; 101; 102; 103; 104; 105; 106]%N in
  split_cuts self (S (length t)) t 0 = Some [(0, 4); (3, 7); (6, 10)]
  /\ 3 = 4 - overlap self
  /\ 4 = 0 + chunk_size self
  /\ 7 = 3 + chunk_size self
  /\ 0 <= 0 < len t.
Proof.
  intros self t. split; [reflexivity|].
  apply (consecutive_windows_share_overlap self t [] [(6, 10)] 0 4 3 7).
  - vm_compute. reflexivity.
  - reflexivity.
Defined.

End SplitterProps.

(* ================================================================= *)
(** ** Trimming, joining and printing *)

Module TextFacts.
Import PyStr PyStrFacts PyText ProvenanceSpec.

Lemma str_eqb_eq (a b : str) : str_eqb a b = true <-> a = b.
Proof.
  revert b. induction a as [|x a IH]; intros [|y b]; simpl;
    try (split; [discriminate | discriminate]); [tauto|].
  unfold char_eqb. rewrite andb_true_iff, N.eqb_eq, IH.
  split; [intros [-> ->]; reflexivity | intros H; inversion H; auto].
Qed.

Lemma str_eqb_neq (a b : str) : a <> b -> str_eqb a b = false.
Proof.
  intros H. destruct (str_eqb a b) eqn:E; [|reflexivity].
  apply str_eqb_eq in E. contradiction.
Qed.

(** *** [strip] *)

Lemma lstrip_head (t : str) : head_ok t -> lstrip t = t.
Proof. destruct t as [|c t]; simpl; [tauto|]. now intros ->. Qed.

Lemma lstrip_idem (t : str) : lstrip (lstrip t) = lstrip t.
Proof.
  induction t as [|c t IH]; simpl; [reflexivity|].
  destruct (isspace c) eqn:E; [exact IH|]. simpl. now rewrite E.
Qed.

Lemma lstrip_truthy_head (t : str) : lstrip t <> [] -> head_ok (lstrip t).
Proof.
  induction t as [|c t IH]; simpl; [congruence|].
  destruct (isspace c) eqn:E; [exact IH|]. intros _. exact E.
Qed.

Lemma lstrip_fixed (t : str) : t <> [] -> lstrip t = t -> head_ok t.
Proof.
  intros Hne H. rewrite <- H. apply lstrip_truthy_head. now rewrite H.
Qed.

(** A character that is not white space stops the trimming. *)
Lemma lstrip_app_nonspace (x : str) (c : char) (y : str) :
  isspace c = false ->
  exists x' : str, lstrip (x ++ c :: y) = x' ++ c :: y.
Proof.
  intros Hc. induction x as [|a x IH]; simpl.
  - rewrite Hc. now exists [].
  - destruct (isspace a); [exact IH|]. now exists (a :: x).
Qed.

Lemma rstrip_keeps_head (t : str) : head_ok t -> head_ok (rstrip t).
Proof.
  destruct t as [|c t]; simpl; [tauto|]. intros Hc.
  unfold rstrip. simpl rev.
  destruct (lstrip_app_nonspace (rev t) c [] Hc) as [x' ->].
  rewrite rev_app_distr. simpl. exact Hc.
Qed.

Lemma rstrip_fixed (t : str) : head_ok (rev t) -> rstrip t = t.
Proof.
  intros H. unfold rstrip. rewrite (lstrip_head _ H). apply rev_involutive.
Qed.

Lemma rstrip_nil_or_last (t : str) : rstrip t = [] \/ head_ok (rev (rstrip t)).
Proof.
  unfold rstrip. rewrite rev_involutive.
  destruct (lstrip (rev t)) as [|c u] eqn:E; [now left|].
  right. rewrite <- E. apply lstrip_truthy_head. congruence.
Qed.

(** A text is trimmed when its first and last characters are not white
    space. *)
Lemma trimmed_ends (t : str) : trimmed t <-> head_ok t /\ head_ok (rev t).
Proof.
  unfold trimmed, strip. split.
  - intros [Hne H].
    assert (Hl : lstrip t = t).
    { pose proof (lstrip_length t) as H1.
      assert (H2 : (length (rstrip (lstrip t)) <= length (lstrip t))%nat).
      { unfold rstrip. rewrite length_rev.
        eapply Nat.le_trans; [apply lstrip_length|]. now rewrite length_rev. }
      rewrite H in H2.
      clear H. revert H1 H2. destruct t as [|c t]; simpl; [reflexivity|].
      destruct (isspace c); [|reflexivity].
      intros H1 H2. pose proof (lstrip_length t). simpl in *. lia. }
    rewrite Hl in H. split; [now apply lstrip_fixed|].
    destruct (rstrip_nil_or_last t) as [E|E]; rewrite H in E;
      [contradiction | exact E].
  - intros [Hh Hl]. split; [now destruct t|].
    rewrite (lstrip_head _ Hh). now apply rstrip_fixed.
Qed.

(** What [strip] leaves, when it leaves something, is trimmed. *)
Lemma strip_trimmed (t : str) : strip t <> [] -> trimmed (strip t).
Proof.
  intros Hne. apply trimmed_ends. unfold strip in *.
  assert (Hl : lstrip t <> []).
  { intros E. apply Hne. rewrite E. reflexivity. }
  split.
  - apply rstrip_keeps_head. now apply lstrip_truthy_head.
  - destruct (rstrip_nil_or_last (lstrip t)) as [E|E];
      [contradiction | exact E].
Qed.

Lemma truthy_ne (t : str) : truthy t = true <-> t <> [].
Proof. destruct t; simpl; split; congruence. Qed.

Lemma strip_idem (t : str) : strip (strip t) = strip t.
Proof.
  destruct (strip t) as [|c u] eqn:E; [reflexivity|].
  rewrite <- E. apply strip_trimmed. congruence.
Qed.

(** *** [join] *)

Lemma join_cons (sep t : str) (l : list str) :
  l <> [] -> join sep (t :: l) = t ++ sep ++ join sep l.
Proof. destruct l; [congruence | reflexivity]. Qed.

Lemma join_snoc (sep : str) (l : list str) (t : str) :
  l <> [] -> join sep (l ++ [t]) = join sep l ++ sep ++ t.
Proof.
  induction l as [|a l IH]; [congruence|]. intros _.
  destruct l as [|b l]; [reflexivity|].
  change ((a :: b :: l) ++ [t]) with (a :: ((b :: l) ++ [t])).
  rewrite (join_cons sep a ((b :: l) ++ [t])) by (simpl; discriminate).
  rewrite IH by discriminate.
  rewrite (join_cons sep a (b :: l)) by discriminate.
  now rewrite <- !app_assoc.
Qed.

Lemma head_ok_app (t u : str) : head_ok t -> head_ok (t ++ u).
Proof. destruct t; simpl; tauto. Qed.

(** Trimmed texts, joined, are a trimmed text. *)
Lemma join_trimmed (sep : str) (l : list str) :
  l <> [] -> Forall trimmed l -> trimmed (join sep l).
Proof.
  intros Hne Hall. apply trimmed_ends.
  induction l as [|t l IH]; [congruence|].
  inversion Hall as [|? ? Ht Hrest]; subst.
  apply trimmed_ends in Ht. destruct Ht as [Hh Hl].
  destruct l as [|u l]; [split; assumption|].
  rewrite join_cons by discriminate.
  assert (Hne' : u :: l <> []) by discriminate.
  destruct (IH Hne' Hrest) as [_ IHl].
  split; [now apply head_ok_app|].
  rewrite !rev_app_distr. apply head_ok_app, head_ok_app. exact IHl.
Qed.

(** *** [str] of an integer *)

Lemma uint_digits_inj (d d' : Decimal.uint) :
  uint_digits d = uint_digits d' -> d = d'.
Proof.
  revert d'. induction d; intros d' H; destruct d'; simpl in H;
    try discriminate; try reflexivity;
    inversion H as [H']; f_equal; now apply IHd.
Qed.

Lemma uint_digits_head (d : Decimal.uint) :
  match uint_digits d with
  | [] => True
  | c :: _ => (48 <= c <= 57)%N
  end.
Proof. destruct d; simpl; lia. Qed.

Lemma str_of_int_inj (n m : Z) : str_of_int n = str_of_int m -> n = m.
Proof.
  unfold str_of_int. intros H.
  rewrite <- (DecimalZ.of_to n), <- (DecimalZ.of_to m).
  f_equal.
  destruct (Z.to_int n) as [d|d], (Z.to_int m) as [d'|d'].
  - f_equal. now apply uint_digits_inj.
  - pose proof (uint_digits_head d) as Hd. rewrite H in Hd. simpl in Hd. lia.
  - pose proof (uint_digits_head d') as Hd. rewrite <- H in Hd. simpl in Hd. lia.
  - inversion H as [H']. f_equal. now apply uint_digits_inj.
Qed.

End TextFacts.

(* ================================================================= *)
(** ** What the chunks are made of *)

Module ChunkerProps.
Import PyStr PyStrFacts PyText Chunker ChunkerSpec ProvenanceSpec.
Import SplitFacts ChunkerFacts TextFacts.

Section WithChunker.

Variable self : TextChunker.

Local Abbreviation cs := (chunk_size self).

(** A part of a long text is trimmed: the loop drops the windows that are
    white space only. *)
Lemma split_parts_trimmed (t part : str) :
  In part (_split_text_with_overlap self t) ->
  (len t <= cs /\ part = t) \/ (len t > cs /\ trimmed part).
Proof.
  unfold _split_text_with_overlap, split_with_fuel.
  destruct (Z.leb_spec (len t) cs) as [Hle|Hgt].
  - simpl. intros [<-|[]]. now left.
  - rewrite split_loop_cuts.
    destruct (split_cuts self (S (length t)) t 0) as [cuts|]; simpl;
      [|intros []].
    intros Hin. right. split; [lia|].
    unfold chunks_of_cuts in Hin.
    apply in_flat_map in Hin. destruct Hin as [[s e] [_ Hpart]].
    simpl in Hpart.
    destruct (truthy (strip (slice t s e))) eqn:Et; [|destruct Hpart].
    destruct Hpart as [<-|[]].
    apply strip_trimmed. now apply truthy_ne.
Qed.

Lemma append_parts_Forall (P : TextChunk -> Prop)
    (mk : Z -> Z -> str -> TextChunk) (parts : list str)
    (chunks : list TextChunk) (chunk_index : Z) :
  Forall P chunks ->
  (forall (k i : Z) (t : str), In t parts -> P (mk k i t)) ->
  Forall P (fst (append_parts mk parts chunks chunk_index)).
Proof.
  unfold append_parts, enumerate. generalize 0 as j.
  revert chunks chunk_index.
  induction parts as [|t parts IH]; intros chunks chunk_index j Hc Hmk;
    simpl; [exact Hc|].
  apply IH.
  - apply Forall_app. split; [exact Hc|].
    constructor; [|constructor]. apply Hmk. now left.
  - intros k i t' Ht'. apply Hmk. now right.
Qed.

(** *** The paragraph strategy *)

Lemma origin_mono (done rest : list Block) (c : TextChunk) :
  origin self done c -> origin self (done ++ rest) c.
Proof.
  intros [bs [Hne (pre & post & ->)] Hsec Htext | b Hb Hlong Hpart Hsec].
  - apply from_buffer with bs; [|exact Hsec | exact Htext].
    split; [exact Hne|]. exists pre, (post ++ rest).
    now rewrite <- !app_assoc.
  - apply from_part with b; try assumption. apply in_or_app. now left.
Qed.

Lemma buffer_flushed (done : list Block) (section buffer : str)
    (chunk_index : Z) (meta : Metadata) :
  buffer_of done section buffer ->
  Ingest.meta_section meta = section ->
  origin self done (flushed chunk_index buffer meta).
Proof.
  intros (bs & Hne & [pre ->] & Hsec & ->) Hmeta.
  apply from_buffer with bs.
  - split; [exact Hne|]. exists pre, []. now rewrite app_nil_r.
  - simpl. now rewrite Hmeta.
  - reflexivity.
Qed.

Lemma buffer_started (done : list Block) (b : Block) :
  buffer_of (done ++ [b]) (b_section b) (b_text b).
Proof.
  exists [b]. split; [discriminate|]. split; [now exists done|].
  split; [now repeat constructor | reflexivity].
Qed.

Lemma buffer_extended (done : list Block) (b : Block) (buffer : str) :
  buffer_of done (b_section b) buffer ->
  buffer_of (done ++ [b]) (b_section b) (buffer ++ newline ++ b_text b).
Proof.
  intros (bs & Hne & [pre ->] & Hsec & ->).
  exists (bs ++ [b]). split; [now destruct bs|].
  split; [exists pre; now rewrite app_assoc|].
  split.
  - apply Forall_app. split; [exact Hsec | now repeat constructor].
  - rewrite map_app. simpl map. rewrite join_snoc; [reflexivity|].
    now destruct bs.
Qed.

Lemma para_step_origin (done : list Block) (st : ParaState) (b : Block) :
  origin_inv self done st -> origin_inv self (done ++ [b]) (para_step self st b).
Proof.
  intros [Hchunks Hbuf].
  unfold para_step.
  set (st1 := if negb (str_eqb (b_section b) (ps_current_section st))
                 && truthy (ps_current_chunk st) then _ else st).
  assert (H1 : Forall (origin self done) (ps_chunks st1)
               /\ (truthy (ps_current_chunk st1) = true ->
                   buffer_of done (b_section b) (ps_current_chunk st1))).
  { subst st1.
    destruct (str_eqb (b_section b) (ps_current_section st)) eqn:Esec; simpl.
    - apply str_eqb_eq in Esec. split; [exact Hchunks|].
      intros Ht. rewrite Esec. now apply Hbuf.
    - destruct (truthy (ps_current_chunk st)) eqn:Et; simpl.
      + split; [|discriminate].
        apply Forall_app. split; [exact Hchunks|].
        constructor; [|constructor].
        destruct (Hbuf eq_refl) as [Hb Hm].
        now apply buffer_flushed with (ps_current_section st).
      + split; [exact Hchunks | congruence]. }
  clearbody st1. clear Hchunks Hbuf st.
  destruct H1 as [Hchunks Hbuf].
  set (meta := [(_, MText (b_section b)); _; _]).
  assert (Hmeta : Ingest.meta_section meta = b_section b) by reflexivity.
  assert (Hmono : Forall (origin self (done ++ [b])) (ps_chunks st1)).
  { eapply Forall_impl; [|exact Hchunks]. intros c. apply origin_mono. }
  destruct (Z.gtb_spec (len (ps_current_chunk st1 ++ newline ++ b_text b)) cs)
    as [Hover|Hfit].
  - assert (Hflush :
      Forall (origin self (done ++ [b]))
        (fst (if truthy (ps_current_chunk st1)
              then (ps_chunks st1 ++
                      [flushed (ps_chunk_index st1) (ps_current_chunk st1) meta],
                    ps_chunk_index st1 + 1)
              else (ps_chunks st1, ps_chunk_index st1)))).
    { destruct (truthy (ps_current_chunk st1)) eqn:Et; simpl; [|exact Hmono].
      apply Forall_app. split; [exact Hmono|].
      constructor; [|constructor].
      apply origin_mono.
      now apply buffer_flushed with (b_section b); [apply Hbuf|]. }
    destruct (if truthy (ps_current_chunk st1) then _ else _)
      as [chunks chunk_index].
    simpl in Hflush.
    destruct (Z.gtb_spec (len (b_text b)) cs) as [Hlong|Hshort].
    + pose proof (append_parts_Forall (origin self (done ++ [b]))
        (fun chunk_index i chunk_text =>
           {| index := chunk_index;
              text := chunk_text;
              metadata := meta ++ [("part"%string, MInt (i + 1))];
              start_offset := 0;
              end_offset := len chunk_text |})
        (_split_text_with_overlap self (b_text b)) chunks chunk_index
        Hflush) as Hparts.
      destruct (append_parts _ _ chunks chunk_index) as [chunks' index'].
      split; simpl; [|discriminate].
      apply Hparts. intros k i t Ht.
      apply from_part with b; simpl.
      * apply in_or_app. right. now left.
      * lia.
      * exact Ht.
      * reflexivity.
    + split; simpl; [exact Hflush|].
      intros _. split; [apply buffer_started | reflexivity].
  - split; [exact Hmono|].
    cbn [ps_current_chunk ps_current_section ps_current_metadata].
    intros Ht. split; [|reflexivity].
    destruct (truthy (ps_current_chunk st1)) eqn:Et.
    + apply buffer_extended. now apply Hbuf.
    + apply buffer_started.
Qed.

Lemma fold_para_origin (rest : list Block) :
  forall (done : list Block) (st : ParaState),
    origin_inv self done st ->
    origin_inv self (done ++ rest) (fold_left (para_step self) rest st).
Proof.
  induction rest as [|b rest IH]; intros done st H; simpl.
  - now rewrite app_nil_r.
  - replace (done ++ b :: rest) with ((done ++ [b]) ++ rest)
      by now rewrite <- app_assoc.
    apply IH. now apply para_step_origin.
Qed.

Lemma chunk_paragraph_content_origin (blocks : list Block) :
  Forall (origin self blocks) (_chunk_paragraph_content self blocks).
Proof.
  unfold _chunk_paragraph_content.
  set (st := fold_left (para_step self) blocks _).
  assert (H : origin_inv self blocks st).
  { subst st. apply (fold_para_origin blocks []).
    split; simpl; [constructor | discriminate]. }
  clearbody st. destruct H as [Hchunks Hbuf].
  destruct (truthy (ps_current_chunk st)) eqn:Et; [|exact Hchunks].
  apply Forall_app. split; [exact Hchunks|].
  constructor; [|constructor].
  destruct (Hbuf eq_refl) as [Hb Hm].
  now apply buffer_flushed with (ps_current_section st).
Qed.

(** *** Slides that fit *)

Lemma fitting_slides_steps (blocks : list Block) :
  Forall (fun b => len (b_text b) <= cs) blocks ->
  forall (i : Z) (chunks : list TextChunk),
    map index (fold_left (slide_step self) (enumerate_from i blocks) chunks)
    = map index chunks
      ++ map (fun k => i + Z.of_nat k) (seq 0 (length blocks))
    /\ map text (fold_left (slide_step self) (enumerate_from i blocks) chunks)
       = map text chunks ++ map b_text blocks.
Proof.
  induction 1 as [|b blocks Hb _ IH]; intros i chunks; simpl.
  - now rewrite !app_nil_r.
  - destruct (Z.leb_spec (len (b_text b)) cs) as [_|Hgt]; [|lia].
    destruct (IH (i + 1) (chunks ++
      [ {| index := i; text := b_text b;
           metadata := [ ("section", MText (b_section b));
                         ("slide", MInt (b_slide b));
                         ("chunk_type", MTag "slide") ]%string;
           start_offset := 0; end_offset := len (b_text b) |} ]))
      as [Hi Ht].
    rewrite Hi, Ht, !map_app. simpl map. rewrite <- !app_assoc. simpl app.
    split; [|reflexivity].
    do 2 f_equal; [lia|].
    rewrite <- seq_shift, map_map. apply map_ext. intros k. lia.
Qed.

End WithChunker.



(** A chunk of the paragraph strategy never mixes sections: it is the
    trimmed join of a run of consecutive paragraphs that all have the
    section recorded in the chunk's metadata, or a part of one oversized
    paragraph of that section. *)
Theorem paragraph_chunks_keep_one_section (self : TextChunker)
    (blocks : list Block) :
  Forall (origin self blocks) (_chunk_paragraph_content self blocks).
Proof. apply chunk_paragraph_content_origin. Qed.

(** When every slide fits the chunk size, each slide is one chunk with
    its text unchanged and the chunks are numbered 0, 1, 2, ... *)
Theorem fitting_slides_are_numbered (self : TextChunker)
    (blocks : list Block) :
  Forall (fun b => len (b_text b) <= chunk_size self) blocks ->
  map text (_chunk_slide_content self blocks) = map b_text blocks
  /\ indices_contiguous (_chunk_slide_content self blocks).
Proof.
  intros Hfit.
  destruct (fitting_slides_steps self blocks Hfit 0 []) as [Hi Ht].
  change (fold_left (slide_step self) (enumerate_from 0 blocks) [])
    with (_chunk_slide_content self blocks) in Hi, Ht.
  simpl app in Hi, Ht.
  split; [exact Ht|].
  unfold indices_contiguous.
  assert (Hlen : length (_chunk_slide_content self blocks) = length blocks).
  { rewrite <- (length_map text), Ht. apply length_map. }
  rewrite Hi, Hlen.
  apply map_ext. intros k. lia.
Qed.

Lemma fitting_slides_are_numbered_witness :
  let self := {| chunk_size := 4; overlap := 1 |} in
  let blocks :=
    [ {| b_text := [97; 98]%N; b_section := [65%N];
         b_page := 0; b_slide := 1; b_paragraph := 0 |};
      {| b_text := [99%N]; b_section := [66%N];
         b_page := 0; b_slide := 3; b_paragraph := 0 |} ] in
  map text (_chunk_slide_content self blocks) = map b_text blocks
  /\ indices_contiguous (_chunk_slide_content self blocks).
Proof.
  intros self blocks. apply (fitting_slides_are_numbered self blocks).
  repeat constructor; vm_compute; discriminate.
Defined.

(** The chunker cannot be given a chunk size or an overlap of zero: a
    zero, like a missing argument, is replaced by the configured default,
    so a chunk policy that asks for no overlap gets an overlap of 120. *)
Theorem chunker_replaces_zero (chunk_size overlap : option Z) :
  Chunker.chunk_size (init chunk_size overlap) <> 0
  /\ Chunker.overlap (init chunk_size overlap) <> 0
  /\ init chunk_size (Some 0) = init chunk_size (Some settings.CHUNK_OVERLAP)
  /\ init (Some 0) overlap = init (Some settings.CHUNK_SIZE) overlap.
Proof.
  unfold init, int_or. simpl.
  repeat split.
  - destruct chunk_size as [v|]; [|discriminate].
    destruct (Z.eqb_spec v 0); [discriminate | assumption].
  - destruct overlap as [v|]; [|discriminate].
    destruct (Z.eqb_spec v 0); [discriminate | assumption].
Qed.

Lemma chunk_document_trimmed (self : TextChunker) (parsed_doc : ParsedDoc) :
  In (doc_type parsed_doc) ["pdf"; "docx"; "txt"; "pptx"; "markdown"]%string ->
  Forall (fun b => trimmed (b_text b)) (content parsed_doc) ->
  Forall (fun c => trimmed (text c)) (chunk_document self parsed_doc).
Proof.
  intros Htype Hblocks.
  assert (Hparts :
    forall chunks : list TextChunk,
      map text chunks
      = flat_map (_split_text_with_overlap self)
          (map b_text (content parsed_doc)) ->
      Forall (fun c => trimmed (text c)) chunks).
  { intros chunks Ht.
    rewrite <- Forall_map with (f := text) (P := trimmed), Ht.
    apply Forall_forall. intros part Hpart.
    apply in_flat_map in Hpart. destruct Hpart as [unit [Hunit Hpart]].
    destruct (split_parts_trimmed self _ _ Hpart) as [[_ ->]|[_ Htrim]];
      [|exact Htrim].
    apply in_map_iff in Hunit. destruct Hunit as [b [<- Hb]].
    rewrite Forall_forall in Hblocks. now apply Hblocks. }
  assert (Hpara :
    Forall (fun c => trimmed (text c))
      (_chunk_paragraph_content self (content parsed_doc))).
  { eapply Forall_impl; [|apply chunk_paragraph_content_origin].
    intros c [bs [Hne (pre & post & Hrun)] _ Htext | b Hb Hlong Hpart _].
    - rewrite Htext.
      assert (Hjoin : trimmed (join newline (map b_text bs))).
      { apply join_trimmed; [now destruct bs|].
        apply Forall_map. apply Forall_forall. intros b Hb.
        rewrite Forall_forall in Hblocks. apply Hblocks.
        rewrite Hrun. apply in_or_app. right. apply in_or_app. now left. }
      destruct Hjoin as [Hn Hs]. rewrite Hs. now split.
    - destruct (split_parts_trimmed self _ _ Hpart) as [[Hle _]|[_ Htrim]];
        [lia | exact Htrim]. }
  unfold chunk_document.
  destruct Htype as [<-|[<-|[<-|[<-|[<-|[]]]]]]; simpl.
  - apply Hparts, chunk_pdf_content_spec.
  - exact Hpara.
  - exact Hpara.
  - apply Hparts, chunk_slide_content_texts.
  - apply Hparts, chunk_markdown_content_spec.
Qed.

(** When every content block of a pdf, docx, txt, pptx or markdown
    document holds a text that is not empty and has no white space at its
    ends, so does every chunk: no empty chunk is produced, whatever the
    chunk size and the overlap. *)
Theorem trimmed_blocks_give_trimmed_chunks (self : TextChunker)
    (parsed_doc : ParsedDoc) :
  In (doc_type parsed_doc) ["pdf"; "docx"; "txt"; "pptx"; "markdown"]%string ->
  Forall (fun b => trimmed (b_text b)) (content parsed_doc) ->
  Forall (fun c => trimmed (text c)) (chunk_document self parsed_doc).
Proof. apply chunk_document_trimmed. Qed.

Lemma trimmed_blocks_give_trimmed_chunks_witness :
  let self := {| chunk_size := 4; overlap := 1 |} in
  let parsed_doc :=
    {| content :=
         [ {| b_text := [97; 32; 32; 32; 32; 32; 98]%N;
              b_section := [49%N];
              b_page := 0; b_slide := 0; b_paragraph := 1 |};
           {| b_text := [107%N];
              b_section := [49%N];
              b_page := 0; b_slide := 0; b_paragraph := 2 |} ];
       doc_type := "docx";
       raw_text := [] |} in
  map text (chunk_document self parsed_doc) = [[97%N]; [98%N]; [107%N]]
  /\ Forall (fun c => trimmed (text c)) (chunk_document self parsed_doc).
Proof.
  intros self parsed_doc. split; [reflexivity|].
  apply (trimmed_blocks_give_trimmed_chunks self parsed_doc).
  - simpl. tauto.
  - repeat constructor; try discriminate.
Defined.

End ChunkerProps.

(* ================================================================= *)
(** ** The parsers and the chunker together *)

Module ParserProps.
Import PyStr PyStrFacts PyText Chunker ChunkerSpec ProvenanceSpec Parser.
Import ParserSpec.
Import SplitFacts ChunkerFacts TextFacts ChunkerProps.

(** *** The blocks of the parsers are trimmed *)

Lemma strip_truthy_trimmed (t : str) :
  truthy (strip t) = true -> trimmed (strip t).
Proof. intros H. apply strip_trimmed. now apply truthy_ne. Qed.

Lemma parse_pdf_blocks (pages : list (option str)) :
  forall i : Z,
    Forall (fun b => trimmed (b_text b))
      (flat_map
         (fun p : Z * option str =>
            let '(page_num, page) := p in
            match page with
            | Some text =>
                if truthy (strip text)
                then [ {| b_text := strip text;
                          b_section := page_label page_num;
                          b_page := page_num;
                          b_slide := 0;
                          b_paragraph := 0 |} ]
                else []
            | None => []
            end)
         (enumerate_from i pages)).
Proof.
  induction pages as [|[text|] pages IH]; intros i; simpl;
    [constructor | | apply IH].
  apply Forall_app. split; [|apply IH].
  destruct (truthy (strip text)) eqn:E; [|constructor].
  constructor; [|constructor]. simpl. now apply strip_truthy_trimmed.
Qed.

Lemma docx_step_blocks (st : list Block * Z * str) (para : str * str) :
  Forall (fun b => trimmed (b_text b)) (fst (fst st)) ->
  Forall (fun b => trimmed (b_text b)) (fst (fst (docx_step st para))).
Proof.
  destruct st as [[content paragraphs] current_section].
  destruct para as [para_text style_name].
  simpl. intros H.
  destruct (truthy (strip para_text)) eqn:E; simpl; [|exact H].
  apply Forall_app. split; [exact H|].
  constructor; [|constructor]. simpl. now apply strip_truthy_trimmed.
Qed.

Lemma shape_step_texts (st : list str * str) (shape : option str) :
  Forall trimmed (fst st) -> Forall trimmed (fst (shape_step st shape)).
Proof.
  destruct st as [slide_text slide_title]. simpl. intros H.
  destruct shape as [shape_text|]; [|exact H].
  destruct (truthy (strip shape_text)) eqn:E; simpl; [|exact H].
  apply Forall_app. split; [exact H|].
  constructor; [|constructor]. now apply strip_truthy_trimmed.
Qed.

Lemma parse_pptx_blocks (slides : list (list (option str))) :
  forall i : Z,
    Forall (fun b => trimmed (b_text b))
      (flat_map
         (fun p : Z * list (option str) =>
            let '(slide_num, shapes) := p in
            let '(slide_text, slide_title) :=
              fold_left shape_step shapes ([], slide_label slide_num) in
            match slide_text with
            | [] => []
            | _ :: _ =>
                [ {| b_text := join newline slide_text;
                     b_section := slide_title;
                     b_page := 0;
                     b_slide := slide_num;
                     b_paragraph := 0 |} ]
            end)
         (enumerate_from i slides)).
Proof.
  induction slides as [|shapes slides IH]; intros i; simpl; [constructor|].
  apply Forall_app. split; [|apply IH].
  assert (H : Forall trimmed
                (fst (fold_left shape_step shapes ([], slide_label i)))).
  { apply fold_left_invariant with (P := fun st => Forall trimmed (fst st)).
    - constructor.
    - intros st shape _. apply shape_step_texts. }
  destruct (fold_left shape_step shapes ([], slide_label i))
    as [slide_text slide_title].
  simpl in H. destruct slide_text as [|t slide_text]; [constructor|].
  constructor; [|constructor]. cbn [b_text].
  apply join_trimmed; [discriminate | exact H].
Qed.

Lemma md_block_trimmed (current_text : list str) (current_section : str) :
  current_text <> [] -> Forall trimmed current_text ->
  trimmed (b_text (md_block current_text current_section)).
Proof. intros Hne H. unfold md_block. cbn [b_text]. now apply join_trimmed. Qed.

Lemma md_step_inv (st : list Block * str * list str) (line : str) :
  md_inv st -> md_inv (md_step st line).
Proof.
  destruct st as [[content current_section] current_text].
  intros [Hc Ht]. simpl in Hc, Ht. unfold md_step.
  destruct (truthy (strip line)) eqn:E; cbn [negb]; [|now split].
  destruct (startswith [hash] (strip line)).
  - split; cbn [fst snd]; [|constructor].
    destruct current_text as [|t l]; [exact Hc|].
    apply Forall_app. split; [exact Hc|].
    constructor; [|constructor].
    apply md_block_trimmed; [discriminate | exact Ht].
  - split; cbn [fst snd]; [exact Hc|].
    apply Forall_app. split; [exact Ht|].
    constructor; [|constructor]. now apply strip_truthy_trimmed.
Qed.

Lemma txt_paragraphs_trimmed (text : str) :
  Forall trimmed (txt_paragraphs text).
Proof.
  unfold txt_paragraphs. apply Forall_map.
  apply Forall_forall. intros p Hp.
  apply filter_In in Hp. destruct Hp as [_ Hp].
  now apply strip_truthy_trimmed.
Qed.

Lemma parse_txt_content (paragraphs : list str) :
  forall i : Z,
    map b_text
      (map
         (fun p : Z * str =>
            let '(i, para) := p in
            {| b_text := para;
               b_section := paragraph_label i;
               b_page := 0;
               b_slide := 0;
               b_paragraph := i |})
         (enumerate_from i paragraphs))
    = paragraphs.
Proof.
  induction paragraphs as [|p l IH]; intros i; simpl; [reflexivity|].
  now rewrite IH.
Qed.

(** *** Paragraphs whose sections all differ are never merged *)

Section WithChunker.

Variable self : TextChunker.

Local Abbreviation cs := (chunk_size self).

Lemma para_step_unmerged (prev : option str) (texts : list str)
    (st : ParaState) (b : Block) :
  unmerged_inv self prev texts st ->
  trimmed (b_text b) ->
  match prev with
  | Some s => b_section b <> s
  | None => True
  end ->
  unmerged_inv self (Some (b_section b))
    (texts ++ _split_text_with_overlap self (b_text b))
    (para_step self st b).
Proof.
  intros [Htexts Hbuf] Htrim Hprev.
  unfold para_step.
  set (st1 := if negb (str_eqb (b_section b) (ps_current_section st))
                 && truthy (ps_current_chunk st) then _ else st).
  assert (H1 : ps_current_chunk st1 = []
               /\ map text (ps_chunks st1) = texts).
  { subst st1.
    destruct (truthy (ps_current_chunk st)) eqn:Et.
    - destruct (Hbuf eq_refl) as (-> & _ & _ & Hstrip).
      rewrite (str_eqb_neq _ _ Hprev). simpl.
      split; [reflexivity|].
      rewrite map_app. simpl. now rewrite Hstrip.
    - rewrite andb_false_r.
      rewrite app_nil_r in Htexts.
      destruct (ps_current_chunk st); [now split | discriminate]. }
  clearbody st1. clear Htexts Hbuf Hprev st.
  destruct st1 as [chunks chunk_index buffer section meta].
  simpl in H1. destruct H1 as [-> <-].
  cbn [ps_chunks ps_chunk_index ps_current_chunk truthy app].
  set (meta' := [(_, MText (b_section b)); _; _]).
  assert (Hne : truthy (b_text b) = true).
  { apply truthy_ne. apply Htrim. }
  assert (Hfits : len (b_text b) <= cs ->
    unmerged_inv self (Some (b_section b))
      (map text chunks ++ _split_text_with_overlap self (b_text b))
      {| ps_chunks := chunks;
         ps_chunk_index := chunk_index;
         ps_current_chunk := b_text b;
         ps_current_section := b_section b;
         ps_current_metadata := meta' |}).
  { intros Hle. split; simpl.
    - rewrite Hne. now rewrite (split_fits_whole self _ Hle).
    - intros _. repeat split; try apply Htrim. exact Hle. }
  destruct (Z.gtb_spec (len (newline ++ b_text b)) cs) as [Hover|Hfit].
  - destruct (Z.gtb_spec (len (b_text b)) cs) as [Hlong|Hshort].
    + pose proof (append_parts_spec
        (fun chunk_index i chunk_text =>
           {| index := chunk_index;
              text := chunk_text;
              metadata := meta' ++ [("part"%string, MInt (i + 1))];
              start_offset := 0;
              end_offset := len chunk_text |})
        (fun _ _ _ => eq_refl) (fun _ _ _ => eq_refl)
        (_split_text_with_overlap self (b_text b)) chunks chunk_index)
        as Hparts.
      cbv zeta in Hparts.
      destruct (append_parts _ _ chunks chunk_index) as [chunks' index'].
      destruct Hparts as [Ht _]. simpl in Ht.
      split; simpl; [|discriminate].
      now rewrite app_nil_r.
    + apply Hfits. lia.
  - apply Hfits. unfold len in *. rewrite length_app in Hfit. simpl in Hfit. lia.
Qed.

Lemma fold_para_unmerged (blocks : list Block) :
  forall (prev : option str) (texts : list str) (st : ParaState),
    unmerged_inv self prev texts st ->
    Forall (fun b => trimmed (b_text b)) blocks ->
    sections_change prev blocks ->
    exists prev' : option str,
      unmerged_inv self prev'
        (texts ++ flat_map (_split_text_with_overlap self) (map b_text blocks))
        (fold_left (para_step self) blocks st).
Proof.
  induction blocks as [|b blocks IH]; intros prev texts st Hinv Htrim Hsec;
    simpl.
  - exists prev. now rewrite app_nil_r.
  - inversion Htrim as [|? ? Hb Hrest]; subst.
    destruct Hsec as [Hprev Hsec].
    rewrite app_assoc.
    apply IH with (prev := Some (b_section b)); [|exact Hrest | exact Hsec].
    now apply para_step_unmerged with prev.
Qed.

Lemma changing_sections_never_merge (blocks : list Block) :
  Forall (fun b => trimmed (b_text b)) blocks ->
  sections_change None blocks ->
  map text (_chunk_paragraph_content self blocks)
  = flat_map (_split_text_with_overlap self) (map b_text blocks).
Proof.
  intros Htrim Hsec.
  unfold _chunk_paragraph_content.
  set (st := fold_left (para_step self) blocks _).
  assert (H : exists prev,
            unmerged_inv self prev
              (flat_map (_split_text_with_overlap self) (map b_text blocks)) st).
  { subst st.
    apply (fold_para_unmerged blocks None []); [|exact Htrim | exact Hsec].
    split; simpl; [reflexivity | discriminate]. }
  clearbody st. destruct H as [prev [Htexts Hbuf]].
  destruct (truthy (ps_current_chunk st)) eqn:Et.
  - rewrite map_app. simpl.
    destruct (Hbuf eq_refl) as (_ & _ & _ & Hstrip).
    now rewrite Hstrip.
  - now rewrite app_nil_r in Htexts.
Qed.

End WithChunker.

Lemma paragraph_labels_change (paragraphs : list str) :
  forall (i : Z) (prev : option str),
    match prev with
    | Some s => s = paragraph_label (i - 1)
    | None => True
    end ->
    sections_change prev
      (map
         (fun p : Z * str =>
            let '(i, para) := p in
            {| b_text := para;
               b_section := paragraph_label i;
               b_page := 0;
               b_slide := 0;
               b_paragraph := i |})
         (enumerate_from i paragraphs)).
Proof.
  induction paragraphs as [|p l IH]; intros i prev Hprev; simpl; [exact I|].
  split.
  - destruct prev as [s|]; [|exact I]. subst s.
    unfold paragraph_label. intros H.
    apply app_inv_head in H. apply str_of_int_inj in H. lia.
  - apply IH. f_equal. lia.
Qed.

(** Every content block that a parser produces holds a text that is not
    empty and has no white space at its ends, for the five file types, and
    so does every chunk that the chunker makes of the parsed document,
    whatever the chunk size and the overlap: no empty chunk reaches the
    embedding step. *)
Theorem parsed_blocks_and_chunks_are_trimmed (self : TextChunker)
    (pages : list (option str)) (paras : list (str * str))
    (slides : list (list (option str))) (md_content text : str)
    (result : ParseResult) :
  In result [ _parse_pdf pages; _parse_docx paras; _parse_pptx slides;
              _parse_markdown md_content; _parse_txt text ] ->
  Forall (fun b => trimmed (b_text b)) (content (parsed result))
  /\ Forall (fun c => trimmed (Chunker.text c))
       (chunk_document self (parsed result)).
Proof.
  intros Hin.
  assert (H : In (doc_type (parsed result))
                ["pdf"; "docx"; "txt"; "pptx"; "markdown"]%string
              /\ Forall (fun b => trimmed (b_text b)) (content (parsed result))).
  { destruct Hin as [<-|[<-|[<-|[<-|[<-|[]]]]]].
    - split; [simpl; tauto|]. apply parse_pdf_blocks.
    - unfold _parse_docx.
      pose proof (fold_left_invariant docx_step
        (fun st => Forall (fun b => trimmed (b_text b)) (fst (fst st)))
        paras ([], 0, document_start) (Forall_nil _)
        (fun st para _ => docx_step_blocks st para)) as H.
      destruct (fold_left docx_step paras _) as [[content paragraphs] s].
      split; [simpl; tauto | exact H].
    - split; [simpl; tauto|]. apply parse_pptx_blocks.
    - unfold _parse_markdown.
      pose proof (fold_left_invariant md_step md_inv
        (split newline md_content) ([], document_start, [])
        (conj (Forall_nil _) (Forall_nil _))
        (fun st line _ => md_step_inv st line)) as H.
      destruct (fold_left md_step _ _) as [[content current_section] l].
      destruct H as [Hc Ht]. simpl in Hc, Ht.
      split; [simpl; tauto|]. simpl.
      destruct l as [|t l]; [exact Hc|].
      apply Forall_app. split; [exact Hc|].
      constructor; [|constructor].
      apply md_block_trimmed; [discriminate | exact Ht].
    - split; [simpl; tauto|]. simpl.
      rewrite <- Forall_map with (f := b_text) (P := trimmed).
      rewrite parse_txt_content. apply txt_paragraphs_trimmed. }
  destruct H as [Htype Hblocks].
  split; [exact Hblocks|].
  now apply chunk_document_trimmed.
Qed.

Lemma parsed_blocks_and_chunks_are_trimmed_witness :
  let self := {| chunk_size := 4; overlap := 1 |} in
  let text := [32; 97; 98; 10; 10; 32; 10; 10; 99; 32]%N in
  map b_text (content (parsed (_parse_txt text))) = [[97; 98]%N; [99%N]]
  /\ Forall (fun b => trimmed (b_text b)) (content (parsed (_parse_txt text)))
  /\ Forall (fun c => trimmed (Chunker.text c))
       (chunk_document self (parsed (_parse_txt text))).
Proof.
  intros self text. split; [reflexivity|].
  apply (parsed_blocks_and_chunks_are_trimmed self [] [] [] [] text).
  simpl. tauto.
Defined.

(** The paragraphs of a txt file are never merged: each paragraph gets a
    section label of its own, so the buffer of the paragraph strategy is
    flushed before every paragraph, and the chunks are, in order, the
    paragraphs that fit and the parts of those that do not. *)
Theorem txt_paragraphs_are_never_merged (self : TextChunker) (text : str) :
  map Chunker.text (chunk_document self (parsed (_parse_txt text)))
  = flat_map (_split_text_with_overlap self) (txt_paragraphs text).
Proof.
  unfold chunk_document. simpl.
  rewrite changing_sections_never_merge.
  - now rewrite parse_txt_content.
  - rewrite <- Forall_map with (f := b_text) (P := trimmed).
    rewrite parse_txt_content. apply txt_paragraphs_trimmed.
  - now apply paragraph_labels_change.
Qed.

(** *** Page numbers *)

Lemma parse_pdf_pages (pages : list (option str)) :
  forall (i : Z) (b : Block),
    In b (flat_map
            (fun p : Z * option str =>
               let '(page_num, page) := p in
               match page with
               | Some text =>
                   if truthy (strip text)
                   then [ {| b_text := strip text;
                             b_section := page_label page_num;
                             b_page := page_num;
                             b_slide := 0;
                             b_paragraph := 0 |} ]
                   else []
               | None => []
               end)
            (enumerate_from i pages)) ->
    exists (k : nat) (raw : str),
      b_page b = i + Z.of_nat k
      /\ nth_error pages k = Some (Some raw)
      /\ b_text b = strip raw
      /\ b_section b = page_label (b_page b).
Proof.
  induction pages as [|page pages IH]; intros i b Hin; simpl in Hin;
    [destruct Hin|].
  apply in_app_or in Hin. destruct Hin as [Hin|Hin].
  - destruct page as [text|]; [|destruct Hin].
    destruct (truthy (strip text)); [|destruct Hin].
    destruct Hin as [<-|[]].
    exists 0%nat, text. simpl. repeat split. lia.
  - destruct (IH _ _ Hin) as (k & raw & Hp & Hn & Ht & Hs).
    exists (S k), raw. simpl. repeat split; try assumption. lia.
Qed.

Lemma parse_pdf_sorted (pages : list (option str)) :
  forall i : Z,
    let content :=
      flat_map
        (fun p : Z * option str =>
           let '(page_num, page) := p in
           match page with
           | Some text =>
               if truthy (strip text)
               then [ {| b_text := strip text;
                         b_section := page_label page_num;
                         b_page := page_num;
                         b_slide := 0;
                         b_paragraph := 0 |} ]
               else []
           | None => []
           end)
        (enumerate_from i pages) in
    Sorted Z.lt (map b_page content)
    /\ Forall (fun b => i <= b_page b) content.
Proof.
  induction pages as [|page pages IH]; intros i; simpl.
  - split; constructor.
  - destruct (IH (i + 1)) as [Hs Hf].
    assert (Hf' : Forall (fun b => i <= b_page b)
                    (flat_map
                       (fun p : Z * option str =>
                          let '(page_num, page) := p in
                          match page with
                          | Some text =>
                              if truthy (strip text)
                              then [ {| b_text := strip text;
                                        b_section := page_label page_num;
                                        b_page := page_num;
                                        b_slide := 0;
                                        b_paragraph := 0 |} ]
                              else []
                          | None => []
                          end)
                       (enumerate_from (i + 1) pages))).
    { eapply Forall_impl; [|exact Hf]. simpl. intros; lia. }
    destruct page as [text|]; [|split; assumption].
    destruct (truthy (strip text)); [|split; assumption].
    simpl. split; [|constructor; [simpl; lia | exact Hf']].
    constructor; [exact Hs|].
    destruct (flat_map _ _) as [|b' l]; simpl; constructor.
    inversion Hf; subst. lia.
Qed.

(** The pdf parser keeps the page numbers of the file: a block holds the
    trimmed text of the page whose 1-based position is the block's page
    number, its section is the label of that page, the page numbers grow
    strictly along the content, pages that are blank or that fail to
    extract are left out without shifting the numbers, and the page
    counter counts every page of the file. *)
Theorem pdf_blocks_keep_page_numbers (pages : list (option str)) :
  let result := _parse_pdf pages in
  Forall
    (fun b =>
       exists raw : str,
         1 <= b_page b <= Z.of_nat (length pages)
         /\ nth_error pages (Z.to_nat (b_page b - 1)) = Some (Some raw)
         /\ b_text b = strip raw
         /\ b_section b = page_label (b_page b))
    (content (parsed result))
  /\ Sorted Z.lt (map b_page (content (parsed result)))
  /\ counter result = ("pages"%string, Z.of_nat (length pages)).
Proof.
  simpl. split; [|split; [apply (parse_pdf_sorted pages 1) | reflexivity]].
  apply Forall_forall. intros b Hb.
  destruct (parse_pdf_pages pages 1 b Hb) as (k & raw & Hp & Hn & Ht & Hs).
  exists raw.
  assert (Hk : (k < length pages)%nat).
  { apply nth_error_Some. congruence. }
  repeat split; try assumption; try lia.
  replace (Z.to_nat (b_page b - 1)) with k by lia. exact Hn.
Qed.

End ParserProps.

(* ================================================================= *)
(** ** The embedding client *)

Module ClientProps.
Import PyStr PyStrFacts PyText LLMClient.

Lemma slice_to_firstn (t : str) (k : Z) :
  0 <= k -> slice_to t k = firstn (Z.to_nat k) t.
Proof.
  intros Hk. unfold slice_to, slice, adjust.
  destruct (Z.ltb_spec k 0); [lia|]. simpl skipn.
  pose proof (len_nonneg t) as Hn.
  replace (Z.min 0 (len t)) with 0 by lia. rewrite Z.sub_0_r.
  change (skipn (Z.to_nat 0) t) with t.
  destruct (Z.le_ge_cases k (len t)) as [Hle|Hge].
  - now replace (Z.min k (len t)) with k by lia.
  - replace (Z.min k (len t)) with (len t) by lia.
    unfold len in *. rewrite Nat2Z.id.
    rewrite !firstn_all2; [reflexivity | lia | lia].
Qed.

(** The text sent for a text is [text[:400]]. *)
Lemma truncate_prefix (text : str) :
  truncate text = slice_to text 400 /\ len (truncate text) <= 400.
Proof.
  unfold truncate, max_chars.
  rewrite slice_to_firstn by lia.
  destruct (Z.gtb_spec (len text) 400) as [Hgt|Hle]; unfold len in *.
  - split; [reflexivity|]. rewrite length_firstn. lia.
  - split; [|lia]. rewrite firstn_all2; [reflexivity | lia].
Qed.

Section Batches.

Context {A : Type}.
Variable l : list A.

Local Abbreviation n := (Z.of_nat (length l)).

Lemma list_slice_batch (i : Z) :
  0 <= i < n ->
  list_slice l i (i + batch_size)
  = firstn (Z.to_nat (Z.min (i + 16) n - i)) (skipn (Z.to_nat i) l).
Proof.
  intros Hi. unfold list_slice, adjust. change batch_size with 16.
  destruct (Z.ltb_spec i 0); [lia|].
  destruct (Z.ltb_spec (i + 16) 0); [lia|].
  now replace (Z.min i n) with i by lia.
Qed.

Lemma range_loop_bounds (fuel : nat) :
  forall i : Z,
    0 <= i ->
    Forall (fun j => 0 <= j < n) (range_loop fuel i n batch_size).
Proof.
  change batch_size with 16.
  induction fuel as [|fuel IH]; intros i Hi; simpl; [constructor|].
  destruct (Z.ltb_spec i n); constructor; [lia|].
  apply IH. lia.
Qed.

Lemma batches_concat (fuel : nat) :
  forall i : Z,
    0 <= i ->
    (Z.to_nat (n - i) <= fuel)%nat ->
    concat (map (fun j => list_slice l j (j + batch_size))
              (range_loop fuel i n batch_size))
    = skipn (Z.to_nat i) l.
Proof.
  induction fuel as [|fuel IH]; intros i Hi Hfuel; simpl.
  - rewrite skipn_all2; [reflexivity | lia].
  - destruct (Z.ltb_spec i n) as [Hlt|Hge]; simpl.
    2:{ rewrite skipn_all2; [reflexivity | lia]. }
    rewrite list_slice_batch by lia.
    change batch_size with 16.
    change batch_size with 16 in IH.
    rewrite IH by lia.
    destruct (Z.le_gt_cases (i + 16) n) as [Hfull|Hlast].
    + replace (Z.min (i + 16) n - i) with 16 by lia.
      replace (Z.to_nat (i + 16)) with (Z.to_nat 16 + Z.to_nat i)%nat by lia.
      rewrite <- skipn_skipn. apply firstn_skipn.
    + rewrite (skipn_all2 l (n := Z.to_nat (i + 16))) by lia.
      rewrite app_nil_r. apply firstn_all2.
      rewrite length_skipn. lia.
Qed.

Lemma range_loop_length (fuel : nat) :
  forall i : Z,
    0 <= i ->
    (Z.to_nat (n - i) <= fuel)%nat ->
    Z.of_nat (length (range_loop fuel i n batch_size))
    = (Z.max 0 (n - i) + 15) / 16.
Proof.
  change batch_size with 16.
  induction fuel as [|fuel IH]; intros i Hi Hfuel; cbn [range_loop].
  - cbn [length]. replace (Z.max 0 (n - i)) with 0 by lia. reflexivity.
  - destruct (Z.ltb_spec i n) as [Hlt|Hge].
    2:{ cbn [length]. replace (Z.max 0 (n - i)) with 0 by lia. reflexivity. }
    cbn [length]. rewrite Nat2Z.inj_succ, IH by lia.
    destruct (Z.le_gt_cases (i + 16) n) as [Hfull|Hlast].
    + replace (Z.max 0 (n - i) + 15)
        with (Z.max 0 (n - (i + 16)) + 15 + 1 * 16) by lia.
      rewrite Z.div_add by lia. lia.
    + replace (Z.max 0 (n - (i + 16))) with 0 by lia.
      replace (Z.max 0 (n - i)) with (n - i) by lia.
      change ((0 + 15) / 16) with 0.
      apply Z.div_unique with (r := n - i - 1); lia.
Qed.

Lemma batches_sizes :
  Forall (fun batch : list A => (1 <= length batch <= 16)%nat)
    (map (fun j => list_slice l j (j + batch_size))
       (range 0 n batch_size)).
Proof.
  apply Forall_map. unfold range.
  eapply Forall_impl; [|apply range_loop_bounds; lia].
  intros j Hj. cbv beta in Hj. rewrite list_slice_batch by lia.
  rewrite length_firstn, length_skipn. lia.
Qed.

End Batches.

Section Client.

Variable create : list str -> str + list (list Q).

Lemma embed_batches_ok (embed : str -> list Q) (todo : list (list str)) :
  (forall batch, In batch todo -> create batch = inr (map embed batch)) ->
  forall results : list (list Q),
    embed_batches create todo results
    = inr (results ++ map embed (concat todo)).
Proof.
  induction todo as [|batch todo IH]; intros Hok results; simpl.
  - now rewrite app_nil_r.
  - rewrite (Hok batch) by now left.
    rewrite IH by (intros b Hb; apply Hok; now right).
    now rewrite map_app, app_assoc.
Qed.

Lemma embed_batches_failure (todo : list (list str)) :
  (exists batch, In batch todo /\ exists e, create batch = inl e) ->
  forall results : list (list Q),
    exists e, embed_batches create todo results = inl (batch_failed ++ e).
Proof.
  induction todo as [|batch todo IH]; intros (b & Hb & e & He) results;
    simpl; [destruct Hb|].
  destruct (create batch) as [e'|data] eqn:E; [now exists e'|].
  apply IH. destruct Hb as [->|Hb]; [congruence|].
  exists b. split; [exact Hb | now exists e].
Qed.

End Client.

Lemma batches_partition (texts : list str) :
  let truncated_texts := map truncate texts in
  truncated_texts = map (fun text => slice_to text 400) texts
  /\ Forall (fun sent => len sent <= 400) truncated_texts
  /\ concat (batches truncated_texts) = truncated_texts
  /\ Forall (fun batch : list str => (1 <= length batch <= 16)%nat)
       (batches truncated_texts)
  /\ Z.of_nat (length (batches truncated_texts))
     = (Z.of_nat (length texts) + 15) / 16.
Proof.
  cbv zeta. split; [|split; [|split; [|split]]].
  - apply map_ext. intros t. apply truncate_prefix.
  - apply Forall_map. apply Forall_forall. intros t _. apply truncate_prefix.
  - unfold batches, range. rewrite Z.sub_0_r.
    rewrite batches_concat by lia. reflexivity.
  - apply batches_sizes.
  - unfold batches, range. rewrite length_map, Z.sub_0_r.
    rewrite range_loop_length by lia.
    rewrite length_map. f_equal. lia.
Qed.

(** The texts sent to the embedding endpoint are the first 400 characters
    of each text, in order, cut into consecutive batches of at most 16:
    the batches put together are the truncated texts, no batch is empty,
    and their number is the number of texts divided by 16, rounded up. *)
Theorem embedding_batches_partition (texts : list str) :
  let truncated_texts := map truncate texts in
  truncated_texts = map (fun text => slice_to text 400) texts
  /\ Forall (fun sent => len sent <= 400) truncated_texts
  /\ concat (batches truncated_texts) = truncated_texts
  /\ Forall (fun batch : list str => (1 <= length batch <= 16)%nat)
       (batches truncated_texts)
  /\ Z.of_nat (length (batches truncated_texts))
     = (Z.of_nat (length texts) + 15) / 16.
Proof. apply batches_partition. Qed.

Lemma embeddings_elementwise (create : list str -> str + list (list Q))
    (embed : str -> list Q) (texts : list str) :
  (forall batch : list str,
      In batch (batches (map truncate texts)) ->
      create batch = inr (map embed batch)) ->
  get_embeddings_batch create texts
  = inr (map (fun text => embed (slice_to text 400)) texts).
Proof.
  intros Hok. unfold get_embeddings_batch.
  rewrite (embed_batches_ok create embed _ Hok). simpl app.
  destruct (batches_partition texts) as (Ht & _ & Hc & _).
  cbv zeta in Ht, Hc. rewrite Hc, Ht, map_map. reflexivity.
Qed.

(** When the endpoint answers every batch it is sent with one embedding
    per text, in order, the client returns one embedding per text, in the
    order of the texts, and the embedding of a text is that of its first
    400 characters: what comes after them has no influence. *)
Theorem embeddings_follow_texts (create : list str -> str + list (list Q))
    (embed : str -> list Q) (texts : list str) :
  (forall batch : list str,
      In batch (batches (map truncate texts)) ->
      create batch = inr (map embed batch)) ->
  get_embeddings_batch create texts
  = inr (map (fun text => embed (slice_to text 400)) texts).
Proof. apply embeddings_elementwise. Qed.

Lemma embeddings_follow_texts_witness :
  let embed := fun text : str => [inject_Z (len text)] in
  let create := fun batch : list str => inr (map embed batch) in
  get_embeddings_batch create [repeat 97%N 401; [98%N]]
  = inr [[400%Q]; [1%Q]].
Proof.
  intros embed create.
  rewrite (embeddings_follow_texts create embed); [reflexivity|].
  intros batch _. reflexivity.
Defined.

(** The client calls the endpoint only when there is a text to embed, and
    an exception of the endpoint on any batch makes the whole call raise:
    no partial list of embeddings is returned. *)
Theorem embedding_failure_fails_the_call
    (create : list str -> str + list (list Q)) :
  get_embeddings_batch create [] = inr []
  /\ forall texts : list str,
       (exists batch : list str,
           In batch (batches (map truncate texts))
           /\ exists e : str, create batch = inl e) ->
       exists e : str,
         get_embeddings_batch create texts = inl (batch_failed ++ e).
Proof.
  split; [reflexivity|].
  intros texts H. now apply embed_batches_failure.
Qed.

Lemma embedding_failure_fails_the_call_witness :
  let create :=
    fun batch : list str =>
      if (length batch =? 16)%nat then inr (map (fun _ => []) batch)
      else inl [33%N] in
  exists e : str,
    get_embeddings_batch create (repeat [97%N] 17) = inl (batch_failed ++ e).
Proof.
  intros create.
  apply (proj2 (embedding_failure_fails_the_call create)).
  exists [[97%N]]. split; [vm_compute; tauto|].
  exists [33%N]. reflexivity.
Defined.

End ClientProps.

(* ================================================================= *)
(** ** Knowledge search *)

Module SearchProps.
Import PyStr PyStrFacts PyText PyNum KBSearch ParserSpec SearchSpec.

(** *** [int(str(n))] *)

Lemma ascii_digit (c : char) :
  (48 <= c <= 57)%N ->
  Rag.isdecimal c = true
  /\ Rag.digit_value c = Z.of_N c - 48
  /\ int_space c = false
  /\ char_eqb c plus_sign = false
  /\ char_eqb c minus_sign = false.
Proof.
  intros H.
  assert (E : (c = 48 \/ c = 49 \/ c = 50 \/ c = 51 \/ c = 52 \/ c = 53
               \/ c = 54 \/ c = 55 \/ c = 56 \/ c = 57)%N) by lia.
  repeat destruct E as [->|E]; try subst c; vm_compute; auto.
Qed.

Lemma uint_digits_ascii (d : Decimal.uint) :
  Forall (fun c => (48 <= c <= 57)%N) (uint_digits d).
Proof. induction d; simpl; constructor; try lia; assumption. Qed.

Lemma int_digits_uint (d : Decimal.uint) :
  forall (acc : Z) (after_digit : bool),
    d <> Decimal.Nil \/ after_digit = true ->
    int_digits acc after_digit (uint_digits d) = Some (uint_value acc d).
Proof.
  induction d; intros acc after_digit H;
    [ destruct H as [H| ->]; [congruence | reflexivity] | .. ];
    cbn [uint_digits int_digits uint_value];
    match goal with
    | |- context [Rag.isdecimal ?c] =>
        destruct (ascii_digit c ltac:(lia)) as (-> & -> & _)
    end;
    rewrite IHd by (now right); f_equal; f_equal; lia.
Qed.

Lemma uint_value_acc (d : Decimal.uint) :
  forall p : positive,
    Z.pos (Pos.of_uint_acc d p) = uint_value (Z.pos p) d.
Proof.
  induction d; intros p; cbn [Pos.of_uint_acc uint_value]; try reflexivity;
    rewrite IHd; f_equal; lia.
Qed.

Lemma uint_value_of_uint (d : Decimal.uint) : Z.of_uint d = uint_value 0 d.
Proof.
  unfold Z.of_uint.
  induction d; simpl; try reflexivity; try exact IHd;
    now rewrite uint_value_acc.
Qed.

Lemma lstrip_int_fixed (t : str) :
  Forall (fun c => int_space c = false) t -> lstrip_int t = t.
Proof. destruct 1 as [|c t Hc _]; simpl; [reflexivity | now rewrite Hc]. Qed.

Lemma to_int_digits (n : Z) :
  match Z.to_int n with
  | Decimal.Pos d | Decimal.Neg d => d <> Decimal.Nil
  end.
Proof.
  pose proof (DecimalZ.of_to n) as H.
  destruct (Z.to_int n) as [d|d] eqn:E; intros ->; simpl in H; subst n;
    discriminate E.
Qed.

Lemma py_int_unsigned (d : Decimal.uint) :
  d <> Decimal.Nil ->
  py_int (uint_digits d) = Some (Z.of_uint d).
Proof.
  intros Hd. unfold py_int.
  pose proof (uint_digits_ascii d) as Hall.
  assert (Hns : Forall (fun c => int_space c = false) (uint_digits d)).
  { eapply Forall_impl; [|exact Hall]. intros c Hc. now apply ascii_digit. }
  rewrite (lstrip_int_fixed _ Hns).
  rewrite (lstrip_int_fixed (rev (uint_digits d))) by now apply Forall_rev.
  rewrite rev_involutive.
  pose proof (int_digits_uint d 0 false (or_introl Hd)) as Hv.
  destruct (uint_digits d) as [|c digits] eqn:E.
  - destruct d; simpl in E; congruence.
  - inversion Hall as [|? ? Hc _]; subst.
    destruct (ascii_digit c Hc) as (_ & _ & _ & -> & ->).
    rewrite Hv. now rewrite uint_value_of_uint.
Qed.

Lemma py_int_negative (d : Decimal.uint) :
  d <> Decimal.Nil ->
  py_int (minus_sign :: uint_digits d) = Some (- Z.of_uint d).
Proof.
  intros Hd. unfold py_int.
  pose proof (uint_digits_ascii d) as Hall.
  assert (Hns : Forall (fun c => int_space c = false)
                  (minus_sign :: uint_digits d)).
  { constructor; [reflexivity|].
    eapply Forall_impl; [|exact Hall]. intros c Hc. now apply ascii_digit. }
  rewrite (lstrip_int_fixed _ Hns).
  rewrite (lstrip_int_fixed (rev (minus_sign :: uint_digits d)))
    by now apply Forall_rev.
  rewrite rev_involutive.
  change (char_eqb minus_sign plus_sign) with false.
  change (char_eqb minus_sign minus_sign) with true.
  cbn iota.
  rewrite (int_digits_uint d 0 false (or_introl Hd)).
  simpl. now rewrite uint_value_of_uint.
Qed.

Lemma py_int_str_of_int (n : Z) : py_int (str_of_int n) = Some n.
Proof.
  unfold str_of_int.
  pose proof (DecimalZ.of_to n) as Hn.
  pose proof (to_int_digits n) as Hd.
  destruct (Z.to_int n) as [d|d]; simpl in Hn.
  - rewrite py_int_unsigned by exact Hd. now rewrite Hn.
  - rewrite py_int_negative by exact Hd. now rewrite Hn.
Qed.

(** *** The results of a search *)

Lemma snippet_length (t : str) : len (Rag.snippet_of t) <= 203.
Proof.
  unfold Rag.snippet_of.
  destruct (Z.gtb_spec (len t) 200) as [Hgt|Hle]; [|lia].
  rewrite ClientProps.slice_to_firstn by lia.
  unfold len in *. rewrite length_app, length_firstn. cbn [length]. lia.
Qed.

Lemma result_of_hit_matches (hit : VectorDB.VectorHit) (r : SearchResult) :
  result_of_hit hit = inr r -> result_matches hit r.
Proof.
  unfold result_of_hit, result_matches.
  destruct (py_int (VectorDB.chunk_id hit)) as [chunk_id|]; [|discriminate].
  destruct (meta_get "document_id" (VectorDB.metadata hit)) as [d|];
    [|discriminate].
  destruct (py_int d) as [document_id|] eqn:Ed; [|discriminate].
  intros H. inversion H; subst; simpl.
  repeat split; try reflexivity.
  - exists d. now split.
  - apply snippet_length.
Qed.

Lemma convert_hits_spec (hits : list VectorDB.VectorHit) :
  forall done : list SearchResult,
    match convert_hits hits done with
    | inr results =>
        exists new : list SearchResult,
          results = done ++ new /\ Forall2 result_matches hits new
    | inl cause =>
        exists hit : VectorDB.VectorHit,
          In hit hits /\ result_of_hit hit = inl cause
    end.
Proof.
  induction hits as [|hit hits IH]; intros done; simpl.
  - exists []. split; [now rewrite app_nil_r | constructor].
  - destruct (result_of_hit hit) as [cause|r] eqn:E.
    + exists hit. split; [now left | exact E].
    + specialize (IH (done ++ [r])).
      destruct (convert_hits hits (done ++ [r])) as [cause|results].
      * destruct IH as [h [Hh Hc]]. exists h. split; [now right | exact Hc].
      * destruct IH as [new [-> Hnew]].
        exists (r :: new). split; [now rewrite <- app_assoc|].
        constructor; [now apply result_of_hit_matches | exact Hnew].
Qed.

(** A search returns one result per hit of the vector store, in the order
    of the hits: the chunk id and the document id are the integers their
    strings denote, the score and the metadata are those of the hit, and
    the snippet is the chunk text cut to 200 characters plus an ellipsis,
    203 characters at most.  A hit whose chunk id or document id is not an
    integer literal, or that has no document id, fails the whole search,
    as does an exception of the embedding client or of the vector store. *)
Theorem search_results_follow_hits (env : Collaborators) (course_id : Z)
    (query : str) (top_k : Z) (filters : option (list (string * str))) :
  match search_knowledge env course_id query top_k filters with
  | inr results =>
      exists (embedding : list Q) (hits : list VectorDB.VectorHit),
        get_embedding env query = inr embedding
        /\ vectordb_query env (str_of_int course_id) embedding top_k filters
           = inr hits
        /\ Forall2 result_matches hits results
  | inl (Message m) =>
      get_embedding env query = inl m
      \/ exists embedding : list Q,
           get_embedding env query = inr embedding
           /\ vectordb_query env (str_of_int course_id) embedding top_k filters
              = inl m
  | inl cause =>
      exists (embedding : list Q) (hits : list VectorDB.VectorHit)
             (hit : VectorDB.VectorHit),
        get_embedding env query = inr embedding
        /\ vectordb_query env (str_of_int course_id) embedding top_k filters
           = inr hits
        /\ In hit hits
        /\ result_of_hit hit = inl cause
  end.
Proof.
  unfold search_knowledge.
  destruct (get_embedding env query) as [m|embedding]; [now left|].
  destruct (vectordb_query env _ embedding top_k filters) as [m|hits] eqn:Eq.
  { right. exists embedding. now split. }
  pose proof (convert_hits_spec hits []) as H.
  destruct (convert_hits hits []) as [cause|results].
  - destruct H as [hit [Hin Hc]].
    destruct cause as [m|literal|key];
      [| exists embedding, hits, hit; repeat split; assumption
       | exists embedding, hits, hit; repeat split; assumption ].
    exfalso. clear -Hc. unfold result_of_hit in Hc.
    destruct (py_int (VectorDB.chunk_id hit)); [|discriminate].
    destruct (meta_get "document_id" (VectorDB.metadata hit)) as [d|];
      [|discriminate].
    destruct (py_int d); discriminate.
  - destruct H as [new [-> Hnew]].
    exists embedding, hits. repeat split; assumption.
Qed.

End SearchProps.

(* ================================================================= *)
(** ** The question pipeline *)

Module AskProps.
Import PyStr PyStrFacts PyText PyNum Rag RagSpec KBSearch Ask.
Import ProvenanceSpec ParserSpec AskSpec TextFacts.

(** *** Normalization *)

Lemma collapse_idem (t : str) :
  forall b : bool,
    collapse_spaces b (collapse_spaces b t) = collapse_spaces b t.
Proof.
  induction t as [|c t IH]; intros b; [reflexivity|].
  cbn [collapse_spaces].
  destruct (isspace c) eqn:Ec.
  - destruct b; [apply IH|].
    cbn [collapse_spaces]. change (isspace 32%N) with true. cbn iota.
    now rewrite IH.
  - cbn [collapse_spaces]. rewrite Ec. now rewrite IH.
Qed.

Lemma collapse_snoc (x : str) (a : char) :
  isspace a = false ->
  forall b : bool,
    collapse_spaces b (x ++ [a]) = collapse_spaces b x ++ [a].
Proof.
  intros Ha. induction x as [|c x IH]; intros b; cbn [app collapse_spaces].
  - now rewrite Ha.
  - destruct (isspace c); [destruct b|]; cbn [app]; now rewrite IH.
Qed.

Lemma collapse_trimmed (t : str) :
  trimmed t -> trimmed (collapse_spaces false t).
Proof.
  intros H. apply trimmed_ends in H. destruct H as [Hh Hl].
  apply trimmed_ends. split.
  - destruct t as [|c t]; [destruct Hh|]. simpl in *. now rewrite Hh.
  - destruct (rev t) as [|a y] eqn:E; [destruct Hl|]. simpl in Hl.
    assert (Et : t = rev y ++ [a]).
    { rewrite <- (rev_involutive t), E. reflexivity. }
    rewrite Et, (collapse_snoc _ _ Hl), rev_app_distr. exact Hl.
Qed.

Lemma endswith_snoc (a : char) (x : str) : endswith [a] (x ++ [a]) = true.
Proof.
  unfold endswith. rewrite rev_app_distr. simpl.
  unfold char_eqb. now rewrite N.eqb_refl.
Qed.

Lemma trimmed_snoc (x : str) (a : char) :
  x = [] \/ trimmed x -> isspace a = false -> trimmed (x ++ [a]).
Proof.
  intros Hx Ha. apply trimmed_ends. split.
  - destruct Hx as [->|Hx]; [exact Ha|].
    apply trimmed_ends in Hx. now apply head_ok_app.
  - rewrite rev_app_distr. exact Ha.
Qed.

Lemma normalize_question_stable (question : str) :
  let n := _normalize_question question in
  _normalize_question n = n
  /\ endswith question_mark n || endswith fullwidth_question_mark n = true
  /\ trimmed n
  /\ collapse_spaces false n = n.
Proof.
  cbv zeta.
  assert (Hq : collapse_spaces false (strip question) = []
               \/ trimmed (collapse_spaces false (strip question))).
  { destruct (strip question) as [|c s] eqn:E; [now left|].
    right. apply collapse_trimmed. rewrite <- E.
    apply strip_trimmed. congruence. }
  assert (Hfix : forall n : str,
            trimmed n -> collapse_spaces false n = n ->
            endswith question_mark n || endswith fullwidth_question_mark n
            = true ->
            _normalize_question n = n).
  { intros n [_ Hs] Hc He. unfold _normalize_question.
    rewrite Hs, Hc, He. reflexivity. }
  set (n := _normalize_question question).
  set (q' := collapse_spaces false (strip question)) in *.
  assert (Hn : n = if negb (endswith question_mark q'
                            || endswith fullwidth_question_mark q')
                   then q' ++ fullwidth_question_mark else q') by reflexivity.
  clearbody n.
  destruct (endswith question_mark q' || endswith fullwidth_question_mark q')
    eqn:E; cbn [negb] in Hn; subst n.
  - assert (Ht : trimmed q').
    { destruct Hq as [Hq|Hq]; [|exact Hq]. rewrite Hq in E. discriminate. }
    assert (Hc : collapse_spaces false q' = q') by apply collapse_idem.
    split; [now apply Hfix|]. split; [exact E|]. split; assumption.
  - assert (Ht : trimmed (q' ++ fullwidth_question_mark)).
    { now apply trimmed_snoc. }
    assert (Hc : collapse_spaces false (q' ++ fullwidth_question_mark)
                 = q' ++ fullwidth_question_mark).
    { unfold fullwidth_question_mark.
      rewrite collapse_snoc by reflexivity.
      unfold q'. now rewrite collapse_idem. }
    assert (He : endswith question_mark (q' ++ fullwidth_question_mark)
                 || endswith fullwidth_question_mark
                      (q' ++ fullwidth_question_mark) = true).
    { unfold fullwidth_question_mark at 2 3.
      rewrite endswith_snoc. apply orb_true_r. }
    split; [now apply Hfix|]. split; [exact He|]. split; assumption.
Qed.

(** *** The evidence *)

Lemma item_In {A : Type} (l : list A) (i : Z) (x : A) :
  item l i = Some x -> In x l.
Proof.
  unfold item.
  destruct ((0 <=? i) && (i <? Z.of_nat (length l)));
    [apply nth_error_In|].
  destruct ((- Z.of_nat (length l) <=? i) && (i <? 0));
    [apply nth_error_In | discriminate].
Qed.

Lemma list_slice_In {A : Type} (l : list A) (i j : Z) (x : A) :
  In x (list_slice l i j) -> In x l.
Proof.
  unfold list_slice. intros H.
  match type of H with
  | In _ (firstn ?k (skipn ?lo _)) =>
      rewrite <- (firstn_skipn lo l); apply in_or_app; right;
      rewrite <- (firstn_skipn k (skipn lo l)); apply in_or_app; now left
  end.
Qed.

Lemma list_slice_prefix {A : Type} (l : list A) (k : Z) :
  0 <= k -> list_slice l 0 k = firstn (Z.to_nat k) l.
Proof.
  intros Hk. unfold list_slice, adjust.
  destruct (Z.ltb_spec k 0); [lia|].
  change (0 <? 0) with false. cbn iota.
  replace (Z.min 0 (Z.of_nat (length l))) with 0 by lia.
  change (skipn (Z.to_nat 0) l) with l. rewrite Z.sub_0_r.
  destruct (Z.le_ge_cases k (Z.of_nat (length l))) as [Hle|Hge].
  - now replace (Z.min k (Z.of_nat (length l))) with k by lia.
  - replace (Z.min k (Z.of_nat (length l))) with (Z.of_nat (length l)) by lia.
    rewrite !firstn_all2; [reflexivity | lia | lia].
Qed.

Lemma same_hit_refl (r : SearchResult) : same_hit r r.
Proof. repeat split. Qed.

Lemma reorder_from (results : list SearchResult)
    (rerank_results : list LLMClient.RerankResult) :
  forall reranked out : list SearchResult,
    reorder results rerank_results reranked = Some out ->
    Forall (fun r => exists r0, In r0 results /\ same_hit r r0) reranked ->
    Forall (fun r => exists r0, In r0 results /\ same_hit r r0) out.
Proof.
  induction rerank_results as [|rr rest IH]; intros reranked out H Hacc;
    simpl in H.
  - inversion H; subst. exact Hacc.
  - destruct (item results (LLMClient.rr_index rr)) as [r0|] eqn:E;
      [|discriminate].
    apply (IH _ _ H). apply Forall_app. split; [exact Hacc|].
    constructor; [|constructor].
    exists r0. split; [now apply item_In with (i := LLMClient.rr_index rr)|].
    repeat split.
Qed.

Section Service.

Variable self : RAGService.
Variable env : Env.

Lemma rerank_results_from (question : str) (results : list SearchResult) :
  Forall (fun r => exists r0, In r0 results /\ same_hit r r0)
    (_rerank_results env question results).
Proof.
  assert (Hsame : Forall (fun r => exists r0, In r0 results /\ same_hit r r0)
                    results).
  { apply Forall_forall. intros r Hr. exists r. split; [exact Hr|].
    apply same_hit_refl. }
  unfold _rerank_results.
  destruct (LLMClient.rerank _ _ _ _) as [e|rerank_results]; [exact Hsame|].
  destruct (reorder results rerank_results []) as [out|] eqn:E; [|exact Hsame].
  apply (reorder_from _ _ _ _ E). constructor.
Qed.

Lemma final_results_from (question : str) (results : list SearchResult) :
  Forall (fun r => exists r0, In r0 results /\ same_hit r r0)
    (final_results env question results).
Proof.
  unfold final_results.
  destruct (Z.of_nat (length results) >? settings.RERANK_TOP_N).
  - pose proof (rerank_results_from question results) as H.
    rewrite Forall_forall in H. apply Forall_forall. intros r Hr.
    apply H. now apply list_slice_In in Hr.
  - apply Forall_forall. intros r Hr. exists r. split; [exact Hr|].
    apply same_hit_refl.
Qed.

Lemma final_results_bound (question : str) (results : list SearchResult) :
  Z.of_nat (length (final_results env question results))
  <= settings.RERANK_TOP_N.
Proof.
  unfold final_results, settings.RERANK_TOP_N.
  destruct (Z.gtb_spec (Z.of_nat (length results)) 6) as [Hgt|Hle]; [|exact Hle].
  rewrite list_slice_prefix by lia. rewrite length_firstn. lia.
Qed.

Lemma final_results_fallback (question : str) (results : list SearchResult)
    (e : str) :
  LLMClient.rerank (rerank_api env) question (map sr_snippet results)
    settings.RERANK_TOP_N = inl e ->
  final_results env question results
  = firstn (Z.to_nat settings.RERANK_TOP_N) results.
Proof.
  intros He. unfold final_results, _rerank_results, settings.RERANK_TOP_N in *.
  rewrite He.
  destruct (Z.gtb_spec (Z.of_nat (length results)) 6) as [Hgt|Hle].
  - apply list_slice_prefix. lia.
  - symmetry. apply firstn_all2. lia.
Qed.

End Service.

Lemma chunk_map_get_In (chunks : list (ChunkRow * DocumentRow)) (id : Z)
    (chunk : ChunkRow) (document : DocumentRow) :
  chunk_map_get chunks id = Some (chunk, document) ->
  In (chunk, document) chunks /\ chunk_row_id chunk = id.
Proof.
  unfold chunk_map_get. intros H. apply find_some in H.
  destruct H as [Hin Hid]. simpl in Hid.
  split; [now apply in_rev | now apply Z.eqb_eq].
Qed.

Lemma chunk_details_from (joined : list (ChunkRow * DocumentRow))
    (results : list SearchResult) :
  Forall (retrieved results joined) (_get_chunk_details joined results).
Proof.
  unfold _get_chunk_details.
  set (chunks := filter _ joined).
  apply Forall_forall. intros d Hd.
  apply in_flat_map in Hd. destruct Hd as [r [Hr Hd]].
  destruct (chunk_map_get chunks (sr_chunk_id r)) as [[chunk document]|] eqn:E;
    [|destruct Hd].
  destruct Hd as [<-|[]].
  apply chunk_map_get_In in E. destruct E as [Hin Hid].
  subst chunks. apply filter_In in Hin. destruct Hin as [Hin _].
  split; [exact Hin|].
  exists r. repeat split; assumption.
Qed.

Lemma chunk_details_length (joined : list (ChunkRow * DocumentRow))
    (results : list SearchResult) :
  (length (_get_chunk_details joined results) <= length results)%nat.
Proof.
  unfold _get_chunk_details.
  set (chunks := filter _ joined). clearbody chunks.
  induction results as [|r results IH]; simpl; [lia|].
  rewrite length_app.
  destruct (chunk_map_get chunks (sr_chunk_id r)) as [[chunk document]|];
    simpl; lia.
Qed.

Lemma retrieved_from (results results' : list SearchResult)
    (joined : list (ChunkRow * DocumentRow)) (d : Detail) :
  Forall (fun r => exists r0, In r0 results /\ same_hit r r0) results' ->
  retrieved results' joined d -> retrieved results joined d.
Proof.
  intros Hfrom [Hin (r & Hr & Hid & Hscore)].
  rewrite Forall_forall in Hfrom.
  destruct (Hfrom r Hr) as (r0 & Hr0 & Hc & Hs & _).
  split; [exact Hin|].
  exists r0. repeat split; [exact Hr0 | congruence | congruence].
Qed.

Lemma extract_citations_grounded (results : list SearchResult)
    (joined : list (ChunkRow * DocumentRow)) (chunk_details : list Detail)
    (answer : str) :
  Forall (retrieved results joined) chunk_details ->
  Forall (grounded results joined) (_extract_citations chunk_details answer).
Proof.
  intros Hd. apply Forall_forall. intros c Hc.
  unfold _extract_citations in Hc.
  apply in_flat_map in Hc. destruct Hc as [num_str [_ Hc]].
  destruct (CitationClaims.cite_spec chunk_details num_str)
    as [[_ [detail [Hnth Hcite]]]|[_ Hcite]];
    rewrite Hcite in Hc; [|destruct Hc].
  destruct Hc as [<-|[]].
  rewrite Forall_forall in Hd.
  exists detail. split; [apply Hd; now apply nth_error_In in Hnth|].
  repeat split.
Qed.

(** *** The prompt *)

Lemma join_split (sep : str) (l : list str) (x : str) :
  In x l -> exists pre post : str, join sep l = pre ++ x ++ post.
Proof.
  induction l as [|t l IH]; intros Hin; [destruct Hin|].
  destruct l as [|u l].
  - destruct Hin as [->|[]]. exists [], []. simpl. now rewrite app_nil_r.
  - rewrite join_cons by discriminate.
    destruct Hin as [->|Hin].
    + exists [], (sep ++ join sep (u :: l)). reflexivity.
    + destruct (IH Hin) as (pre & post & ->).
      exists (t ++ sep ++ pre), post. now rewrite <- !app_assoc.
Qed.

Lemma enumerate_from_nth {A : Type} (l : list A) :
  forall (i : Z) (k : nat) (x : A),
    nth_error l k = Some x ->
    In (i + Z.of_nat k, x) (Chunker.enumerate_from i l).
Proof.
  induction l as [|a l IH]; intros i k x H; [now destruct k|].
  destruct k as [|k]; simpl in *.
  - inversion H; subst. left. f_equal. lia.
  - right. replace (i + Z.pos (Pos.of_succ_nat k)) with (i + 1 + Z.of_nat k)
      by lia.
    now apply IH.
Qed.

Lemma int_of_digits_uint (d : Decimal.uint) :
  forall acc : Z,
    fold_left (fun acc c => acc * 10 + digit_value c) (uint_digits d) acc
    = uint_value acc d.
Proof.
  induction d; intros acc; cbn [uint_digits fold_left uint_value];
    try reflexivity;
    match goal with
    | |- context [digit_value ?c] =>
        destruct (SearchProps.ascii_digit c ltac:(lia)) as (_ & -> & _)
    end;
    rewrite IHd; f_equal; lia.
Qed.

Lemma int_of_digits_str_of_int (n : Z) :
  0 <= n -> int_of_digits (str_of_int n) = n.
Proof.
  intros Hn. unfold int_of_digits, str_of_int.
  pose proof (DecimalZ.of_to n) as H.
  destruct (Z.to_int n) as [d|d] eqn:E.
  - rewrite int_of_digits_uint, <- SearchProps.uint_value_of_uint. exact H.
  - exfalso. destruct n as [|p|p]; simpl in E; try discriminate. lia.
Qed.

End AskProps.

(* ================================================================= *)
(** ** Properties of the question pipeline *)

Module AskClaims.
Import PyStr PyStrFacts PyText PyNum Rag RagSpec KBSearch Ask.
Import ProvenanceSpec AskSpec TextFacts AskProps.

(** Normalizing a question twice changes nothing more: the normalized
    question has no white space at its ends, holds white space only as
    single spaces, ends with a question mark, half-width or full-width,
    and is never empty. *)
Theorem normalized_question_is_stable (question : str) :
  let n := _normalize_question question in
  _normalize_question n = n
  /\ endswith question_mark n || endswith fullwidth_question_mark n = true
  /\ trimmed n
  /\ collapse_spaces false n = n.
Proof. apply normalize_question_stable. Qed.

(** At most [RERANK_TOP_N] search results are kept as evidence, whatever
    [top_k]; every evidence item is a row of the database whose chunk one
    of the search results names, with that result's score, and a result
    whose chunk has no row is left out; and when the reranker fails the
    evidence is taken from the first [RERANK_TOP_N] results of the
    search, in the order of the search. *)
Theorem evidence_is_bounded_and_retrieved (env : Env) (question : str)
    (search_results : list SearchResult) :
  let final := final_results env question search_results in
  let chunk_details := _get_chunk_details (joined env) final in
  Z.of_nat (length final) <= settings.RERANK_TOP_N
  /\ (length chunk_details <= length final)%nat
  /\ Forall (retrieved search_results (joined env)) chunk_details
  /\ (forall e : str,
        LLMClient.rerank (rerank_api env) question
          (map sr_snippet search_results) settings.RERANK_TOP_N = inl e ->
        final = firstn (Z.to_nat settings.RERANK_TOP_N) search_results).
Proof.
  cbv zeta. split; [apply final_results_bound|].
  split; [apply chunk_details_length|].
  split; [|intros e; apply final_results_fallback].
  eapply Forall_impl; [|apply chunk_details_from].
  intros d. apply retrieved_from. apply final_results_from.
Qed.

(** Every citation of a response points to a chunk that the search
    returned for the normalized question and that has a row in the
    database, and carries the ids, the section and the snippet of that
    row: the pipeline never cites a chunk that was not retrieved. *)
Theorem citations_are_grounded (self : RAGService) (env : Env) (db db' : Db)
    (user_id course_id : Z) (question : str) (top_k : option Z)
    (stream : bool) (response : Response) :
  ask_question self env db user_id course_id question top_k stream
  = (inr response, db') ->
  exists search_results : list SearchResult,
    search_knowledge (kb env) course_id (_normalize_question question)
      match top_k with
      | Some k => k
      | None => settings.TOP_K
      end None
    = inr search_results
    /\ Forall (grounded search_results (joined env)) (r_citations response).
Proof.
  unfold ask_question.
  destruct (search_knowledge _ _ _ _ _) as [cause|search_results];
    [discriminate|].
  intros H. exists search_results. split; [reflexivity|].
  destruct search_results as [|r0 rest].
  { inversion H; subst. constructor. }
  destruct stream; [discriminate|].
  set (results := r0 :: rest) in *.
  set (chunk_details :=
         _get_chunk_details (joined env)
           (final_results env (_normalize_question question) results)) in *.
  assert (Hd : Forall (retrieved results (joined env)) chunk_details).
  { eapply Forall_impl; [|apply chunk_details_from].
    intros d. apply retrieved_from. apply final_results_from. }
  unfold _generate_answer in H.
  destruct (chat_completion env _) as [answer|message]; [|discriminate].
  destruct (Qltb _ _); inversion H; subst; simpl;
    now apply extract_citations_grounded.
Qed.

Lemma citations_are_grounded_witness :
  let self := {| confidence_threshold := settings.CONFIDENCE_THRESHOLD |} in
  let hit :=
    {| VectorDB.chunk_id := [55%N];
       VectorDB.score := 9 # 10;
       VectorDB.metadata := [("document_id"%string, [51%N])];
       VectorDB.chunk_text := [97; 98; 99]%N |} in
  let env :=
    {| kb := {| get_embedding := fun _ => inr [];
                vectordb_query := fun _ _ _ _ => inr [hit] |};
       rerank_api := fun _ _ _ => inl [];
       joined := [ (d_chunk (evidence 7 3 1), d_document (evidence 7 3 1)) ];
       chat_completion := fun _ => Completed cites_1_1 |} in
  let db := {| qa_logs := []; next_id := 1 |} in
  exists (response : Response) (search_results : list SearchResult),
    fst (ask_question self env db 1 1 [97%N] None false) = inr response
    /\ map chunk_id (r_citations response) = [7]
    /\ search_knowledge (kb env) 1 (_normalize_question [97%N])
         settings.TOP_K None
       = inr search_results
    /\ Forall (grounded search_results (joined env)) (r_citations response).
Proof.
  intros self hit env db.
  destruct (ask_question self env db 1 1 [97%N] None false)
    as [[e|response] db'] eqn:E; [vm_compute in E; discriminate|].
  destruct (citations_are_grounded self env db db' 1 1 [97%N] None false
              response E) as [search_results [Hs Hg]].
  exists response, search_results.
  split; [reflexivity|].
  split; [|split; [exact Hs | exact Hg]].
  vm_compute in E. inversion E. reflexivity.
Defined.


(** When the vector store has no hit for the normalized question, the
    response is the fixed no-evidence answer around the question as it was
    asked, with no [qa_id], confidence 0, no citation and the three
    starter questions; nothing is logged, in both modes, and neither the
    reranker, the database rows nor the generation client have any
    influence. *)
Theorem no_hits_give_the_no_evidence_response (self : RAGService) (env : Env)
    (db : Db) (user_id course_id : Z) (question : str) (top_k : option Z)
    (stream : bool) (embedding : list Q) :
  get_embedding (kb env) (_normalize_question question) = inr embedding ->
  vectordb_query (kb env) (str_of_int course_id) embedding
    match top_k with
    | Some k => k
    | None => settings.TOP_K
    end None
  = inr [] ->
  exists response : Response,
    ask_question self env db user_id course_id question top_k stream
    = (inr response, db)
    /\ r_qa_id response = None
    /\ r_confidence response = 0%Q
    /\ r_citations response = []
    /\ r_followups response = starter_questions
    /\ contains question (r_answer response) = true.
Proof.
  intros He Hq. exists (_create_no_evidence_response question).
  unfold ask_question, search_knowledge. rewrite He, Hq.
  cbn [convert_hits].
  split; [reflexivity|].
  unfold _create_no_evidence_response.
  cbn [r_qa_id r_confidence r_citations r_followups r_answer].
  repeat split. apply ScanFacts.contains_insert.
Qed.

Lemma no_hits_give_the_no_evidence_response_witness :
  let self := {| confidence_threshold := settings.CONFIDENCE_THRESHOLD |} in
  let env :=
    {| kb := {| get_embedding := fun _ => inr [];
                vectordb_query := fun _ _ _ _ => inr [] |};
       rerank_api := fun _ _ _ => inl [];
       joined := [];
       chat_completion := fun _ => Failed [] |} in
  let db := {| qa_logs := []; next_id := 1 |} in
  exists response : Response,
    ask_question self env db 1 1 [97%N] None true = (inr response, db)
    /\ r_qa_id response = None
    /\ r_confidence response = 0%Q
    /\ r_citations response = []
    /\ r_followups response = starter_questions
    /\ contains [97%N] (r_answer response) = true.
Proof.
  intros self env db.
  apply (no_hits_give_the_no_evidence_response self env db 1 1 [97%N] None
           true []); reflexivity.
Defined.

(** The numbers agree between the prompt and the citations: the evidence
    item at position [n], counted from 1, is written into the prompt under
    the label [[n]] with its file name, section and text, and a reference
    [[n]] in the answer is resolved to the citation of that same item.
    The prompt also holds the question. *)
Theorem citation_numbers_match_prompt_labels (question : str)
    (chunk_details : list Detail) (n : Z) (detail : Detail) :
  1 <= n ->
  nth_error chunk_details (Z.to_nat (n - 1)) = Some detail ->
  contains (evidence_part n detail) (_build_rag_prompt question chunk_details)
  = true
  /\ contains question (_build_rag_prompt question chunk_details) = true
  /\ cite chunk_details (str_of_int n) = Appended (citation_of detail).
Proof.
  intros Hn Hnth. split; [|split].
  - unfold _build_rag_prompt.
    assert (Hin : In (evidence_part n detail)
                    (map (fun p : Z * Detail => evidence_part (fst p) (snd p))
                       (Chunker.enumerate_from 1 chunk_details))).
    { apply in_map_iff. exists (n, detail). split; [reflexivity|].
      replace n with (1 + Z.of_nat (Z.to_nat (n - 1))) at 1 by lia.
      now apply enumerate_from_nth. }
    destruct (join_split Chunker.newline _ _ Hin) as (pre & post & ->).
    rewrite <- !app_assoc, app_assoc.
    apply ScanFacts.contains_insert.
  - unfold _build_rag_prompt.
    rewrite !app_assoc, <- app_assoc.
    apply ScanFacts.contains_insert.
  - unfold cite. rewrite int_of_digits_str_of_int by lia.
    assert (Hlt : (Z.to_nat (n - 1) < length chunk_details)%nat).
    { apply nth_error_Some. congruence. }
    destruct (Z.leb_spec 1 n); [|lia].
    destruct (Z.leb_spec n (Z.of_nat (length chunk_details))); [|lia].
    cbn [andb]. rewrite Hnth. reflexivity.
Qed.

Lemma citation_numbers_match_prompt_labels_witness :
  let chunk_details := [evidence 7 3 1; evidence 8 3 (1 # 2)] in
  contains (evidence_part 2 (evidence 8 3 (1 # 2)))
    (_build_rag_prompt [97%N] chunk_details)
  = true
  /\ contains [97%N] (_build_rag_prompt [97%N] chunk_details) = true
  /\ cite chunk_details (str_of_int 2)
     = Appended (citation_of (evidence 8 3 (1 # 2))).
Proof.
  intros chunk_details.
  apply (citation_numbers_match_prompt_labels [97%N] chunk_details 2
           (evidence 8 3 (1 # 2))); [lia | reflexivity].
Defined.

End AskClaims.

(* ================================================================= *)
(** ** What the ingestion job stores *)

Module IngestProps.
Import PyStr PyStrFacts PyText Ingest IngestSpec IngestFacts StorageSpec.

Local Open Scope ingest_scope.

(** With a reliable session the loop over the pairs adds one row per pair,
    with consecutive fresh keys, and returns one record per pair. *)
Lemma save_chunks_exact (env : Collaborators) (document_id course_id : Z)
    (pairs : list (Chunker.TextChunk * list Q)) :
  (forall k : nat, session_fault env k = None) ->
  forall s : Session,
    save_chunks env document_id course_id pairs s
    = (inr (records_from document_id course_id (next_chunk_id s) pairs),
       {| task := task s;
          document := document s;
          pending_chunks :=
            pending_chunks s
            ++ rows_from document_id course_id (next_chunk_id s) pairs;
          next_chunk_id := next_chunk_id s + Z.of_nat (length pairs);
          ops := (ops s + length pairs)%nat;
          committed_tasks := committed_tasks s;
          committed_document := committed_document s;
          committed_chunks := committed_chunks s;
          vectors := vectors s |}).
Proof.
  intros Hreliable.
  induction pairs as [|[chunk embedding] pairs IH]; intros s.
  - destruct s. cbn. unfold ret.
    do 2 f_equal; [symmetry; apply app_nil_r | lia | lia].
  - cbn [save_chunks]. unfold bind, add_chunk, session_op.
    rewrite Hreliable. rewrite IH.
    cbn [ret task document pending_chunks next_chunk_id ops committed_tasks
         committed_document committed_chunks vectors chunk_record_id
         rows_from records_from length].
    unfold row_of, record_of, ret.
    f_equal. f_equal; try lia. now rewrite <- app_assoc.
Qed.

Lemma rows_from_length (document_id course_id first_id : Z)
    (pairs : list (Chunker.TextChunk * list Q)) :
  length (rows_from document_id course_id first_id pairs) = length pairs.
Proof.
  revert first_id. induction pairs as [|[c e] pairs IH]; intros first_id;
    simpl; [reflexivity | now rewrite IH].
Qed.

Lemma rows_from_keys (document_id course_id : Z)
    (pairs : list (Chunker.TextChunk * list Q)) :
  forall first_id : Z,
    map chunk_record_id (rows_from document_id course_id first_id pairs)
    = map (fun k => first_id + Z.of_nat k) (seq 0 (length pairs)).
Proof.
  induction pairs as [|[c e] pairs IH]; intros first_id; simpl;
    [reflexivity|].
  rewrite IH. f_equal; [lia|].
  rewrite <- seq_shift, map_map. apply map_ext. intros k. lia.
Qed.

Lemma rows_from_texts (document_id course_id : Z)
    (pairs : list (Chunker.TextChunk * list Q)) :
  forall first_id : Z,
    map chunk_text (rows_from document_id course_id first_id pairs)
    = map (fun p => Chunker.text (fst p)) pairs.
Proof.
  induction pairs as [|[c e] pairs IH]; intros first_id; simpl;
    [reflexivity | now rewrite IH].
Qed.

Lemma rows_records (document_id course_id : Z)
    (pairs : list (Chunker.TextChunk * list Q)) :
  forall first_id : Z,
    Forall2 (stored_with document_id)
      (rows_from document_id course_id first_id pairs)
      (records_from document_id course_id first_id pairs).
Proof.
  induction pairs as [|[c e] pairs IH]; intros first_id; simpl;
    constructor; [|apply IH].
  unfold stored_with. simpl.
  repeat split; try apply SearchProps.py_int_str_of_int.
  rewrite ClientProps.slice_to_firstn by lia.
  unfold len. rewrite length_firstn. lia.
Qed.

Lemma records_embeddings (document_id course_id : Z)
    (pairs : list (Chunker.TextChunk * list Q)) :
  forall first_id : Z,
    map vr_embedding (records_from document_id course_id first_id pairs)
    = map snd pairs.
Proof.
  induction pairs as [|[c e] pairs IH]; intros first_id; simpl;
    [reflexivity | now rewrite IH].
Qed.

(** A step of the symbolic run that leaves the lists as they are
    written. *)
Ltac run_session :=
  cbv beta iota zeta delta
    [bind set_task set_document_status store_vectors modify commit
     query_task query_document session_op get call raise ret
     update_local held message_of
     fst snd task document pending_chunks next_chunk_id ops
     committed_tasks committed_document committed_chunks vectors].

Section Run.

Variable env : Collaborators.
Variables (task_id : str) (document_id : Z).
Variable chunk_policy : option ChunkPolicy.
Variable d : Document.
Variables (db_chunks : list ChunkRecord) (first_id : Z).
Variable store : list VectorRecord.
Variable parsed_doc : Chunker.ParsedDoc.
Variable embeddings : list (list Q).

Hypothesis reliable : forall k : nat, session_fault env k = None.
Hypothesis parsed : parse_file env d = inr parsed_doc.
Hypothesis written : write_parsed env parsed_doc = inr tt.
Hypothesis chunked : chunk_fault env = None.
Hypothesis embedded :
  get_embeddings_batch env
    (map Chunker.text
       (Chunker.chunk_document (chunker_of chunk_policy) parsed_doc))
  = inr embeddings.

Local Abbreviation pairs :=
  (combine (Chunker.chunk_document (chunker_of chunk_policy) parsed_doc)
     embeddings).

Local Abbreviation final :=
  (snd (_ingest_document_task env (Some (new_task task_id document_id))
          document_id chunk_policy
          (session_of task_id document_id (Some d) db_chunks first_id store))).

Lemma run_with_upsert (outcome : str + unit) :
  pairs = []
  \/ upsert env (records_from document_id (doc_course_id d) first_id pairs)
     = outcome ->
  committed_chunks final
  = db_chunks ++ rows_from document_id (doc_course_id d) first_id pairs
  /\ match outcome with
     | inr _ =>
         vectors final
         = store
           ++ records_from document_id (doc_course_id d) first_id pairs
         /\ map status (committed_tasks final)
            = [queued; processing; processing; processing; processing; done]
         /\ committed_document final = Some (with_doc_status "ready" d)
     | inl e =>
         pairs <> [] ->
         vectors final = store
         /\ map status (committed_tasks final)
            = [queued; processing; processing; processing; processing;
               failed; failed]
         /\ map error_message (committed_tasks final)
            = [None; None; None; None; None; Some e; Some e]
         /\ committed_document final = Some (with_doc_status "failed" d)
     end.
Proof.
  intros Hupsert.
  unfold _ingest_document_task, ingest_body, ingest_handler, session_of.
  repeat (run_session; rewrite ?reliable).
  rewrite parsed. repeat (run_session; rewrite ?reliable).
  rewrite written. repeat (run_session; rewrite ?reliable).
  rewrite chunked. repeat (run_session; rewrite ?reliable).
  fold (chunker_of chunk_policy).
  rewrite embedded. repeat (run_session; rewrite ?reliable).
  rewrite (save_chunks_exact env _ _ _ reliable).
  cbn [task document pending_chunks next_chunk_id ops committed_tasks
       committed_document committed_chunks vectors].
  destruct pairs as [|[chunk embedding] rest] eqn:Ep.
  - cbn [records_from rows_from].
    repeat (run_session; rewrite ?reliable).
    rewrite ?app_nil_r. split; [reflexivity|].
    destruct outcome as [e|u]; [intros H; congruence|].
    repeat split.
  - destruct Hupsert as [Hnil|Hupsert]; [discriminate|].
    cbn [records_from] in *.
    repeat (run_session; rewrite ?reliable).
    rewrite Hupsert.
    destruct outcome as [e|[]]; repeat (run_session; rewrite ?reliable);
      rewrite ?app_nil_r.
    + split; [reflexivity|]. intros _. repeat split.
    + split; [reflexivity|]. repeat split.
Qed.

End Run.

Lemma combine_fst {A B : Type} (l : list A) :
  forall l' : list B,
    map fst (combine l l') = firstn (length (combine l l')) l.
Proof.
  induction l as [|a l IH]; intros [|b l']; simpl; try reflexivity.
  now rewrite IH.
Qed.

Lemma combine_snd {A B : Type} (l : list A) :
  forall l' : list B,
    map snd (combine l l') = firstn (length (combine l l')) l'.
Proof.
  induction l as [|a l IH]; intros [|b l']; simpl; try reflexivity.
  now rewrite IH.
Qed.

(** The embedding stored with each row when the embedding of a chunk is a
    function of its text. *)
Lemma records_embed (document_id course_id : Z) (f : str -> list Q)
    (chunks : list Chunker.TextChunk) :
  forall first_id : Z,
    Forall2 (fun row v => vr_embedding v = f (chunk_text row))
      (rows_from document_id course_id first_id
         (combine chunks (map (fun c => f (Chunker.text c)) chunks)))
      (records_from document_id course_id first_id
         (combine chunks (map (fun c => f (Chunker.text c)) chunks))).
Proof.
  induction chunks as [|c chunks IH]; intros first_id; simpl; constructor;
    [reflexivity | apply IH].
Qed.

End IngestProps.

(* ================================================================= *)
(** ** Properties of what the ingestion job stores *)

Module StorageClaims.
Import PyStr PyStrFacts PyText Ingest IngestSpec StorageSpec IngestProps.

(** A run of the job in which nothing fails stores one row per pair of a
    chunk and an embedding, that is, as many rows as there are chunks or
    embeddings, whichever are fewer, after the rows that were there.  The
    rows get consecutive fresh keys and hold the texts of the chunks in
    order; each row has one vector record, whose ids are the decimal
    strings of the row's key and of the document id, which [int] reads
    back, whose text is the first 2000 characters of the chunk and whose
    embedding is the one paired with the chunk; and the document is marked
    ready. *)
Theorem ingestion_stores_one_vector_per_row (env : Collaborators)
    (task_id : str) (document_id : Z) (chunk_policy : option ChunkPolicy)
    (d : Document) (db_chunks : list ChunkRecord) (first_id : Z)
    (store : list VectorRecord) (parsed_doc : Chunker.ParsedDoc)
    (embeddings : list (list Q)) :
  (forall k : nat, session_fault env k = None) ->
  parse_file env d = inr parsed_doc ->
  write_parsed env parsed_doc = inr tt ->
  chunk_fault env = None ->
  let chunks := Chunker.chunk_document (chunker_of chunk_policy) parsed_doc in
  get_embeddings_batch env (map Chunker.text chunks) = inr embeddings ->
  (combine chunks embeddings = []
   \/ upsert env
        (records_from document_id (doc_course_id d) first_id
           (combine chunks embeddings))
      = inr tt) ->
  let s :=
    snd (_ingest_document_task env (Some (new_task task_id document_id))
           document_id chunk_policy
           (session_of task_id document_id (Some d) db_chunks first_id store))
  in
  exists (rows : list ChunkRecord) (records : list VectorRecord),
    committed_chunks s = db_chunks ++ rows
    /\ vectors s = store ++ records
    /\ length rows = Nat.min (length chunks) (length embeddings)
    /\ map chunk_record_id rows
       = map (fun k => first_id + Z.of_nat k) (seq 0 (length rows))
    /\ map chunk_text rows = firstn (length rows) (map Chunker.text chunks)
    /\ Forall2 (stored_with document_id) rows records
    /\ map vr_embedding records = firstn (length rows) embeddings
    /\ committed_document s = Some (with_doc_status "ready" d).
Proof.
  intros Hreliable Hparsed Hwritten Hchunked chunks Hembedded Hupsert s.
  destruct (run_with_upsert env task_id document_id chunk_policy d db_chunks
              first_id store parsed_doc embeddings Hreliable Hparsed Hwritten
              Hchunked Hembedded (inr tt) Hupsert)
    as (Hrows & Hrecords & _ & Hdoc).
  fold chunks in Hrows, Hrecords. fold s in Hrows, Hrecords, Hdoc.
  exists (rows_from document_id (doc_course_id d) first_id
            (combine chunks embeddings)),
         (records_from document_id (doc_course_id d) first_id
            (combine chunks embeddings)).
  rewrite rows_from_length.
  split; [exact Hrows|]. split; [exact Hrecords|].
  split; [apply length_combine|].
  split; [apply rows_from_keys|].
  split.
  { rewrite rows_from_texts, <- (map_map fst Chunker.text), combine_fst.
    now rewrite firstn_map. }
  split; [apply rows_records|].
  split; [|exact Hdoc].
  rewrite records_embeddings. apply combine_snd.
Qed.

Lemma ingestion_stores_one_vector_per_row_witness :
  let parsed_doc :=
    {| Chunker.content :=
         [ {| Chunker.b_text := [97; 98; 99]%N;
              Chunker.b_section := [49%N];
              Chunker.b_page := 0; Chunker.b_slide := 0;
              Chunker.b_paragraph := 1 |};
           {| Chunker.b_text := [100%N];
              Chunker.b_section := [50%N];
              Chunker.b_page := 0; Chunker.b_slide := 0;
              Chunker.b_paragraph := 2 |} ];
       Chunker.doc_type := "txt";
       Chunker.raw_text := [97; 98; 99; 10; 10; 100]%N |} in
  let d :=
    {| doc_id := 4; doc_course_id := 1; doc_file_name := [97%N];
       doc_file_type := [116%N]; doc_storage_path := [47%N];
       doc_status := "uploaded" |} in
  let s :=
    snd (_ingest_document_task (all_succeed parsed_doc)
           (Some (new_task [116%N] 4)) 4 None
           (session_of [116%N] 4 (Some d) [] 10 [])) in
  exists (rows : list ChunkRecord) (records : list VectorRecord),
    committed_chunks s = [] ++ rows
    /\ vectors s = [] ++ records
    /\ length rows = 2%nat
    /\ map chunk_record_id rows = [10; 11]
    /\ map vr_chunk_id records = [[49; 48]%N; [49; 49]%N]
    /\ Forall2 (stored_with 4) rows records.
Proof.
  intros parsed_doc d s.
  destruct (ingestion_stores_one_vector_per_row (all_succeed parsed_doc)
              [116%N] 4 None d [] 10 [] parsed_doc [[]; []]
              (fun _ => eq_refl) eq_refl eq_refl eq_refl eq_refl
              (or_intror eq_refl))
    as (rows & records & Hrows & Hrecords & Hlen & Hkeys & _ & Hstored & _).
  exists rows, records.
  split; [exact Hrows|]. split; [exact Hrecords|].
  split; [exact Hlen|].
  split; [rewrite Hkeys, Hlen; reflexivity|].
  split; [|exact Hstored].
  change (vectors s) with
    (records_from 4 1 10
       (combine (Chunker.chunk_document (chunker_of None) parsed_doc)
          [[]; []])) in Hrecords.
  simpl app in Hrecords. rewrite <- Hrecords. reflexivity.
Defined.

(** When the vector store refuses the records, the rows of the chunks are
    committed all the same: they were added to the session before the
    upsert, and the commit of the failure handler writes them.  The run
    ends with the task and the document marked failed and the message
    kept, the new rows in the database and no vector for them. *)
Theorem failed_upsert_leaves_rows_without_vectors (env : Collaborators)
    (task_id : str) (document_id : Z) (chunk_policy : option ChunkPolicy)
    (d : Document) (db_chunks : list ChunkRecord) (first_id : Z)
    (store : list VectorRecord) (parsed_doc : Chunker.ParsedDoc)
    (embeddings : list (list Q)) (e : str) :
  (forall k : nat, session_fault env k = None) ->
  parse_file env d = inr parsed_doc ->
  write_parsed env parsed_doc = inr tt ->
  chunk_fault env = None ->
  let chunks := Chunker.chunk_document (chunker_of chunk_policy) parsed_doc in
  get_embeddings_batch env (map Chunker.text chunks) = inr embeddings ->
  combine chunks embeddings <> [] ->
  upsert env
    (records_from document_id (doc_course_id d) first_id
       (combine chunks embeddings))
  = inl e ->
  let s :=
    snd (_ingest_document_task env (Some (new_task task_id document_id))
           document_id chunk_policy
           (session_of task_id document_id (Some d) db_chunks first_id store))
  in
  exists rows : list ChunkRecord,
    committed_chunks s = db_chunks ++ rows
    /\ rows <> []
    /\ length rows = Nat.min (length chunks) (length embeddings)
    /\ map chunk_text rows = firstn (length rows) (map Chunker.text chunks)
    /\ vectors s = store
    /\ map status (committed_tasks s)
       = [queued; processing; processing; processing; processing; failed;
          failed]
    /\ map error_message (committed_tasks s)
       = [None; None; None; None; None; Some e; Some e]
    /\ committed_document s = Some (with_doc_status "failed" d).
Proof.
  intros Hreliable Hparsed Hwritten Hchunked chunks Hembedded Hne Hupsert s.
  destruct (run_with_upsert env task_id document_id chunk_policy d db_chunks
              first_id store parsed_doc embeddings Hreliable Hparsed Hwritten
              Hchunked Hembedded (inl e) (or_intror Hupsert))
    as (Hrows & Hrest).
  destruct (Hrest Hne) as (Hv & Hs & He & Hd).
  exists (rows_from document_id (doc_course_id d) first_id
            (combine chunks embeddings)).
  rewrite rows_from_length.
  split; [exact Hrows|].
  split.
  { intros E. apply (f_equal (@length _)) in E.
    rewrite rows_from_length in E. destruct (combine chunks embeddings);
      [congruence | discriminate]. }
  split; [apply length_combine|].
  split.
  { rewrite rows_from_texts, <- (map_map fst Chunker.text), combine_fst.
    now rewrite firstn_map. }
  repeat split; assumption.
Qed.

Lemma failed_upsert_leaves_rows_without_vectors_witness :
  let parsed_doc :=
    {| Chunker.content :=
         [ {| Chunker.b_text := [97; 98; 99]%N;
              Chunker.b_section := [49%N];
              Chunker.b_page := 0; Chunker.b_slide := 0;
              Chunker.b_paragraph := 1 |} ];
       Chunker.doc_type := "txt";
       Chunker.raw_text := [97; 98; 99]%N |} in
  let env :=
    {| parse_file := fun _ => inr parsed_doc;
       write_parsed := fun _ => inr tt;
       chunk_fault := None;
       get_embeddings_batch := fun texts => inr (map (fun _ => []) texts);
       upsert := fun _ => inl [33%N];
       session_fault := fun _ => None |} in
  let d :=
    {| doc_id := 4; doc_course_id := 1; doc_file_name := [97%N];
       doc_file_type := [116%N]; doc_storage_path := [47%N];
       doc_status := "uploaded" |} in
  let s :=
    snd (_ingest_document_task env (Some (new_task [116%N] 4)) 4 None
           (session_of [116%N] 4 (Some d) [] 10 [])) in
  exists rows : list ChunkRecord,
    committed_chunks s = [] ++ rows
    /\ rows <> []
    /\ length rows = 1%nat
    /\ vectors s = []
    /\ committed_document s = Some (with_doc_status "failed" d).
Proof.
  intros parsed_doc env d s.
  destruct (failed_upsert_leaves_rows_without_vectors env [116%N] 4 None d
              [] 10 [] parsed_doc [[]] [33%N]
              (fun _ => eq_refl) eq_refl eq_refl eq_refl eq_refl
              ltac:(discriminate) eq_refl)
    as (rows & Hrows & Hne & Hlen & _ & Hv & _ & _ & Hd).
  exists rows. repeat split; assumption.
Defined.

(** With the embedding client of the application and an endpoint that
    answers every batch with one embedding per text, no chunk is dropped:
    a run in which nothing fails stores one row and one vector per chunk,
    and the vector of a chunk is the embedding of the first 400 characters
    of its text, while the text stored beside it keeps the first 2000. *)
Theorem stored_vectors_embed_the_first_400_characters (env : Collaborators)
    (create : list str -> str + list (list Q)) (embed : str -> list Q)
    (task_id : str) (document_id : Z) (chunk_policy : option ChunkPolicy)
    (d : Document) (db_chunks : list ChunkRecord) (first_id : Z)
    (store : list VectorRecord) (parsed_doc : Chunker.ParsedDoc) :
  (forall k : nat, session_fault env k = None) ->
  parse_file env d = inr parsed_doc ->
  write_parsed env parsed_doc = inr tt ->
  chunk_fault env = None ->
  (forall texts : list str,
      get_embeddings_batch env texts
      = LLMClient.get_embeddings_batch create texts) ->
  (forall batch : list str, create batch = inr (map embed batch)) ->
  (forall records : list VectorRecord, upsert env records = inr tt) ->
  let chunks := Chunker.chunk_document (chunker_of chunk_policy) parsed_doc in
  let s :=
    snd (_ingest_document_task env (Some (new_task task_id document_id))
           document_id chunk_policy
           (session_of task_id document_id (Some d) db_chunks first_id store))
  in
  exists (rows : list ChunkRecord) (records : list VectorRecord),
    committed_chunks s = db_chunks ++ rows
    /\ vectors s = store ++ records
    /\ map chunk_text rows = map Chunker.text chunks
    /\ Forall2
         (fun row v =>
            vr_embedding v = embed (slice_to (chunk_text row) 400)
            /\ vr_chunk_text v = slice_to (chunk_text row) 2000)
         rows records.
Proof.
  intros Hreliable Hparsed Hwritten Hchunked Hclient Hcreate Hupsert chunks s.
  set (f := fun t : str => embed (slice_to t 400)).
  assert (Hembedded :
    get_embeddings_batch env (map Chunker.text chunks)
    = inr (map (fun c => f (Chunker.text c)) chunks)).
  { rewrite Hclient.
    rewrite (ClientProps.embeddings_elementwise create embed)
      by (intros batch _; apply Hcreate).
    now rewrite map_map. }
  destruct (run_with_upsert env task_id document_id chunk_policy d db_chunks
              first_id store parsed_doc _ Hreliable Hparsed Hwritten
              Hchunked Hembedded (inr tt) (or_intror (Hupsert _)))
    as (Hrows & Hrecords & _).
  fold chunks in Hrows, Hrecords. fold s in Hrows, Hrecords.
  exists (rows_from document_id (doc_course_id d) first_id
            (combine chunks (map (fun c => f (Chunker.text c)) chunks))),
         (records_from document_id (doc_course_id d) first_id
            (combine chunks (map (fun c => f (Chunker.text c)) chunks))).
  split; [exact Hrows|]. split; [exact Hrecords|].
  split.
  { rewrite rows_from_texts, <- (map_map fst Chunker.text), combine_fst.
    rewrite length_combine, length_map, Nat.min_id.
    now rewrite firstn_all. }
  pose proof (records_embed document_id (doc_course_id d) f chunks first_id)
    as He.
  pose proof (rows_records document_id (doc_course_id d)
                (combine chunks (map (fun c => f (Chunker.text c)) chunks))
                first_id) as Hs.
  revert He Hs.
  generalize (rows_from document_id (doc_course_id d) first_id
                (combine chunks (map (fun c => f (Chunker.text c)) chunks))).
  generalize (records_from document_id (doc_course_id d) first_id
                (combine chunks (map (fun c => f (Chunker.text c)) chunks))).
  intros records rows He. induction He as [|row v rows records H1 _ IH];
    intros Hs; [constructor|].
  inversion Hs as [|? ? ? ? H2 Hrest]; subst.
  constructor; [|now apply IH].
  split; [exact H1 | apply H2].
Qed.

Lemma stored_vectors_embed_the_first_400_characters_witness :
  let parsed_doc :=
    {| Chunker.content :=
         [ {| Chunker.b_text := repeat 97%N 401 ++ [98%N];
              Chunker.b_section := [49%N];
              Chunker.b_page := 0; Chunker.b_slide := 0;
              Chunker.b_paragraph := 1 |} ];
       Chunker.doc_type := "txt";
       Chunker.raw_text := [] |} in
  let embed := fun text : str => [inject_Z (len text)] in
  let create := fun batch : list str => inr (map embed batch) in
  let env :=
    {| parse_file := fun _ => inr parsed_doc;
       write_parsed := fun _ => inr tt;
       chunk_fault := None;
       get_embeddings_batch := LLMClient.get_embeddings_batch create;
       upsert := fun _ => inr tt;
       session_fault := fun _ => None |} in
  let d :=
    {| doc_id := 4; doc_course_id := 1; doc_file_name := [97%N];
       doc_file_type := [116%N]; doc_storage_path := [47%N];
       doc_status := "uploaded" |} in
  let s :=
    snd (_ingest_document_task env (Some (new_task [116%N] 4)) 4 None
           (session_of [116%N] 4 (Some d) [] 10 [])) in
  exists (rows : list ChunkRecord) (records : list VectorRecord),
    committed_chunks s = [] ++ rows
    /\ vectors s = [] ++ records
    /\ map chunk_text rows = [repeat 97%N 401 ++ [98%N]]
    /\ Forall2
         (fun row v =>
            vr_embedding v = embed (slice_to (chunk_text row) 400)
            /\ vr_chunk_text v = slice_to (chunk_text row) 2000)
         rows records.
Proof.
  intros parsed_doc embed create env d s.
  apply (stored_vectors_embed_the_first_400_characters env create embed
           [116%N] 4 None d [] 10 [] parsed_doc);
    try reflexivity; intros; reflexivity.
Defined.

End StorageClaims.

(* ================================================================= *)
(** ** References that are found, and answers that are accepted *)

Module ReferenceProps.
Import PyStr PyStrFacts PyText PyNum PyNumFacts Rag RagSpec ScanFacts.
Import ParserSpec.

(** *** Every reference is found *)

Lemma scan_digits (ds : str) :
  Forall (fun c => isdecimal c = true) ds ->
  forall (acc rest : str),
    scan_citations (Inside acc) (ds ++ rest)
    = scan_citations (Inside (acc ++ ds)) rest.
Proof.
  induction 1 as [|c ds Hc _ IH]; intros acc rest; simpl app.
  - now rewrite app_nil_r.
  - cbn [scan_citations]. rewrite Hc, IH, <- app_assoc. reflexivity.
Qed.

Lemma scan_open (st : Scan) (rest : str) :
  scan_citations st (lbracket :: rest) = scan_citations (Inside []) rest.
Proof. destruct st; reflexivity. Qed.

(** A bracketed run of digits is matched wherever it stands. *)
Lemma scan_reference (st : Scan) (ds rest : str) :
  ds <> [] ->
  Forall (fun c => isdecimal c = true) ds ->
  scan_citations st ([lbracket] ++ ds ++ [rbracket] ++ rest)
  = ds :: scan_citations Outside rest.
Proof.
  intros Hne Hds. simpl app at 1. rewrite scan_open.
  rewrite (scan_digits ds Hds [] (rbracket :: rest)). simpl app.
  cbn [scan_citations].
  change (isdecimal rbracket) with false.
  change (char_eqb rbracket rbracket) with true.
  destruct ds; [congruence | reflexivity].
Qed.

Lemma findall_reference (before ds after : str) :
  ds <> [] ->
  Forall (fun c => isdecimal c = true) ds ->
  In ds (findall_citations (before ++ [lbracket] ++ ds ++ [rbracket] ++ after)).
Proof.
  intros Hne Hds. unfold findall_citations.
  rewrite scan_citations_app, scan_reference by assumption.
  apply in_or_app. right. now left.
Qed.

Lemma str_of_int_digits (n : Z) :
  0 <= n ->
  str_of_int n <> []
  /\ Forall (fun c => isdecimal c = true) (str_of_int n).
Proof.
  intros Hn. unfold str_of_int.
  pose proof (SearchProps.to_int_digits n) as Hd.
  destruct (Z.to_int n) as [d|d] eqn:E.
  - split.
    + destruct d; simpl; congruence.
    + eapply Forall_impl; [|apply SearchProps.uint_digits_ascii].
      intros c Hc. now apply SearchProps.ascii_digit.
  - exfalso. destruct n as [|p|p]; simpl in E; try discriminate. lia.
Qed.

Lemma referenced_item_is_cited (chunk_details : list Detail)
    (before after : str) (n : Z) (detail : Detail) :
  1 <= n ->
  nth_error chunk_details (Z.to_nat (n - 1)) = Some detail ->
  In (citation_of detail)
    (_extract_citations chunk_details
       (before ++ [lbracket] ++ str_of_int n ++ [rbracket] ++ after)).
Proof.
  intros Hn Hnth. unfold _extract_citations.
  destruct (str_of_int_digits n) as [Hne Hds]; [lia|].
  apply in_flat_map. exists (str_of_int n). split.
  - apply nodup_In. now apply findall_reference.
  - unfold cite. rewrite AskProps.int_of_digits_str_of_int by lia.
    assert (Hlt : (Z.to_nat (n - 1) < length chunk_details)%nat).
    { apply nth_error_Some. congruence. }
    destruct (Z.leb_spec 1 n); [|lia].
    destruct (Z.leb_spec n (Z.of_nat (length chunk_details))); [|lia].
    cbn [andb]. rewrite Hnth. now left.
Qed.

(** *** Confidence and citations *)

Local Open Scope Q_scope.







End ReferenceProps.

Module ReferenceClaims.
Import PyStr PyText PyNum PyNumFacts Rag RagSpec ReferenceProps.

(** The extractor misses no reference: when the answer holds [[n]], the
    decimal number of an evidence item, anywhere in its text, the
    citation of the item at position [n] is among the citations
    returned. *)
Theorem referenced_evidence_is_cited (chunk_details : list Detail)
    (before after : str) (n : Z) (detail : Detail) :
  1 <= n ->
  nth_error chunk_details (Z.to_nat (n - 1)) = Some detail ->
  In (citation_of detail)
    (_extract_citations chunk_details
       (before ++ [lbracket] ++ str_of_int n ++ [rbracket] ++ after)).
Proof. apply referenced_item_is_cited. Qed.

Lemma referenced_evidence_is_cited_witness :
  In (citation_of (evidence 8 3 (1 # 2)))
    (_extract_citations [evidence 7 3 1; evidence 8 3 (1 # 2)]
       ([91; 91; 49]%N ++ [lbracket] ++ str_of_int 2 ++ [rbracket] ++ [93]%N)).
Proof.
  apply (referenced_evidence_is_cited
           [evidence 7 3 1; evidence 8 3 (1 # 2)] [91; 91; 49]%N [93]%N 2
           (evidence 8 3 (1 # 2))); [lia | reflexivity].
Defined.

Local Open Scope Q_scope.



End ReferenceClaims.

(* ================================================================= *)
(** ** The Markdown parser keeps the body of the file *)

Module MarkdownProps.
Import PyStr PyStrFacts PyText Chunker Parser ParserSpec.

Lemma body_lines_app (l1 l2 : list str) :
  body_lines (l1 ++ l2) = body_lines l1 ++ body_lines l2.
Proof.
  unfold body_lines. now rewrite map_app, !filter_app.
Qed.

Lemma body_lines_one (line : str) :
  body_lines [line]
  = if truthy (strip line)
    then if startswith [hash] (strip line) then [] else [strip line]
    else [].
Proof.
  unfold body_lines. cbn [map filter].
  destruct (truthy (strip line)); [|reflexivity].
  cbn [filter]. now destruct (startswith [hash] (strip line)).
Qed.

Lemma grouped_snoc (texts : list str) (groups : list (list str))
    (g : list str) :
  grouped texts groups -> g <> [] ->
  grouped (texts ++ [join newline g]) (groups ++ [g]).
Proof.
  intros [-> Hne] Hg. split.
  - now rewrite map_app.
  - apply Forall_app. split; [exact Hne | now repeat constructor].
Qed.

Lemma md_step_groups (st : list Block * str * list str)
    (seen : list str) (line : str) :
  md_groups st seen -> md_groups (md_step st line) (seen ++ [line]).
Proof.
  destruct st as [[content current_section] current_text].
  intros [groups [Hg Hc]]. cbn [fst snd] in Hg, Hc.
  unfold md_groups. rewrite body_lines_app, body_lines_one, <- Hc.
  unfold md_step.
  destruct (truthy (strip line)); cbn [negb].
  2:{ exists groups. cbn [fst snd]. split; [exact Hg|].
      now rewrite app_nil_r. }
  destruct (startswith [hash] (strip line)).
  - destruct current_text as [|t l].
    + exists groups. cbn [fst snd]. split; [exact Hg|].
      now rewrite !app_nil_r.
    + exists (groups ++ [t :: l]). cbn [fst snd]. split.
      * rewrite map_app. cbn [map]. unfold md_block at 1. cbn [b_text].
        apply grouped_snoc; [exact Hg | discriminate].
      * rewrite concat_app. cbn [concat]. now rewrite !app_nil_r.
  - exists groups. cbn [fst snd]. split; [exact Hg|].
    now rewrite app_assoc.
Qed.

Lemma md_fold_groups (lines : list str) :
  forall (st : list Block * str * list str) (seen : list str),
    md_groups st seen ->
    md_groups (fold_left md_step lines st) (seen ++ lines).
Proof.
  induction lines as [|line lines IH]; intros st seen H.
  - now rewrite app_nil_r.
  - cbn [fold_left].
    replace (seen ++ line :: lines) with ((seen ++ [line]) ++ lines)
      by now rewrite <- app_assoc.
    apply IH. now apply md_step_groups.
Qed.

(** The Markdown parser loses no body line and adds none: the texts of
    its blocks are groups of lines joined by newlines, no group is empty,
    and the groups one after the other are exactly the lines of the file
    that, once trimmed, are neither empty nor a heading, in the order of
    the file.  The counter of the metadata is the number of blocks. *)
Theorem markdown_blocks_hold_the_body_lines (md_content : str) :
  exists groups : list (list str),
    map b_text (content (parsed (_parse_markdown md_content)))
    = map (join newline) groups
    /\ Forall (fun g : list str => g <> []) groups
    /\ concat groups = body_lines (split newline md_content)
    /\ snd (counter (_parse_markdown md_content))
       = Z.of_nat (length groups).
Proof.
  unfold _parse_markdown.
  pose proof (md_fold_groups (split newline md_content)
                ([], document_start, []) []) as H.
  destruct (fold_left md_step _ _) as [[blocks current_section] l].
  destruct H as [groups [[Ht Hne] Hc]].
  { exists []. repeat split; constructor. }
  cbn [fst snd app] in Ht, Hc. cbn [parsed content counter snd].
  destruct l as [|t l].
  - exists groups. rewrite app_nil_r in Hc.
    repeat split; try assumption.
    rewrite <- (length_map b_text), Ht, length_map. reflexivity.
  - exists (groups ++ [t :: l]).
    rewrite map_app. cbn [map]. unfold md_block at 1. cbn [b_text].
    destruct (grouped_snoc _ groups (t :: l) (conj Ht Hne)) as [Ht' Hne'];
      [discriminate|].
    repeat split; try assumption.
    + rewrite concat_app. cbn [concat]. now rewrite app_nil_r.
    + rewrite <- (length_map b_text), map_app. cbn [map].
      unfold md_block at 1. cbn [b_text]. rewrite Ht', length_map.
      reflexivity.
Qed.

End MarkdownProps.
